(** * McpEnvInitService: the uv/bun environment bootstrap of the main process

    A shallow embedding of [McpEnvInitService] (the service that checks
    whether [uv]/[uvx] and [bun] are on the host, installs what is missing
    and reports progress to the renderer) together with the shared types of
    [@shared/config/types] it uses and the [t] lookup of [utils/locale].

    Conventions of the embedding.
    - A JavaScript string is a [string]; one [ascii] stands for one UTF-16
      code unit, so [String.length] is [text.length].  Only code units
      below 256 are representable.
    - The service object is a [World]: its two fields [state] and
      [running], the list of IPC messages handed to [emit] (oldest first)
      and the number of [Date.now()] readings taken so far.
    - A synchronous method is a state transformer [M]; an [async] function
      is a resumption [Async] that stops at every [await] of a collaborator
      ([isBinaryExists], [spawnNodeScriptStreaming]).
    - The event loop is a [Runtime]: the world plus the runs that are
      suspended at an [await].  One [Input] is one event-loop task; the
      promise reactions it queues run before the next task, hence inside
      the same step. *)

From Stdlib Require Import ZArith List String Ascii Bool Arith Lia.
Import ListNotations.
Local Open Scope string_scope.
Local Open Scope list_scope.
Local Open Scope nat_scope.

(** ** JavaScript string and array primitives used by the service *)

Module Js.

(** [text.slice(start)] for [0 <= start]. *)
Fixpoint slice_from (start : nat) (s : string) : string :=
  match start, s with
  | O, _ => s
  | S n, String _ rest => slice_from n rest
  | S _, EmptyString => EmptyString
  end.

(** [arr.slice(-n)]: the start index is [max (length - n) 0]. *)
Definition slice_last {A : Type} (n : nat) (l : list A) : list A :=
  skipn (List.length l - n) l.

(** [s.toLowerCase()] on code units below 256: A-Z and the Latin-1 capitals
    (0xC0-0xDE without the multiplication sign 0xD7) move up by 32. *)
Definition lower_unit (c : ascii) : ascii :=
  let n := nat_of_ascii c in
  if ((65 <=? n) && (n <=? 90)) || ((192 <=? n) && (n <=? 222) && negb (n =? 215))
  then ascii_of_nat (n + 32) else c.

Fixpoint toLowerCase (s : string) : string :=
  match s with
  | EmptyString => EmptyString
  | String c rest => String (lower_unit c) (toLowerCase rest)
  end.

(** [s.includes(needle)]. *)
Fixpoint includes (needle s : string) : bool :=
  String.prefix needle s ||
  match s with
  | EmptyString => false
  | String _ rest => includes needle rest
  end.

(** White space and line terminators stripped by [trim], below 256. *)
Definition is_space (c : ascii) : bool :=
  let n := nat_of_ascii c in
  ((9 <=? n) && (n <=? 13)) || (n =? 32) || (n =? 160).

Fixpoint trimStart (s : string) : string :=
  match s with
  | EmptyString => EmptyString
  | String c rest => if is_space c then trimStart rest else s
  end.

Definition reverse (s : string) : string :=
  string_of_list_ascii (rev (list_ascii_of_string s)).

Definition trim (s : string) : string :=
  reverse (trimStart (reverse (trimStart s))).

Definition LF : ascii := ascii_of_nat 10.
Definition CR : ascii := ascii_of_nat 13.

(** [chunk.split(/\r?\n/)]; [cur] is the piece read so far. *)
Fixpoint split_lines_from (cur : string) (s : string) : list string :=
  match s with
  | EmptyString => [cur]
  | String c rest =>
      if Ascii.eqb c LF then cur :: split_lines_from "" rest
      else if Ascii.eqb c CR then
        match rest with
        | String c' rest' =>
            if Ascii.eqb c' LF then cur :: split_lines_from "" rest'
            else split_lines_from (cur ++ String c "") rest
        | EmptyString => split_lines_from (cur ++ String c "") rest
        end
      else split_lines_from (cur ++ String c "") rest
  end.

Definition split_lines (chunk : string) : list string :=
  split_lines_from "" chunk.

(** Truthiness of a string: [if (msg)]. *)
Definition truthy (s : string) : bool :=
  match s with EmptyString => false | _ => true end.

(** Truthiness of [string | undefined]: [if (error.suggestion)]. *)
Definition truthy_opt (o : option string) : bool :=
  match o with Some s => truthy s | None => false end.

(** [parts.join(sep)]. *)
Definition join (sep : string) (parts : list string) : string :=
  String.concat sep parts.

(** What was thrown: an [Error] with its message, or another value with
    its [String(value)] rendering. *)
Inductive Thrown : Type :=
| ErrorObject (message : string)
| OtherValue (rendered : string).

(** [(err instanceof Error ? err : new Error(String(err))).message]. *)
Definition message_of (err : Thrown) : string :=
  match err with
  | ErrorObject m => m
  | OtherValue r => r
  end.

(** How a promise settles. *)
Inductive Settled (A : Type) : Type :=
| Fulfilled (value : A)
| Rejected (reason : Thrown).
Arguments Fulfilled {A} value.
Arguments Rejected {A} reason.

End Js.
Import Js.

(** ** Shared types ([@shared/config/types]) *)

Module Stage.
Inductive t : Type :=
| idle | start_check | check_uv | check_bun | need_install | no_need_install
| start_install_uv | installing_uv | start_install_bun | installing_bun
| env_ready | failed.

Definition eqb (a b : t) : bool :=
  match a, b with
  | idle, idle | start_check, start_check | check_uv, check_uv
  | check_bun, check_bun | need_install, need_install
  | no_need_install, no_need_install | start_install_uv, start_install_uv
  | installing_uv, installing_uv | start_install_bun, start_install_bun
  | installing_bun, installing_bun | env_ready, env_ready | failed, failed => true
  | _, _ => false
  end.
End Stage.
Abbreviation McpEnvInitStage := Stage.t.

Inductive McpEnvInitLogLevel : Type := info_level | warn_level | error_level.

Inductive LogSource : Type := uv | bun | system.

Module Log.
Record t : Type := mk {
  ts : Z;
  level : McpEnvInitLogLevel;
  message : string;
  source : option LogSource
}.
End Log.
Abbreviation McpEnvInitLog := Log.t.

(** [exitCode?: number | null]: [None] is an absent field, [Some None] is
    [null]. *)
Module Err.
Record t : Type := mk {
  message : string;
  command : option string;
  exitCode : option (option Z);
  stderrTail : option string;
  stdoutTail : option string;
  suggestion : option string
}.
End Err.
Abbreviation McpEnvInitError := Err.t.

Record McpEnvInitState : Type := mkState {
  stage : McpEnvInitStage;
  uvInstalled : bool;
  bunInstalled : bool;
  installing : bool;
  done : bool;
  failed : bool;
  error : option McpEnvInitError;
  logs : list McpEnvInitLog;
  updatedAt : Z
}.

Definition Sender : Type := nat.

Inductive McpEnvInitEvent : Type :=
| EvState (state : McpEnvInitState)
| EvLog (log : McpEnvInitLog)
| EvStage (stage : McpEnvInitStage) (at_ : Z).

(** Field assignments [this.state.f = v]. *)
Definition set_stage (v : McpEnvInitStage) (s : McpEnvInitState) : McpEnvInitState :=
  mkState v (uvInstalled s) (bunInstalled s) (installing s) (done s) (failed s)
          (error s) (logs s) (updatedAt s).
Definition set_uvInstalled (v : bool) (s : McpEnvInitState) : McpEnvInitState :=
  mkState (stage s) v (bunInstalled s) (installing s) (done s) (failed s)
          (error s) (logs s) (updatedAt s).
Definition set_bunInstalled (v : bool) (s : McpEnvInitState) : McpEnvInitState :=
  mkState (stage s) (uvInstalled s) v (installing s) (done s) (failed s)
          (error s) (logs s) (updatedAt s).
Definition set_installing (v : bool) (s : McpEnvInitState) : McpEnvInitState :=
  mkState (stage s) (uvInstalled s) (bunInstalled s) v (done s) (failed s)
          (error s) (logs s) (updatedAt s).
Definition set_done (v : bool) (s : McpEnvInitState) : McpEnvInitState :=
  mkState (stage s) (uvInstalled s) (bunInstalled s) (installing s) v (failed s)
          (error s) (logs s) (updatedAt s).
Definition set_failed (v : bool) (s : McpEnvInitState) : McpEnvInitState :=
  mkState (stage s) (uvInstalled s) (bunInstalled s) (installing s) (done s) v
          (error s) (logs s) (updatedAt s).
Definition set_error (v : option McpEnvInitError) (s : McpEnvInitState) : McpEnvInitState :=
  mkState (stage s) (uvInstalled s) (bunInstalled s) (installing s) (done s) (failed s)
          v (logs s) (updatedAt s).
Definition set_logs (v : list McpEnvInitLog) (s : McpEnvInitState) : McpEnvInitState :=
  mkState (stage s) (uvInstalled s) (bunInstalled s) (installing s) (done s) (failed s)
          (error s) v (updatedAt s).
Definition set_updatedAt (v : Z) (s : McpEnvInitState) : McpEnvInitState :=
  mkState (stage s) (uvInstalled s) (bunInstalled s) (installing s) (done s) (failed s)
          (error s) (logs s) v.

(** ** The host: what the service imports and does not define *)

Record SpawnResult : Type := mkSpawnResult {
  spawn_exitCode : option Z;
  spawn_stderr : string;
  spawn_stdout : string
}.

(** [translations] stands for the descent of [t] through the parsed locale
    table: the string found under a dotted key, if there is one.
    [Date_now n] is the value of the [n]-th call of [Date.now()]. *)
Record Host : Type := mkHost {
  isWin : bool;
  execPath : string;
  getResourcePath : string;
  path_join : list string -> string;
  translations : string -> option string;
  Date_now : nat -> Z
}.

Definition Handle : Type := nat.

Record World : Type := mkWorld {
  state : McpEnvInitState;
  running : option Handle;
  sent : list (Sender * McpEnvInitEvent);
  ticks : nat
}.

(** ** Synchronous code: a state monad over the world *)

Definition M (A : Type) : Type := World -> A * World.

Definition ret {A : Type} (a : A) : M A := fun w => (a, w).

Definition bind {A B : Type} (m : M A) (f : A -> M B) : M B :=
  fun w => let (a, w') := m w in f a w'.

Declare Scope sync_scope.
Delimit Scope sync_scope with sync.
Notation "x <- m ;; k" := (bind m (fun x => k))
  (at level 61, m at next level, right associativity) : sync_scope.
Notation "m ;; k" := (bind m (fun _ => k))
  (at level 61, right associativity) : sync_scope.

Definition get_state : M McpEnvInitState := fun w => (state w, w).

Definition assign (f : McpEnvInitState -> McpEnvInitState) : M unit :=
  fun w => (tt, mkWorld (f (state w)) (running w) (sent w) (ticks w)).

Definition set_running (r : option Handle) : M unit :=
  fun w => (tt, mkWorld (state w) r (sent w) (ticks w)).

Definition when (b : bool) (m : M unit) : M unit :=
  if b then m else ret tt.

Fixpoint for_each {A : Type} (l : list A) (body : A -> M unit) : M unit :=
  match l with
  | [] => ret tt
  | x :: rest => bind (body x) (fun _ => for_each rest body)
  end.

(** ** Asynchronous code: resumptions that stop at an [await] *)

Inductive Stream : Type := stdout | stderr.

Record SpawnOptions : Type := mkSpawnOptions {
  onStdoutChunk : string -> M unit;
  onStderrChunk : string -> M unit
}.

Definition on_chunk (options : SpawnOptions) (stream : Stream) : string -> M unit :=
  match stream with
  | stdout => onStdoutChunk options
  | stderr => onStderrChunk options
  end.

(** The awaited collaborators of [@main/utils/process], indexed by what the
    [await] hands back.

    Modelled from the spec: [isBinaryExists] is not part of these sources;
    the probe "must not throw", so its promise is fulfilled with a boolean.
    [spawnNodeScriptStreaming] may fulfil with the exit code and the whole
    captured output, or reject when the process cannot be started. *)
Inductive Call : Type -> Type :=
| isBinaryExists (name : string) : Call bool
| spawnNodeScriptStreaming (script : string) (options : SpawnOptions)
    : Call (Settled SpawnResult).

Inductive Async (A : Type) : Type :=
| Return (a : A)
| Throw (err : Thrown)
| Sync {X : Type} (m : M X) (k : X -> Async A)
| Await {X : Type} (c : Call X) (k : X -> Async A).
Arguments Return {A} a.
Arguments Throw {A} err.
Arguments Sync {A X} m k.
Arguments Await {A X} c k.

Fixpoint abind {A B : Type} (p : Async A) (f : A -> Async B) : Async B :=
  match p with
  | Return a => f a
  | Throw e => Throw e
  | Sync m k => Sync m (fun x => abind (k x) f)
  | Await c k => Await c (fun x => abind (k x) f)
  end.

(** [try { body } catch (error) { handler }]. *)
Fixpoint try_catch {A : Type} (body : Async A) (handler : Thrown -> Async A) : Async A :=
  match body with
  | Return a => Return a
  | Throw e => handler e
  | Sync m k => Sync m (fun x => try_catch (k x) handler)
  | Await c k => Await c (fun x => try_catch (k x) handler)
  end.

Definition sync {A : Type} (m : M A) : Async A := Sync m Return.

Definition await_probe (c : Call bool) : Async bool := Await c Return.

Definition await_spawn (c : Call (Settled SpawnResult)) : Async SpawnResult :=
  Await c (fun r => match r with
                    | Fulfilled v => Return v
                    | Rejected e => Throw e
                    end).

Declare Scope async_scope.
Delimit Scope async_scope with async.
Notation "x <- p ;; k" := (abind p (fun x => k))
  (at level 61, p at next level, right associativity) : async_scope.
Notation "p ;; k" := (abind p (fun _ => k))
  (at level 61, right associativity) : async_scope.

(** [(await a) || (await b)]: [b] is only awaited when [a] gave false. *)
Definition or_await (a b : Async bool) : Async bool :=
  (x <- a ;; if x then Return true else b)%async.

(** One synchronous stretch: run [p] up to its next [await] or its end. *)
Inductive Paused (A : Type) : Type :=
| Concluded (r : Settled A)
| Awaiting {X : Type} (c : Call X) (k : X -> Async A).
Arguments Concluded {A} r.
Arguments Awaiting {A X} c k.

Fixpoint exec {A : Type} (p : Async A) (w : World) : Paused A * World :=
  match p with
  | Return a => (Concluded (Fulfilled a), w)
  | Throw e => (Concluded (Rejected e), w)
  | Sync m k => let (x, w') := m w in exec (k x) w'
  | Await c k => (Awaiting c k, w)
  end.

(** [promise.catch(onRejected)] and [promise.finally(onFinally)], as the
    reactions run once the promise has settled as [r]. *)
Definition promise_catch {A : Type} (r : Settled A) (onRejected : Thrown -> M A)
  : M (Settled A) :=
  match r with
  | Fulfilled v => ret (Fulfilled v)
  | Rejected e => bind (onRejected e) (fun v => ret (Fulfilled v))
  end.

Definition promise_finally {A : Type} (r : Settled A) (onFinally : M unit)
  : M (Settled A) :=
  bind onFinally (fun _ => ret r).

(** ** The service *)

Section Service.
Variable host : Host.

Definition MAX_LOGS : nat := 500.
Definition TAIL_MAX : nat := 4000.

(** [tailText(text, max = TAIL_MAX)]. *)
Definition tailText (text : string) (max : nat) : string :=
  if negb (truthy text) then ""
  else if max <? String.length text
       then slice_from (String.length text - max) text
       else text.

(** [t(key)] of [utils/locale], always called without options here: the
    translation when the table has a string under [key], the key itself
    otherwise. *)
Definition t (key : string) : string :=
  match translations host key with
  | Some value => value
  | None => key
  end.

Definition summarizeFailure (stderr_text stdout_text : string) : option string :=
  let s := toLowerCase (stderr_text ++ String LF "" ++ stdout_text) in
  if includes "enotfound" s || includes "econnrefused" s || includes "etimedout" s
     || includes "timed out" s || includes "network is unreachable" s
     || includes "could not resolve" s
  then Some (t "mcp.envInit.errorSummary.networkIssue")
  else if includes "certificate" s || includes "self signed" s
          || includes "unable to get local issuer" s
  then Some (t "mcp.envInit.errorSummary.certificateIssue")
  else if includes "eacces" s || includes "eperm" s || includes "permission denied" s
          || includes "access is denied" s
  then Some (if isWin host
             then t "mcp.envInit.errorSummary.permissionWindows"
             else t "mcp.envInit.errorSummary.permissionUnix")
  else None.

Definition now : M Z :=
  fun w => (Date_now host (ticks w),
            mkWorld (state w) (running w) (sent w) (S (ticks w))).

(** [defaultState()] with the clock reading it takes. *)
Definition defaultState (at_ : Z) : McpEnvInitState :=
  mkState Stage.idle false false false false false None [] at_.

(** The exported instance right after [new McpEnvInitService()]. *)
Definition mcpEnvInitService : World :=
  mkWorld (defaultState (Date_now host 0)) None [] 1.

Definition getState (w : World) : McpEnvInitState := state w.

(** [emit]: the [send] is wrapped in [try]/[catch], a failed delivery is
    only logged; the world records the event handed over. *)
Definition emit (sender : Sender) (event : McpEnvInitEvent) : M unit :=
  fun w => (tt, mkWorld (state w) (running w) (sent w ++ [(sender, event)]) (ticks w)).

Definition pushLog (sender : Sender) (level : McpEnvInitLogLevel) (message : string)
  (source : option LogSource) : M unit :=
  (ts <- now ;;
   let logEntry := Log.mk ts level message source in
   assign (fun s => set_logs (slice_last MAX_LOGS (logs s ++ [logEntry])) s) ;;
   u <- now ;;
   assign (set_updatedAt u) ;;
   emit sender (EvLog logEntry) ;;
   st <- get_state ;;
   emit sender (EvState st))%sync.

Definition info (sender : Sender) (message : string) (source : option LogSource) : M unit :=
  pushLog sender info_level message source.

Definition warn (sender : Sender) (message : string) (source : option LogSource) : M unit :=
  pushLog sender warn_level message source.

(** The private method [error]; the name [error] is the state's field. *)
Definition error_ (sender : Sender) (message : string) (source : option LogSource) : M unit :=
  pushLog sender error_level message source.

Definition setStage (sender : Sender) (stage : McpEnvInitStage) : M unit :=
  (assign (set_stage stage) ;;
   u <- now ;;
   assign (set_updatedAt u) ;;
   st <- get_state ;;
   emit sender (EvStage stage (updatedAt st)) ;;
   st' <- get_state ;;
   emit sender (EvState st'))%sync.

Definition fail (sender : Sender) (error : McpEnvInitError) : M unit :=
  (assign (set_failed true) ;;
   assign (set_done true) ;;
   assign (set_installing false) ;;
   assign (set_error (Some error)) ;;
   assign (set_stage Stage.failed) ;;
   u <- now ;;
   assign (set_updatedAt u) ;;
   st <- get_state ;;
   emit sender (EvState st) ;;
   error_ sender (t "mcp.envInit.messages.initFailed" ++ Err.message error) (Some system) ;;
   match Err.suggestion error with
   | Some suggestion =>
       when (truthy suggestion)
         (warn sender (t "mcp.envInit.errors.suggestion" ++ suggestion) (Some system))
   | None => ret tt
   end)%sync.

(** [exitCode !== 0], where [null] is [None]. *)
Definition exit_nonzero (exitCode : option Z) : bool :=
  match exitCode with
  | Some z => negb (z =? 0)%Z
  | None => true
  end.

(** The chunk callbacks: every non-blank trimmed line becomes a log. *)
Definition log_lines (log : string -> M unit) (chunk : string) : M unit :=
  for_each (split_lines chunk)
    (fun line => let msg := trim line in when (truthy msg) (log msg)).

Definition installUv (sender : Sender) : Async unit :=
  (sync (setStage sender Stage.start_install_uv) ;;
   sync (warn sender (t "mcp.envInit.messages.startInstallUv") (Some uv)) ;;
   let script := path_join host [getResourcePath host; "scripts"; "install-uv.js"] in
   let command := (execPath host ++ " " ++ script)%string in
   sync (setStage sender Stage.installing_uv) ;;
   try_catch
     (r <- await_spawn (spawnNodeScriptStreaming script
            (mkSpawnOptions
               (log_lines (fun msg => info sender msg (Some uv)))
               (log_lines (fun msg => warn sender msg (Some uv))))) ;;
      (if exit_nonzero (spawn_exitCode r) then
         sync (fail sender
                 (Err.mk (t "mcp.envInit.messages.uvInstallFailed")
                         (Some command)
                         (Some (spawn_exitCode r))
                         (Some (tailText (spawn_stderr r) TAIL_MAX))
                         (Some (tailText (spawn_stdout r) TAIL_MAX))
                         (summarizeFailure (spawn_stderr r) (spawn_stdout r)))) ;;
         Throw (ErrorObject "uv install failed")
       else Return tt) ;;
      sync (info sender (t "mcp.envInit.messages.uvInstallScriptCompleted") (Some uv)))
     (fun error =>
        st <- sync get_state ;;
        (if negb (failed st) then
           sync (fail sender
                   (Err.mk (t "mcp.envInit.messages.uvInstallException" ++ message_of error)
                           (Some command) None None None
                           (Some (if isWin host
                                  then t "mcp.envInit.messages.checkPowerShellFirewall"
                                  else t "mcp.envInit.messages.checkNetworkProxy"))))
         else Return tt) ;;
        Throw error))%async.

(** [a || b] on [string | undefined]. *)
Definition or_string (a : option string) (b : string) : string :=
  match a with
  | Some s => if truthy s then s else b
  | None => b
  end.

Definition installBun (sender : Sender) : Async unit :=
  (sync (setStage sender Stage.start_install_bun) ;;
   sync (warn sender (t "mcp.envInit.messages.startInstallBun") (Some bun)) ;;
   let script := path_join host [getResourcePath host; "scripts"; "install-bun.js"] in
   let command := (execPath host ++ " " ++ script)%string in
   sync (setStage sender Stage.installing_bun) ;;
   try_catch
     (r <- await_spawn (spawnNodeScriptStreaming script
            (mkSpawnOptions
               (log_lines (fun msg => info sender msg (Some bun)))
               (log_lines (fun msg => warn sender msg (Some bun))))) ;;
      (if exit_nonzero (spawn_exitCode r) then
         sync (fail sender
                 (Err.mk (t "mcp.envInit.messages.bunInstallFailed")
                         (Some command)
                         (Some (spawn_exitCode r))
                         (Some (tailText (spawn_stderr r) TAIL_MAX))
                         (Some (tailText (spawn_stdout r) TAIL_MAX))
                         (summarizeFailure (spawn_stderr r) (spawn_stdout r)))) ;;
         Throw (ErrorObject "bun install failed")
       else Return tt) ;;
      sync (info sender (t "mcp.envInit.messages.bunInstallScriptCompleted") (Some bun)))
     (fun error =>
        st <- sync get_state ;;
        (if negb (failed st) then
           sync (fail sender
                   (Err.mk (t "mcp.envInit.messages.bunInstallException" ++ message_of error)
                           (Some command) None None None
                           (Some (or_string (summarizeFailure "" (message_of error))
                                    (t "mcp.envInit.messages.checkNetworkPermissionCert")))))
         else Return tt) ;;
        Throw error))%async.

(** [[needUv ? 'uv' : null, needBun ? 'bun' : null].filter(Boolean)]. *)
Definition missing_tools (needUv needBun : bool) : list string :=
  (if needUv then ["uv"] else []) ++ (if needBun then ["bun"] else []).

Definition run (sender : Sender) : Async McpEnvInitState :=
  ((* 1) check uv/uvx *)
   sync (setStage sender Stage.check_uv) ;;
   sync (info sender (t "mcp.envInit.messages.checkingUv") (Some uv)) ;;
   uvOk <- or_await (await_probe (isBinaryExists "uvx")) (await_probe (isBinaryExists "uv")) ;;
   sync (assign (set_uvInstalled uvOk)) ;;
   st <- sync get_state ;;
   sync (emit sender (EvState st)) ;;
   sync (info sender (if uvOk then t "mcp.envInit.messages.uvInstalled"
                      else t "mcp.envInit.messages.uvNotInstalled") (Some uv)) ;;
   (* 2) check bun *)
   sync (setStage sender Stage.check_bun) ;;
   sync (info sender (t "mcp.envInit.messages.checkingBun") (Some bun)) ;;
   bunOk <- await_probe (isBinaryExists "bun") ;;
   sync (assign (set_bunInstalled bunOk)) ;;
   st <- sync get_state ;;
   sync (emit sender (EvState st)) ;;
   sync (info sender (if bunOk then t "mcp.envInit.messages.bunInstalled"
                      else t "mcp.envInit.messages.bunNotInstalled") (Some bun)) ;;
   let needUv := negb uvOk in
   let needBun := negb bunOk in
   if negb needUv && negb needBun then
     sync (setStage sender Stage.no_need_install) ;;
     sync (info sender (t "mcp.envInit.messages.noNeedInstall") (Some system)) ;;
     sync (setStage sender Stage.env_ready) ;;
     sync (assign (set_done true)) ;;
     sync (assign (set_installing false)) ;;
     sync (assign (set_failed false)) ;;
     st <- sync get_state ;;
     sync (emit sender (EvState st)) ;;
     sync get_state
   else
     sync (setStage sender Stage.need_install) ;;
     sync (warn sender (t "mcp.envInit.messages.needInstall"
                        ++ join ", " (missing_tools needUv needBun)) (Some system)) ;;
     (* 3) install uv then bun (sequential) *)
     sync (assign (set_installing true)) ;;
     st <- sync get_state ;;
     sync (emit sender (EvState st)) ;;
     (if needUv then installUv sender else Return tt) ;;
     (if needBun then installBun sender else Return tt) ;;
     (* 4) re-check *)
     sync (setStage sender Stage.start_check) ;;
     sync (info sender (t "mcp.envInit.messages.recheckAfterInstall") (Some system)) ;;
     uvOk2 <- or_await (await_probe (isBinaryExists "uvx")) (await_probe (isBinaryExists "uv")) ;;
     bunOk2 <- await_probe (isBinaryExists "bun") ;;
     sync (assign (set_uvInstalled uvOk2)) ;;
     sync (assign (set_bunInstalled bunOk2)) ;;
     if negb uvOk2 || negb bunOk2 then
       sync (fail sender
               (Err.mk (t "mcp.envInit.messages.installScriptCompletedButRecheckFailed")
                       None None None None
                       (Some (t "mcp.envInit.messages.checkSecuritySoftware")))) ;;
       sync get_state
     else
       sync (setStage sender Stage.env_ready) ;;
       sync (assign (set_done true)) ;;
       sync (assign (set_failed false)) ;;
       sync (assign (set_installing false)) ;;
       u <- sync now ;;
       sync (assign (set_updatedAt u)) ;;
       st <- sync get_state ;;
       sync (emit sender (EvState st)) ;;
       sync (info sender (t "mcp.envInit.messages.initComplete") (Some system)) ;;
       sync get_state)%async.

(** The two reactions chained on [this.run(sender)] in [start]. *)
Definition onRunRejected (sender : Sender) (err : Thrown) : M McpEnvInitState :=
  (fail sender (Err.mk (message_of err) None None None None None) ;;
   get_state)%sync.

Definition settle (sender : Sender) (r : Settled McpEnvInitState)
  : M (Settled McpEnvInitState) :=
  (r' <- promise_catch r (onRunRejected sender) ;;
   promise_finally r' (set_running None))%sync.

(** ** The event loop around the service *)

(** A run of [run] that is waiting for a collaborator. *)
Record Task : Type := mkTask {
  task_handle : Handle;
  task_sender : Sender;
  task_paused : Paused McpEnvInitState
}.

Record Runtime : Type := mkRuntime {
  world : World;
  pending : list Task;
  settled : list (Handle * Settled McpEnvInitState);
  next_handle : Handle
}.

Definition boot : Runtime := mkRuntime mcpEnvInitService [] [] 0.

(** After a synchronous stretch of run [h]: either it waits again, or it is
    over and the reactions of [start] run. *)
Definition after_stretch (h : Handle) (sender : Sender)
  (p : Paused McpEnvInitState) (w : World) (others : list Task)
  (done_so_far : list (Handle * Settled McpEnvInitState)) (next : Handle) : Runtime :=
  match p with
  | Concluded r =>
      let (r', w') := settle sender r w in
      mkRuntime w' others (done_so_far ++ [(h, r')]) next
  | Awaiting _ _ =>
      mkRuntime w (others ++ [mkTask h sender p]) done_so_far next
  end.

(** What [start] hands back: the state itself, or the in-flight promise. *)
Inductive StartResult : Type :=
| ReturnsState (st : McpEnvInitState)
| ReturnsRunning (h : Handle).

Definition alreadyReady (s : McpEnvInitState) : bool :=
  done s && negb (failed s) && uvInstalled s && bunInstalled s.

(** [reset transient flags but keep logs for context]. *)
Definition resetTransient : M unit :=
  (u <- now ;;
   assign (fun s => mkState (stage s) (uvInstalled s) (bunInstalled s)
                            false false false None (logs s) u))%sync.

(** The third branch of [start] up to [return this.running]: the reset, the
    first stretch of [this.run(sender)], the assignment of [this.running],
    and the reactions if the run is already over. *)
Definition begin_run (h : Handle) (sender : Sender) (rt : Runtime) : Runtime :=
  let (_, w1) :=
    (resetTransient ;;
     setStage sender Stage.start_check ;;
     info sender (t "mcp.envInit.messages.startCheck") (Some system))%sync (world rt) in
  let (p, w2) := exec (run sender) w1 in
  let (_, w3) := set_running (Some h) w2 in
  after_stretch h sender p w3 (pending rt) (settled rt) (S h).

Definition start (sender : Sender) (rt : Runtime) : StartResult * Runtime :=
  let w := world rt in
  if alreadyReady (state w) then
    let (_, w1) := emit sender (EvState (state w)) w in
    (ReturnsState (state w1), mkRuntime w1 (pending rt) (settled rt) (next_handle rt))
  else
    match running w with
    | Some h =>
        let (_, w1) := emit sender (EvState (state w)) w in
        (ReturnsRunning h, mkRuntime w1 (pending rt) (settled rt) (next_handle rt))
    | None =>
        let h := next_handle rt in
        (ReturnsRunning h, begin_run h sender rt)
    end.

(** What the outside world does to the process, one event-loop task each. *)
Inductive Input : Type :=
| StartCalled (sender : Sender)
| ProbeSettled (h : Handle) (found : bool)
| SpawnChunk (h : Handle) (stream : Stream) (chunk : string)
| SpawnSettled (h : Handle) (r : Settled SpawnResult).

Fixpoint take_task (h : Handle) (tasks : list Task) : option (Task * list Task) :=
  match tasks with
  | [] => None
  | tk :: rest =>
      if task_handle tk =? h then Some (tk, rest)
      else match take_task h rest with
           | Some (found, others) => Some (found, tk :: others)
           | None => None
           end
  end.

Definition resume_probe (found : bool) (p : Paused McpEnvInitState)
  : option (Async McpEnvInitState) :=
  match p with
  | Concluded _ => None
  | Awaiting c k =>
      match c in Call X return (X -> Async McpEnvInitState) -> option (Async McpEnvInitState) with
      | isBinaryExists _ => fun k' => Some (k' found)
      | spawnNodeScriptStreaming _ _ => fun _ => None
      end k
  end.

Definition resume_spawn (r : Settled SpawnResult) (p : Paused McpEnvInitState)
  : option (Async McpEnvInitState) :=
  match p with
  | Concluded _ => None
  | Awaiting c k =>
      match c in Call X return (X -> Async McpEnvInitState) -> option (Async McpEnvInitState) with
      | isBinaryExists _ => fun _ => None
      | spawnNodeScriptStreaming _ _ => fun k' => Some (k' r)
      end k
  end.

Definition chunk_callback (stream : Stream) (chunk : string) (p : Paused McpEnvInitState)
  : option (M unit) :=
  match p with
  | Concluded _ => None
  | Awaiting c _ =>
      match c with
      | isBinaryExists _ => None
      | spawnNodeScriptStreaming _ options => Some (on_chunk options stream chunk)
      end
  end.

Definition continue_task (tk : Task) (others : list Task) (next : option (Async McpEnvInitState))
  (rt : Runtime) : Runtime :=
  match next with
  | Some p =>
      let (p', w') := exec p (world rt) in
      after_stretch (task_handle tk) (task_sender tk) p' w' others (settled rt) (next_handle rt)
  | None => rt
  end.

Definition step (i : Input) (rt : Runtime) : Runtime :=
  match i with
  | StartCalled sender => snd (start sender rt)
  | ProbeSettled h found =>
      match take_task h (pending rt) with
      | Some (tk, others) => continue_task tk others (resume_probe found (task_paused tk)) rt
      | None => rt
      end
  | SpawnSettled h r =>
      match take_task h (pending rt) with
      | Some (tk, others) => continue_task tk others (resume_spawn r (task_paused tk)) rt
      | None => rt
      end
  | SpawnChunk h stream chunk =>
      match take_task h (pending rt) with
      | Some (tk, _) =>
          match chunk_callback stream chunk (task_paused tk) with
          | Some callback =>
              mkRuntime (snd (callback (world rt))) (pending rt) (settled rt) (next_handle rt)
          | None => rt
          end
      | None => rt
      end
  end.

Definition steps (inputs : list Input) (rt : Runtime) : Runtime :=
  fold_left (fun r i => step i r) inputs rt.

(** ** One caller, one run: the collaborators answer as an oracle says *)

(** What the collaborators answer when they are asked after [n] readings of
    the clock: a probe a boolean, a spawn the chunks it streams and how it
    settles.  Two awaits of one run never ask the same question at the
    same reading, so every sequence of answers is some oracle. *)
Record Oracle : Type := mkOracle {
  probe_answer : nat -> string -> bool;
  spawn_answer : nat -> string -> list (Stream * string) * Settled SpawnResult
}.

Definition deliver_chunks (options : SpawnOptions) (chunks : list (Stream * string))
  : M unit :=
  for_each chunks (fun ch => on_chunk options (fst ch) (snd ch)).

Definition answer (o : Oracle) {X : Type} (c : Call X) (w : World) : X * World :=
  match c in Call X return X * World with
  | isBinaryExists name => (probe_answer o (ticks w) name, w)
  | spawnNodeScriptStreaming script options =>
      (snd (spawn_answer o (ticks w) script),
       snd (deliver_chunks options (fst (spawn_answer o (ticks w) script)) w))
  end.

Fixpoint drive {A : Type} (o : Oracle) (p : Async A) (w : World) : Settled A * World :=
  match p with
  | Return a => (Fulfilled a, w)
  | Throw e => (Rejected e, w)
  | Sync m k => let (x, w') := m w in drive o (k x) w'
  | Await c k => let (x, w') := answer o c w in drive o (k x) w'
  end.

Definition drive_paused {A : Type} (o : Oracle) (p : Paused A) (w : World)
  : Settled A * World :=
  match p with
  | Concluded r => (r, w)
  | Awaiting c k => let (x, w') := answer o c w in drive o (k x) w'
  end.

(** The third branch of [start] with nobody else calling: launch the run as
    promise [h], let the oracle answer every [await], run the reactions. *)
Definition launch (o : Oracle) (h : Handle) (sender : Sender) (w : World)
  : Settled McpEnvInitState * World :=
  let (_, w1) :=
    (resetTransient ;;
     setStage sender Stage.start_check ;;
     info sender (t "mcp.envInit.messages.startCheck") (Some system))%sync w in
  let (p, w2) := exec (run sender) w1 in
  let (_, w3) := set_running (Some h) w2 in
  let (r, w4) := drive_paused o p w3 in
  settle sender r w4.

End Service.

(** ** Specification predicates *)

(** [done => (failed XOR (uvInstalled /\ bunInstalled))],
    [installing => ~done], and [error] present iff [failed]. *)
Definition state_invariant (s : McpEnvInitState) : bool :=
  implb (done s) (xorb (failed s) (uvInstalled s && bunInstalled s))
  && implb (installing s) (negb (done s))
  && Bool.eqb (match error s with Some _ => true | None => false end) (failed s).

(** A well-formed stream of events: every snapshot satisfies the state
    invariant; every [stage] event is for a stage other than [failed] and
    is directly followed, for the same receiver, by the snapshot of that
    stage taken at that time. *)
Fixpoint wellformed (tr : list (Sender * McpEnvInitEvent)) : bool :=
  match tr with
  | [] => true
  | (sd, ev) :: rest =>
      match ev with
      | EvState s => state_invariant s
      | EvLog _ => true
      | EvStage x a =>
          negb (Stage.eqb x Stage.failed)
          && match rest with
             | (sd', EvState s) :: _ =>
                 (sd =? sd') && Stage.eqb (stage s) x && (a =? updatedAt s)%Z
             | _ => false
             end
      end && wellformed rest
  end.

(** Everything of a state but its logs and its time stamp. *)
Definition flags_of (s : McpEnvInitState) :=
  (stage s, uvInstalled s, bunInstalled s, installing s, done s, failed s, error s).

(** What may have happened to the world while a run was suspended: logs of
    streamed output and snapshots for other callers, nothing else. *)
Definition rely (w w' : World) : Prop :=
  flags_of (state w') = flags_of (state w) /\ wellformed (sent w') = true.

(** What holds whenever a run is suspended. *)
Definition obs (w : World) : Prop :=
  wellformed (sent w) = true /\ state_invariant (state w) = true
  /\ done (state w) = false.

(** What holds when [run] is over, before the reactions of [start]. *)
Definition post (r : Settled McpEnvInitState) (w : World) : Prop :=
  wellformed (sent w) = true /\ state_invariant (state w) = true
  /\ done (state w) = true
  /\ match r with
     | Fulfilled st => st = state w
     | Rejected _ => failed (state w) = true
     end.

(** A callback that only appends logs. *)
Definition quiet (m : M unit) : Prop :=
  forall w, let w' := snd (m w) in
    flags_of (state w') = flags_of (state w)
    /\ running w' = running w
    /\ (state_invariant (state w) = true -> wellformed (sent w) = true ->
        wellformed (sent w') = true).

Definition chunk_ok {X : Type} (c : Call X) : Prop :=
  match c with
  | isBinaryExists _ => True
  | spawnNodeScriptStreaming _ options =>
      forall chunk, quiet (onStdoutChunk options chunk) /\ quiet (onStderrChunk options chunk)
  end.

(** [safe_with O R C Q p w]: running [p] from [w], whatever the
    collaborators answer and whatever happens meanwhile within [R], never
    touches [running], is suspended only in worlds satisfying [O] with
    callbacks satisfying [C], and ends as [Q] says. *)
Section Safety.
Variable O : World -> Prop.
Variable R : World -> World -> Prop.
Variable C : forall X : Type, Call X -> Prop.

Fixpoint safe_with {A : Type} (Q : Settled A -> World -> Prop) (p : Async A) (w : World)
  : Prop :=
  match p with
  | Return a => Q (Fulfilled a) w
  | Throw e => Q (Rejected e) w
  | Sync m k => running (snd (m w)) = running w /\ safe_with Q (k (fst (m w))) (snd (m w))
  | Await c k =>
      O w /\ C _ c /\ forall w', R w w' -> forall x, safe_with Q (k x) w'
  end.
End Safety.

Abbreviation safe_run := (safe_with obs rely (@chunk_ok)).

Definition safe (p : Async McpEnvInitState) (w : World) : Prop := safe_run post p w.

(** After an installer: the flags are those before it, at its
    [installing-*] stage, or the run has failed. *)
Definition installed (x : McpEnvInitStage) (uvI bunI : bool)
  (Q : Settled unit -> World -> Prop) : Prop :=
  (forall w', flags_of (state w') = (x, uvI, bunI, true, false, false, None) ->
              wellformed (sent w') = true -> Q (Fulfilled tt) w')
  /\ (forall e w', post (Rejected e) w' -> Q (Rejected e) w').

Definition suspended_ok (p : Paused McpEnvInitState) (w : World) : Prop :=
  match p with
  | Concluded _ => False
  | Awaiting c k => chunk_ok c /\ forall w', rely w w' -> forall x, safe (k x) w'
  end.

Definition fulfilled {A : Type} (r : Settled A) : bool :=
  match r with Fulfilled _ => true | Rejected _ => false end.

(** The invariant of the event loop. *)
Definition runtime_ok (rt : Runtime) : Prop :=
  wellformed (sent (world rt)) = true
  /\ state_invariant (state (world rt)) = true
  /\ forallb (fun e => fulfilled (snd e)) (settled rt) = true
  /\ match pending rt with
     | [] => running (world rt) = None
     | [tk] =>
         running (world rt) = Some (task_handle tk)
         /\ done (state (world rt)) = false
         /\ suspended_ok (task_paused tk) (world rt)
     | _ => False
     end.

(** The state invariant, spelled out. *)
Definition StateInvariant (s : McpEnvInitState) : Prop :=
  (done s = true ->
   (failed s = true <-> ~ (uvInstalled s = true /\ bunInstalled s = true)))
  /\ (installing s = true -> done s = false)
  /\ (error s <> None <-> failed s = true).

(** ** Concrete hosts *)

(** A host whose locale table could not be loaded, so that [t] hands back
    the key, and whose clock advances by one at every reading. *)
Definition posix_host : Host :=
  mkHost false "/usr/bin/node" "/app/resources" (String.concat "/")
         (fun _ => None) Z.of_nat.

Definition windows_host : Host :=
  mkHost true "C:\node.exe" "C:\app\resources" (String.concat "\")
         (fun _ => None) Z.of_nat.

(** ** Concrete scenarios *)

(** Caller 7 starts; [uvx] and [bun] are found. *)
Definition both_present : list Input :=
  [StartCalled 7; ProbeSettled 0 true; ProbeSettled 0 true].

(** Caller 7 starts; neither [uvx] nor [uv] is found, [bun] is; the uv
    installer exits with code 1. *)
Definition uv_install_exits_1 : list Input :=
  [StartCalled 7; ProbeSettled 0 false; ProbeSettled 0 false; ProbeSettled 0 true;
   SpawnSettled 0 (Fulfilled (mkSpawnResult (Some 1%Z) "curl: (7) failed" "downloading uv"))].

Definition is_stage_event (x : McpEnvInitStage) (e : Sender * McpEnvInitEvent) : bool :=
  match snd e with
  | EvStage y _ => Stage.eqb x y
  | _ => false
  end.

Definition is_snapshot_at (x : McpEnvInitStage) (e : Sender * McpEnvInitEvent) : bool :=
  match snd e with
  | EvState s => Stage.eqb x (stage s)
  | _ => false
  end.

(** What one call of [pushLog] is given. *)
Definition LogItem : Type := McpEnvInitLogLevel * string * option LogSource.

Definition pushLogs (host : Host) (sender : Sender) (items : list LogItem) : M unit :=
  for_each items (fun it => pushLog host sender (fst (fst it)) (snd (fst it)) (snd it)).

(** The entries that successive calls of [pushLog] create when the first
    one starts after [n] readings of the clock: each call reads it twice. *)
Fixpoint entries_from (host : Host) (n : nat) (items : list LogItem) : list McpEnvInitLog :=
  match items with
  | [] => []
  | it :: rest =>
      Log.mk (Date_now host n) (fst (fst it)) (snd (fst it)) (snd it)
      :: entries_from host (S (S n)) rest
  end.

Definition numbered_items (n : nat) : list LogItem :=
  map (fun i => (info_level, String (ascii_of_nat i) "", Some system)) (seq 0 n).

(** The snapshots of an event stream, oldest first. *)
Definition snapshots (tr : list (Sender * McpEnvInitEvent)) : list McpEnvInitState :=
  flat_map (fun e => match snd e with EvState s => [s] | _ => [] end) tr.

(** The failure detail of the first snapshot that shows [failed]. *)
Definition first_failure (tr : list (Sender * McpEnvInitEvent)) : option McpEnvInitError :=
  match find failed (snapshots tr) with
  | Some s => error s
  | None => None
  end.

(** Two snapshots in a row that differ in [uvInstalled] and agree on
    [updatedAt]. *)
Fixpoint stale_stamp (ss : list McpEnvInitState) : bool :=
  match ss with
  | s1 :: (s2 :: _) as rest =>
      (negb (Bool.eqb (uvInstalled s1) (uvInstalled s2))
       && (updatedAt s1 =? updatedAt s2)%Z)
      || stale_stamp rest
  | _ => false
  end.

(** Caller 7 starts; [uvx] is found. *)
Definition uvx_found : list Input := [StartCalled 7; ProbeSettled 0 true].

(** An oracle under which no process can be started: every spawn rejects
    with [e] before streaming anything; every probe answers [found]. *)
Definition spawn_fails (found : bool) (e : Thrown) : Oracle :=
  mkOracle (fun _ _ => found) (fun _ _ => ([], Rejected e)).

(** The command line of an installer script. *)
Definition command_of (host : Host) (file : string) : string :=
  (execPath host ++ " " ++ path_join host [getResourcePath host; "scripts"; file])%string.

(** Caller 7 starts and is waiting for the first probe. *)
Definition just_started : list Input := [StartCalled 7].

(** ** The events of one run *)

(** No snapshot shows [done]. *)
Definition undone (evs : list (Sender * McpEnvInitEvent)) : bool :=
  forallb (fun e => match snd e with EvState s => negb (done s) | _ => true end) evs.

(** Some [stage] event is for stage [x]. *)
Definition announced (x : McpEnvInitStage) (evs : list (Sender * McpEnvInitEvent)) : bool :=
  existsb (is_stage_event x) evs.

(** The events of a run that is not over and has not taken the
    no-need-install path. *)
Definition underway (evs : list (Sender * McpEnvInitEvent)) : Prop :=
  undone evs = true /\ announced Stage.no_need_install evs = false.

(** The events of a finished run, read from the oldest: there is a first
    snapshot showing [done], for the caller; when the run went through
    [no-need-install] ([seen]) nothing follows it, otherwise a log and a
    snapshot for the caller follow it directly. *)
Fixpoint terminal_shape (sender : Sender) (seen : bool)
  (evs : list (Sender * McpEnvInitEvent)) : Prop :=
  match evs with
  | [] => False
  | (sd, EvState s) :: rest =>
      if done s then
        sd = sender
        /\ if seen then rest = []
           else match rest with
                | (sd1, EvLog _) :: (sd2, EvState _) :: _ => sd1 = sender /\ sd2 = sender
                | _ => False
                end
      else terminal_shape sender seen rest
  | (_, EvStage x _) :: rest =>
      terminal_shape sender (seen || Stage.eqb Stage.no_need_install x) rest
  | (_, EvLog _) :: rest => terminal_shape sender seen rest
  end.

Section Traced.
Variable base : list (Sender * McpEnvInitEvent).
Variable sender : Sender.

Definition obs_t (w : World) : Prop :=
  done (state w) = false /\ exists evs, sent w = base ++ evs /\ underway evs.

Definition rely_t (w w' : World) : Prop :=
  flags_of (state w') = flags_of (state w)
  /\ exists evs, sent w' = base ++ evs /\ underway evs.

Definition post_t (r : Settled McpEnvInitState) (w : World) : Prop :=
  exists evs, sent w = base ++ evs
              /\ terminal_shape sender false evs
              /\ (fulfilled r = false -> announced Stage.no_need_install evs = false).

Definition installed_t (x : McpEnvInitStage) (uvI bunI : bool)
  (Q : Settled unit -> World -> Prop) : Prop :=
  (forall w', flags_of (state w') = (x, uvI, bunI, true, false, false, None) ->
              (exists evs, sent w' = base ++ evs /\ underway evs) -> Q (Fulfilled tt) w')
  /\ (forall e w', post_t (Rejected e) w' -> Q (Rejected e) w').
End Traced.

(** A callback that, before the run is over, only appends logs and
    snapshots that do not show [done]. *)
Definition calm (m : M unit) : Prop :=
  forall w, done (state w) = false ->
    let w' := snd (m w) in
    flags_of (state w') = flags_of (state w)
    /\ running w' = running w
    /\ exists evs, sent w' = sent w ++ evs
                   /\ undone evs = true /\ forall x, announced x evs = false.

Definition chunk_calm {X : Type} (c : Call X) : Prop :=
  match c with
  | isBinaryExists _ => True
  | spawnNodeScriptStreaming _ options =>
      forall chunk, calm (onStdoutChunk options chunk) /\ calm (onStderrChunk options chunk)
  end.

Abbreviation traced base := (safe_with (obs_t base) (rely_t base) (@chunk_calm)).



(** ** Vocabulary for the further properties *)

(** The substrings [summarizeFailure] looks for, by class. *)
Definition network_markers : list string :=
  ["enotfound"; "econnrefused"; "etimedout"; "timed out"; "network is unreachable";
   "could not resolve"].

Definition certificate_markers : list string :=
  ["certificate"; "self signed"; "unable to get local issuer"].

Definition permission_markers : list string :=
  ["eacces"; "eperm"; "permission denied"; "access is denied"].

(** Some marker of the list occurs in [s]. *)
Definition mentions (markers : list string) (s : string) : bool :=
  existsb (fun m => includes m s) markers.

(** Only white space and line terminators. *)
Definition all_space (s : string) : bool :=
  forallb is_space (list_ascii_of_string s).

(** What the chunk callbacks hand to the logger: the trimmed lines of the
    chunk that are not empty. *)
Definition lines_logged (chunk : string) : list string :=
  filter truthy (map trim (split_lines chunk)).

(** Not empty, and neither the first nor the last code unit is white
    space. *)
Definition trimmed (m : string) : bool :=
  match list_ascii_of_string m with
  | [] => false
  | c :: rest => negb (is_space c) && negb (is_space (last rest c))
  end.

(** A marker that can be looked for on each side of a line break alone: it
    is not empty and holds no line feed. *)
Definition marker_ok (p : string) : bool :=
  truthy p && forallb (fun c => negb (Ascii.eqb c LF)) (list_ascii_of_string p).

(** The suggestion chosen from the classes that were hit. *)
Definition suggestion_for (host : Host) (hit : list string -> bool) : option string :=
  if hit network_markers then Some (t host "mcp.envInit.errorSummary.networkIssue")
  else if hit certificate_markers then Some (t host "mcp.envInit.errorSummary.certificateIssue")
  else if hit permission_markers
  then Some (if isWin host
             then t host "mcp.envInit.errorSummary.permissionWindows"
             else t host "mcp.envInit.errorSummary.permissionUnix")
  else None.

(** [trimStart] on the code units. *)
Fixpoint drop_spaces (l : list ascii) : list ascii :=
  match l with
  | [] => []
  | c :: rest => if is_space c then drop_spaces rest else l
  end.

(** ** The protocol of the event stream *)

(** The stage graph: [allowed a b] when [setStage] may announce [b] while
    the stage is [a]. *)
Definition allowed (a b : McpEnvInitStage) : bool :=
  match a, b with
  | Stage.idle, Stage.start_check
  | Stage.failed, Stage.start_check
  | Stage.start_check, Stage.check_uv
  | Stage.start_check, Stage.env_ready
  | Stage.check_uv, Stage.check_bun
  | Stage.check_bun, Stage.no_need_install
  | Stage.check_bun, Stage.need_install
  | Stage.no_need_install, Stage.env_ready
  | Stage.need_install, Stage.start_install_uv
  | Stage.need_install, Stage.start_install_bun
  | Stage.start_install_uv, Stage.installing_uv
  | Stage.installing_uv, Stage.start_install_bun
  | Stage.installing_uv, Stage.start_check
  | Stage.start_install_bun, Stage.installing_bun
  | Stage.installing_bun, Stage.start_check => true
  | _, _ => false
  end.

(** The stages in which a run can be failed. *)
Definition may_fail (a : McpEnvInitStage) : bool :=
  match a with
  | Stage.installing_uv | Stage.installing_bun | Stage.start_check | Stage.failed => true
  | _ => false
  end.

(** How the flags of a state go with its stage. *)
Definition stage_flags (s : McpEnvInitState) : bool :=
  match stage s with
  | Stage.idle =>
      negb (installing s) && negb (done s) && negb (failed s)
  | Stage.start_check =>
      negb (done s) && negb (failed s)
  | Stage.check_uv | Stage.check_bun =>
      negb (installing s) && negb (done s) && negb (failed s)
  | Stage.no_need_install =>
      negb (installing s) && negb (done s) && negb (failed s)
      && uvInstalled s && bunInstalled s
  | Stage.need_install =>
      negb (done s) && negb (failed s) && negb (uvInstalled s && bunInstalled s)
  | Stage.start_install_uv | Stage.installing_uv =>
      installing s && negb (done s) && negb (failed s) && negb (uvInstalled s)
  | Stage.start_install_bun | Stage.installing_bun =>
      installing s && negb (done s) && negb (failed s) && negb (bunInstalled s)
  | Stage.env_ready =>
      negb (failed s)
      && implb (done s) (negb (installing s) && uvInstalled s && bunInstalled s)
  | Stage.failed =>
      failed s && done s && negb (installing s)
  end.

(** What every snapshot sent satisfies. *)
Definition snapshot_ok (s : McpEnvInitState) : bool :=
  stage_flags s && negb (Stage.eqb (stage s) Stage.idle).

(** The stage named by the latest [stage] event or snapshot, [cur] when
    there is none. *)
Definition latest (cur : McpEnvInitStage) (evs : list (Sender * McpEnvInitEvent))
  : McpEnvInitStage :=
  fold_left (fun c e => match snd e with
                        | EvStage x _ => x
                        | EvState s => stage s
                        | EvLog _ => c
                        end) evs cur.

(** The monitor of the stage protocol, started at stage [cur]: every
    [stage] event follows an edge of the graph; every snapshot is
    [snapshot_ok] and shows the stage the monitor is at, or [failed] when
    a run can be failed there.  The result is the stage reached. *)
Fixpoint track (cur : McpEnvInitStage) (evs : list (Sender * McpEnvInitEvent))
  : option McpEnvInitStage :=
  match evs with
  | [] => Some cur
  | (_, EvStage x _) :: rest => if allowed cur x then track x rest else None
  | (_, EvState s) :: rest =>
      if snapshot_ok s
         && (Stage.eqb (stage s) cur || (Stage.eqb (stage s) Stage.failed && may_fail cur))
      then track (stage s) rest else None
  | (_, EvLog _) :: rest => track cur rest
  end.

(** The newest element of a buffer. *)
Definition newest {A : Type} (l : list A) : option A :=
  match rev l with
  | x :: _ => Some x
  | [] => None
  end.

(** Every [log] event is directly followed, for the same receiver, by a
    snapshot whose newest log is the entry of the event. *)
Fixpoint logs_paired (tr : list (Sender * McpEnvInitEvent)) : Prop :=
  match tr with
  | [] => True
  | (sd, EvLog e) :: rest =>
      match rest with
      | (sd', EvState s) :: _ => sd' = sd /\ newest (logs s) = Some e
      | _ => False
      end /\ logs_paired rest
  | _ :: rest => logs_paired rest
  end.

(** An event stream that does not end in the middle of a pair. *)
Definition rests (tr : list (Sender * McpEnvInitEvent)) : Prop :=
  tr = [] \/ exists pre sd s, tr = pre ++ [(sd, EvState s)].

(** The last event sent is a snapshot of the state as it is. *)
Definition synced (w : World) : Prop :=
  exists pre sd, sent w = pre ++ [(sd, EvState (state w))].

(** Between two runs: nothing was started yet ([idle], not done), or the
    last run failed ([failed], done), or the service is ready
    ([env-ready]). *)
Definition at_rest (s : McpEnvInitState) : bool :=
  match stage s with
  | Stage.idle => negb (done s)
  | Stage.failed => done s && failed s
  | Stage.env_ready => alreadyReady s
  | _ => false
  end.

Section Protocol.
Variable who : Sender -> bool.

(** The stream sent so far obeys the protocol, ends at the stage of the
    state, and went to receivers in [who] only. *)
Definition protocol (w : World) : Prop :=
  stage_flags (state w) = true
  /\ track Stage.idle (sent w) = Some (stage (state w))
  /\ logs_paired (sent w)
  /\ forallb (fun e => who (fst e)) (sent w) = true.

Definition obs_p (w : World) : Prop := protocol w /\ synced w.

Definition rely_p (w w' : World) : Prop :=
  flags_of (state w') = flags_of (state w) /\ obs_p w'.

Definition post_p (r : Settled McpEnvInitState) (w : World) : Prop :=
  obs_p w /\ at_rest (state w) = true
  /\ match r with
     | Fulfilled st => st = state w
     | Rejected _ => failed (state w) = true
     end.

(** A callback that keeps the flags and the protocol. *)
Definition steady (m : M unit) : Prop :=
  forall w, obs_p w ->
    let w' := snd (m w) in
    flags_of (state w') = flags_of (state w) /\ running w' = running w /\ obs_p w'.

Definition chunk_steady {X : Type} (c : Call X) : Prop :=
  match c with
  | isBinaryExists _ => True
  | spawnNodeScriptStreaming _ options =>
      forall chunk, steady (onStdoutChunk options chunk) /\ steady (onStderrChunk options chunk)
  end.

Definition installed_p (x : McpEnvInitStage) (uvI bunI : bool)
  (Q : Settled unit -> World -> Prop) : Prop :=
  (forall w', flags_of (state w') = (x, uvI, bunI, true, false, false, None) ->
              obs_p w' -> Q (Fulfilled tt) w')
  /\ (forall e w', post_p (Rejected e) w' -> Q (Rejected e) w').

End Protocol.

Abbreviation orderly who := (safe_with (obs_p who) (rely_p who) (@chunk_steady who)).

Definition suspended_p (who : Sender -> bool) (p : Paused McpEnvInitState) (w : World)
  : Prop :=
  match p with
  | Concluded _ => False
  | Awaiting c k =>
      chunk_steady who c
      /\ forall w', rely_p who w w' -> forall x, orderly who (post_p who) (k x) w'
  end.

(** The second invariant of the event loop. *)
Definition runtime_protocol (who : Sender -> bool) (rt : Runtime) : Prop :=
  protocol who (world rt)
  /\ match pending rt with
     | [] => rests (sent (world rt)) /\ (sent (world rt) = [] \/ synced (world rt))
             /\ at_rest (state (world rt)) = true
     | [tk] =>
         who (task_sender tk) = true /\ synced (world rt)
         /\ suspended_p who (task_paused tk) (world rt)
     | _ => False
     end.

(** [stage_flags], spelled out: what the flags of a state are at each
    stage. *)
Definition StageFlags (s : McpEnvInitState) : Prop :=
  match stage s with
  | Stage.idle | Stage.check_uv | Stage.check_bun =>
      installing s = false /\ done s = false /\ failed s = false
  | Stage.start_check =>
      done s = false /\ failed s = false
  | Stage.no_need_install =>
      installing s = false /\ done s = false /\ failed s = false
      /\ uvInstalled s = true /\ bunInstalled s = true
  | Stage.need_install =>
      done s = false /\ failed s = false
      /\ (uvInstalled s = false \/ bunInstalled s = false)
  | Stage.start_install_uv | Stage.installing_uv =>
      installing s = true /\ done s = false /\ failed s = false /\ uvInstalled s = false
  | Stage.start_install_bun | Stage.installing_bun =>
      installing s = true /\ done s = false /\ failed s = false /\ bunInstalled s = false
  | Stage.env_ready =>
      failed s = false
      /\ (done s = true ->
          installing s = false /\ uvInstalled s = true /\ bunInstalled s = true)
  | Stage.failed =>
      failed s = true /\ done s = true /\ installing s = false
  end.

(** The callers of [start] among the inputs. *)
Definition called (inputs : list Input) (sender : Sender) : bool :=
  existsb (fun i => match i with
                    | StartCalled s => s =? sender
                    | _ => false
                    end) inputs.

(** ** The panel of the renderer that follows the service *)

Module Activation.
Inductive t : Type := idle | activating | done | failed.
End Activation.
Abbreviation ActivationStage := Activation.t.

Definition stageToStepIndex (stage : McpEnvInitStage) (activationStage : ActivationStage)
  : nat :=
  match activationStage with
  | Activation.activating => 4
  | Activation.done => 5
  | Activation.failed => 4
  | Activation.idle =>
      match stage with
      | Stage.idle => 0
      | Stage.start_check => 0
      | Stage.check_uv => 1
      | Stage.check_bun => 2
      | Stage.need_install | Stage.no_need_install => 3
      | Stage.start_install_uv | Stage.installing_uv
      | Stage.start_install_bun | Stage.installing_bun => 3
      | Stage.env_ready => 4
      | Stage.failed => 0
      end
  end.

Definition stageToPercent (stage : McpEnvInitStage) (activationStage : ActivationStage)
  : nat :=
  match activationStage with
  | Activation.activating => 90
  | Activation.done => 100
  | Activation.failed => 90
  | Activation.idle =>
      match stage with
      | Stage.idle => 0
      | Stage.start_check => 5
      | Stage.check_uv => 20
      | Stage.check_bun => 35
      | Stage.need_install | Stage.no_need_install => 45
      | Stage.start_install_uv | Stage.installing_uv
      | Stage.start_install_bun | Stage.installing_bun => 70
      | Stage.env_ready => 85
      | Stage.failed => 0
      end
  end.

Definition installingStages : list McpEnvInitStage :=
  [Stage.need_install; Stage.start_install_uv; Stage.installing_uv;
   Stage.start_install_bun; Stage.installing_bun; Stage.failed].

Definition shouldAutoOpenForState (state : McpEnvInitState) : bool :=
  if Stage.eqb (stage state) Stage.idle then false
  else if failed state then true
  else if existsb (Stage.eqb (stage state)) installingStages then true
  else false.

(** The actions the panel dispatches to the store. *)
Inductive StoreAction : Type :=
| setIsUvInstalled (value : bool)
| setIsBunInstalled (value : bool).

(** The state of the component: its four [useState] cells, and the
    actions dispatched so far. *)
Record Panel : Type := mkPanel {
  envState : option McpEnvInitState;
  activationStage : ActivationStage;
  activationError : option string;
  visible : bool;
  dispatched : list StoreAction
}.

(** [applyEvent]; [at_] is what [Date.now()] reads in the renderer.  The
    updates queued by one call are applied in order, so the cells after
    the call are those computed here. *)
Definition applyEvent (at_ : Z) (event : McpEnvInitEvent) (p : Panel) : Panel :=
  match event with
  | EvState st =>
      mkPanel (Some st) (activationStage p) (activationError p)
              (if shouldAutoOpenForState st then true else visible p)
              (dispatched p ++ [setIsUvInstalled (uvInstalled st);
                                setIsBunInstalled (bunInstalled st)])
  | EvLog entry =>
      match envState p with
      | None => p
      | Some prev =>
          mkPanel (Some (set_updatedAt at_ (set_logs (slice_last 500 (logs prev ++ [entry])) prev)))
                  (activationStage p) (activationError p) (visible p) (dispatched p)
      end
  | EvStage _ _ => p
  end.



(** ** Choosing the locale ([utils/locale]) *)

(** [s.replace(from, to)] for one-unit strings: the first occurrence only. *)
Fixpoint replace_first (from to : ascii) (s : string) : string :=
  match s with
  | EmptyString => EmptyString
  | String c rest =>
      if Ascii.eqb c from then String to rest else String c (replace_first from to rest)
  end.

(** [s.split(sep)] for a one-unit separator; [cur] is the piece read so
    far. *)
Fixpoint split_from (sep : ascii) (cur : string) (s : string) : list string :=
  match s with
  | EmptyString => [cur]
  | String c rest =>
      if Ascii.eqb c sep then cur :: split_from sep "" rest
      else split_from sep (cur ++ String c "") rest
  end.

Definition split (sep : ascii) (s : string) : list string := split_from sep "" s.

(** [keys.find(l => l.toLowerCase() === target)]. *)
Definition find_lowered (keys : list string) (target : string) : option string :=
  find (fun l => String.eqb (toLowerCase l) target) keys.

(** [findBestLocale(locale)], where [keys] is [Object.keys(locales)]. *)
Definition findBestLocale (keys : list string) (locale : string) : string :=
  if negb (truthy locale) then "en-US"
  else
    let cleaned := replace_first "_" "-" locale in
    let exact := find_lowered keys (toLowerCase cleaned) in
    if truthy_opt exact then or_string exact ""
    else
      let parts := split "-" cleaned in
      let lang := toLowerCase (hd "" parts) in
      if String.eqb lang "zh" then
        let region := toLowerCase (or_string (nth_error parts 1) "") in
        if includes "tw" region || includes "hant" region || includes "hk" region
        then match find_lowered keys "zh-tw" with Some l => l | None => "zh-CN" end
        else match find_lowered keys "zh-cn" with Some l => l | None => "zh-CN" end
      else
        let pref := find (fun l => String.prefix (lang ++ "-") (toLowerCase l)) keys in
        if truthy_opt pref then or_string pref ""
        else
          let anyLang :=
            find (fun l => String.eqb (toLowerCase (hd "" (split "-" l))) lang) keys in
          if truthy_opt anyLang then or_string anyLang "" else "en-US".

(** The language of a locale tag, as [findBestLocale] reads it. *)
Definition language_of (locale : string) : string :=
  toLowerCase (hd "" (split "-" (replace_first "_" "-" locale))).

(** ** Activating the maa-mcp server from the panel *)

Definition MAA_MCP_SERVER_NAME : string := "maa-mcp".

(** An [MCPServer], as far as the panel looks at it: [others] stands for
    all the other fields, which the spread [{...server}] copies. *)
Record MCPServer (Others : Type) : Type := mkServer {
  name : string;
  isActive : bool;
  others : Others
}.
Arguments mkServer {Others} name isActive others.
Arguments name {Others} _.
Arguments isActive {Others} _.
Arguments others {Others} _.

(** What the panel dispatches while activating. *)
Inductive ServerAction (Others : Type) : Type :=
| addMCPServer (server : MCPServer Others)
| updateMCPServer (server : MCPServer Others).
Arguments addMCPServer {Others} server.
Arguments updateMCPServer {Others} server.

(** The cells [activateMaaMcp] writes, the re-entrancy flag
    [activationRunningRef.current], and the actions dispatched so far. *)
Record Activating (Others : Type) : Type := mkActivating {
  act_stage : ActivationStage;
  act_error : option string;
  act_visible : bool;
  act_running : bool;
  act_dispatched : list (ServerAction Others)
}.
Arguments mkActivating {Others} act_stage act_error act_visible act_running act_dispatched.
Arguments act_stage {Others} _.
Arguments act_error {Others} _.
Arguments act_visible {Others} _.
Arguments act_running {Others} _.
Arguments act_dispatched {Others} _.

Section Activate.
Variable Others : Type.
(** The fields [createMaaMcpServer] fills in besides [name] and
    [isActive], with the identifier and the time it draws. *)
Variable created : Others.
(** [t] of the renderer, for the three messages used here. *)
Variable cannotConnect : string.
Variable activateFailed : string -> string.

(** [servers.find(s => s.name === MAA_MCP_SERVER_NAME)]. *)
Definition findMaa (servers : list (MCPServer Others)) : option (MCPServer Others) :=
  find (fun s => String.eqb (name s) MAA_MCP_SERVER_NAME) servers.

Definition createMaaMcpServer : MCPServer Others :=
  mkServer MAA_MCP_SERVER_NAME false created.

Definition dispatch (a : ServerAction Others) (p : Activating Others) : Activating Others :=
  mkActivating (act_stage p) (act_error p) (act_visible p) (act_running p)
               (act_dispatched p ++ [a]).

(** [ensureMaaServer]. *)
Definition ensureMaaServer (servers : list (MCPServer Others)) (p : Activating Others)
  : MCPServer Others * Activating Others :=
  match findMaa servers with
  | Some existing => (existing, p)
  | None => (createMaaMcpServer, dispatch (addMCPServer createMaaMcpServer) p)
  end.

(** The [catch] block: [servers] is the list the component had when
    [activateMaaMcp] was called. *)
Definition onActivateError (servers : list (MCPServer Others)) (err : Thrown)
  (p : Activating Others) : Activating Others :=
  let p1 := mkActivating Activation.failed (Some (activateFailed (message_of err))) true
                         (act_running p) (act_dispatched p) in
  match findMaa servers with
  | Some server =>
      if isActive server
      then dispatch (updateMCPServer (mkServer (name server) false (others server))) p1
      else p1
  | None => p1
  end.

(** The [finally] block. *)
Definition release (p : Activating Others) : Activating Others :=
  mkActivating (act_stage p) (act_error p) (act_visible p) false (act_dispatched p).

(** [activateMaaMcp], one call from its first line to its [finally], with
    nothing else writing the cells meanwhile.  [first] is how the quick
    connectivity check of an already active server settles, [second] how
    the check after activation settles; [withTimeout] makes a check that
    takes too long reject. *)
Definition activateMaaMcp (servers : list (MCPServer Others))
  (first second : Settled bool) (p : Activating Others) : Activating Others :=
  if act_running p then p
  else
    let p0 := mkActivating Activation.activating None (act_visible p) true
                           (act_dispatched p) in
    let (server, p1) := ensureMaaServer servers p0 in
    let activate (q : Activating Others) : Activating Others :=
      let activatingServer := mkServer (name server) true (others server) in
      let q1 := dispatch (updateMCPServer activatingServer) q in
      match second with
      | Rejected err => release (onActivateError servers err q1)
      | Fulfilled ok =>
          if ok
          then release (mkActivating Activation.done (act_error q1) (act_visible q1)
                                     (act_running q1) (act_dispatched q1))
          else
            let q2 := dispatch (updateMCPServer
                                  (mkServer (name server) false (others server))) q1 in
            release (mkActivating Activation.failed (Some cannotConnect) true
                                  (act_running q2) (act_dispatched q2))
      end in
    if isActive server then
      match first with
      | Rejected err => release (onActivateError servers err p1)
      | Fulfilled ok =>
          if ok
          then release (mkActivating Activation.done (act_error p1) (act_visible p1)
                                     (act_running p1) (act_dispatched p1))
          else activate p1
      end
    else activate p1.

End Activate.

(** * Proofs *)

(** ** Event streams *)

Lemma wellformed_app tr1 tr2 :
  wellformed tr1 = true -> wellformed tr2 = true -> wellformed (tr1 ++ tr2) = true.
Proof.
  induction tr1 as [|[sd ev] rest IH]; simpl; intros H1 H2; auto.
  apply andb_true_iff in H1 as [Hev Hrest].
  rewrite (IH Hrest H2), andb_true_r.
  destruct ev; auto.
  destruct rest as [|[sd' [s| |]] rest']; simpl in *; auto;
  rewrite ?andb_false_r in Hev; discriminate.
Qed.

Lemma wellformed_snapshot tr sd s :
  wellformed tr = true -> In (sd, EvState s) tr -> state_invariant s = true.
Proof.
  induction tr as [|[sd' ev] rest IH]; simpl; intros W H; [contradiction|].
  apply andb_true_iff in W as [Hev Hrest].
  destruct H as [H|H]; [|auto].
  injection H as -> ->. exact Hev.
Qed.

Lemma wellformed_stage pre : forall tr sd x a post',
  wellformed tr = true -> tr = pre ++ (sd, EvStage x a) :: post' ->
  x <> Stage.failed
  /\ exists s rest, post' = (sd, EvState s) :: rest /\ stage s = x /\ updatedAt s = a.
Proof.
  induction pre as [|e pre IH]; intros tr sd x a post' W ->.
  - cbn [app wellformed] in W.
    apply andb_true_iff in W as [Hev _].
    apply andb_true_iff in Hev as [Hx Hnext].
    split; [intros ->; discriminate|].
    destruct post' as [|[sd' [s| |]] rest]; try discriminate.
    apply andb_true_iff in Hnext as [Hnext Ha].
    apply andb_true_iff in Hnext as [Hsd Hs].
    apply Nat.eqb_eq in Hsd. apply Z.eqb_eq in Ha. subst.
    exists s, rest. repeat split.
    destruct (stage s), x; cbn in Hs; congruence.
  - destruct e as [sd' ev]. cbn [app wellformed] in W.
    apply andb_true_iff in W as [_ W].
    eapply IH; [exact W | reflexivity].
Qed.

#[local] Arguments slice_last : simpl never.
#[local] Arguments t : simpl never.
#[local] Arguments tailText : simpl never.
#[local] Arguments summarizeFailure : simpl never.
#[local] Arguments String.append : simpl never.
#[local] Arguments set_stage _ _ /.
#[local] Arguments set_uvInstalled _ _ /.
#[local] Arguments set_bunInstalled _ _ /.
#[local] Arguments set_installing _ _ /.
#[local] Arguments set_done _ _ /.
#[local] Arguments set_failed _ _ /.
#[local] Arguments set_error _ _ /.
#[local] Arguments set_logs _ _ /.
#[local] Arguments set_updatedAt _ _ /.
#[local] Arguments wellformed : simpl never.
#[local] Arguments state_invariant : simpl never.
#[local] Arguments obs : simpl never.
#[local] Arguments post : simpl never.
#[local] Arguments rely : simpl never.
#[local] Arguments chunk_ok : simpl never.
#[local] Arguments or_await : simpl never.
#[local] Arguments installUv : simpl never.
#[local] Arguments installBun : simpl never.

Lemma state_invariant_flags s s' :
  flags_of s' = flags_of s -> state_invariant s' = state_invariant s.
Proof.
  destruct s, s'. unfold flags_of, state_invariant. cbn.
  intros H. injection H as ? ? ? ? ? ? ?. subst. reflexivity.
Qed.

Lemma done_flags s s' : flags_of s' = flags_of s -> done s' = done s.
Proof. unfold flags_of. intros H. injection H as _ _ _ _ H _ _. exact H. Qed.

Lemma rely_refl w : wellformed (sent w) = true -> rely w w.
Proof. split; auto. Qed.

Lemma rely_trans w1 w2 w3 : rely w1 w2 -> rely w2 w3 -> rely w1 w3.
Proof. intros [F1 _] [F2 W]. split; congruence. Qed.

Lemma obs_rely w w' : obs w -> rely w w' -> obs w'.
Proof.
  intros (_ & I & D) [F W]. repeat split; auto.
  - rewrite (state_invariant_flags _ _ F). exact I.
  - rewrite (done_flags _ _ F). exact D.
Qed.

(** ** The safety predicate *)

Lemma safe_with_bind O R C {A B : Type} (Q : Settled B -> World -> Prop)
  (p : Async A) (f : A -> Async B) :
  forall w,
  safe_with O R C (fun r w' => match r with
                               | Fulfilled a => safe_with O R C Q (f a) w'
                               | Rejected e => Q (Rejected e) w'
                               end) p w ->
  safe_with O R C Q (abind p f) w.
Proof.
  induction p as [a|e|X m k IH|X c k IH]; simpl; intros w H; auto.
  - destruct H as [Hr H]. split; auto.
  - destruct H as (Ho & Hc & H). split; [exact Ho|]. split; [exact Hc|].
    intros w' Hw x. apply IH. apply H. exact Hw.
Qed.

(** The short-circuit [||] of two probes. *)
Lemma or_await_safe {A : Type} (Q : Settled A -> World -> Prop) name1 name2
  (f : bool -> Async A) w :
  obs w ->
  (forall w', rely w w' -> forall b, safe_run Q (f b) w') ->
  safe_run Q (abind (or_await (await_probe (isBinaryExists name1))
                              (await_probe (isBinaryExists name2))) f) w.
Proof.
  intros Ho H. apply safe_with_bind. cbn.
  split; [exact Ho|]. split; [exact I|].
  intros w' Hr [|]; cbn.
  - apply H; auto.
  - split; [eapply obs_rely; eauto|]. split; [exact I|].
    intros w'' Hr' b. cbn. apply H. eapply rely_trans; eauto.
Qed.

(** Symbolic execution of a run, one synchronous stretch at a time. *)

Ltac norm_trace := repeat rewrite <- app_assoc; cbn [app].

Ltac sync_cbn :=
  cbn [fail error_ warn info pushLog setStage emit assign now get_state bind ret when
       resetTransient set_running
       state running sent ticks fst snd
       set_stage set_uvInstalled set_bunInstalled set_installing set_done set_failed
       set_error set_logs set_updatedAt
       stage uvInstalled bunInstalled installing done failed error logs updatedAt
       Err.suggestion Err.message].

Ltac compute_flags :=
  cbv [wellformed state_invariant state stage uvInstalled bunInstalled installing
       done failed error updatedAt Stage.eqb negb andb implb xorb Bool.eqb];
  rewrite ?Nat.eqb_refl, ?Z.eqb_refl;
  repeat match goal with
         | |- context [if ?b then _ else _] => is_var b; destruct b
         end;
  reflexivity.

Ltac solve_wf :=
  cbn [sent state]; norm_trace;
  match goal with
  | |- wellformed (_ ++ _) = true => apply wellformed_app; [assumption | compute_flags]
  | |- wellformed _ = true => assumption
  end.

Ltac solve_obs := unfold obs; split; [solve_wf | split; compute_flags].

Ltac solve_post :=
  unfold post; split; [solve_wf | split; [compute_flags | split; reflexivity]].

Ltac open_world w' Hf Hw :=
  destruct w' as [[? ? ? ? ? ? ? ? ?] ? ? ?];
  cbn in Hf, Hw; injection Hf as ? ? ? ? ? ? ?; subst;
  repeat match goal with
         | H : wellformed _ = true |- _ =>
             lazymatch H with Hw => fail | _ => clear H end
         end.

Ltac enter_rely :=
  let w' := fresh "w" in
  let H := fresh "Hrely" in
  let Hf := fresh "Hf" in
  let Hw := fresh "Hwf" in
  intros w' H; destruct H as [Hf Hw]; open_world w' Hf Hw.

Ltac case_stuck :=
  match goal with
  | |- context [exit_nonzero ?e] => destruct e as [?z|]; cbn [exit_nonzero]
  | |- context [if negb (Z.eqb ?z 0) then _ else _] => destruct (Z.eqb z 0)
  | |- context [if isWin ?h then _ else _] => destruct (isWin h)
  | |- context [or_string ?a _] => destruct a as [?s|]; cbn [or_string]
  | |- context [truthy ?s] => destruct (truthy s)
  | |- context [match summarizeFailure ?h ?a ?b with _ => _ end] =>
      destruct (summarizeFailure h a b)
  end.

Section RunIsSafe.
Variable host : Host.

Lemma quiet_pushLog sender lvl msg src : quiet (pushLog host sender lvl msg src).
Proof.
  intros [s r tr n]. cbn. repeat split.
  intros Hi Hw. rewrite <- app_assoc. cbn [app].
  apply wellformed_app; auto.
  unfold wellformed. rewrite andb_true_r. cbn [andb].
  rewrite <- Hi. apply state_invariant_flags. reflexivity.
Qed.

Lemma quiet_ret : quiet (ret tt).
Proof. intros w. cbn. auto. Qed.

Lemma quiet_bind (m : M unit) (k : M unit) :
  quiet m -> quiet k -> quiet (bind m (fun _ => k)).
Proof.
  intros Hm Hk w. unfold bind. specialize (Hm w).
  destruct (m w) as [[] w1]. cbn in Hm. destruct Hm as (F1 & R1 & W1).
  specialize (Hk w1). cbn in Hk. destruct Hk as (F2 & R2 & W2).
  cbn. repeat split; try congruence.
  intros Hi Hw. apply W2; auto.
  rewrite (state_invariant_flags _ _ F1). exact Hi.
Qed.

Lemma quiet_log_lines sender lvl src chunk :
  quiet (log_lines (fun msg => pushLog host sender lvl msg src) chunk).
Proof.
  unfold log_lines. induction (split_lines chunk) as [|line rest IH]; cbn [for_each].
  - apply quiet_ret.
  - apply quiet_bind; auto. unfold when.
    destruct (truthy (trim line)); [apply quiet_pushLog | apply quiet_ret].
Qed.

Ltac solve_chunk :=
  match goal with
  | |- chunk_ok (isBinaryExists _) => exact I
  | |- chunk_ok _ => intro; split; apply quiet_log_lines
  end.

Ltac go leaf :=
  cbn; go_on leaf
with go_on leaf :=
  lazymatch goal with
  | |- ?a = ?a /\ _ => split; [reflexivity | go_on leaf]
  | |- obs _ /\ _ => split; [solve_obs | go_on leaf]
  | |- chunk_ok _ /\ _ => split; [solve_chunk | go_on leaf]
  | |- post _ _ => solve_post
  | |- forall w', rely _ w' -> _ =>
      enter_rely; let x := fresh "x" in intros x;
      lazymatch type of x with
      | bool => destruct x; go leaf
      | Settled _ => destruct x as [[? ? ?]|?]; go leaf
      end
  | |- safe_with _ _ _ _ (abind (or_await _ _) _) _ =>
      apply or_await_safe; [solve_obs | go_on leaf]
  | |- _ => first [case_stuck; go leaf | leaf]
  end.

Ltac install_leaf HQ :=
  idtac;
  lazymatch goal with
  | |- _ (Fulfilled tt) _ => apply (proj1 HQ); [reflexivity | solve_wf]
  | |- _ (Rejected _) _ => apply (proj2 HQ); solve_post
  end.

Lemma installUv_safe sender (Q : Settled unit -> World -> Prop) stg bunI lg upd r tr n :
  wellformed tr = true ->
  installed Stage.installing_uv false bunI Q ->
  safe_run Q (installUv host sender)
    (mkWorld (mkState stg false bunI true false false None lg upd) r tr n).
Proof.
  intros Htr HQ. unfold installUv.
  go ltac:(install_leaf HQ).
Qed.

Lemma installBun_safe sender (Q : Settled unit -> World -> Prop) stg uvI lg upd r tr n :
  wellformed tr = true ->
  installed Stage.installing_bun uvI false Q ->
  safe_run Q (installBun host sender)
    (mkWorld (mkState stg uvI false true false false None lg upd) r tr n).
Proof.
  intros Htr HQ. unfold installBun.
  go ltac:(install_leaf HQ).
Qed.

Ltac after_install go_leaf :=
  split;
  [ let w' := fresh "w" in
    let Hf := fresh "Hf" in
    let Hw := fresh "Hwf" in
    intros w' Hf Hw; open_world w' Hf Hw; go go_leaf
  | let HP := fresh "HP" in intros ? ? HP; exact HP ].

Ltac run_leaf :=
  idtac;
  lazymatch goal with
  | |- safe_with _ _ _ _ (abind (installUv _ _) _) _ =>
      apply safe_with_bind; apply installUv_safe; [solve_wf | after_install run_leaf]
  | |- safe_with _ _ _ _ (abind (installBun _ _) _) _ =>
      apply safe_with_bind; apply installBun_safe; [solve_wf | after_install run_leaf]
  end.

(** From any world whose transient flags are cleared, the run is safe. *)
Lemma run_safe sender stg uv0 bun0 lg upd r tr n :
  wellformed tr = true ->
  safe (run host sender)
    (mkWorld (mkState stg uv0 bun0 false false false None lg upd) r tr n).
Proof.
  intros Htr. unfold safe, run.
  go run_leaf.
Qed.

(** ** The event loop keeps its invariant *)

Lemma exec_safe (p : Async McpEnvInitState) :
  forall w, safe p w ->
  running (snd (exec p w)) = running w
  /\ match fst (exec p w) with
     | Concluded r => post r (snd (exec p w))
     | Awaiting c k =>
         obs (snd (exec p w)) /\ suspended_ok (Awaiting c k) (snd (exec p w))
     end.
Proof.
  unfold safe.
  induction p as [a|e|X m k IH|X c k IH]; cbn [exec safe_with]; intros w H.
  - cbn. auto.
  - cbn. auto.
  - destruct H as [Hr H]. destruct (m w) as [x w1]. cbn [fst snd] in *.
    destruct (IH x w1 H) as [Hr' H']. split; [congruence | exact H'].
  - cbn [fst snd]. destruct H as (Ho & Hc & H). cbn [suspended_ok]. auto.
Qed.

Lemma settle_post sender r w :
  post r w ->
  fulfilled (fst (settle host sender r w)) = true
  /\ running (snd (settle host sender r w)) = None
  /\ wellformed (sent (snd (settle host sender r w))) = true
  /\ state_invariant (state (snd (settle host sender r w))) = true.
Proof.
  intros (Hw & Hi & Hd & Hf).
  destruct w as [[stg uvI bunI ins dn fl err lg upd] rn tr n].
  destruct r as [st|e]; cbn in *.
  - auto.
  - subst. unfold state_invariant in Hi. cbn in Hi.
    assert (Huv : uvI && bunI = false)
      by (destruct (uvI && bunI); [cbn in Hi; discriminate | reflexivity]).
    split; [reflexivity|]. split; [reflexivity|].
    split.
    + norm_trace. apply wellformed_app; [assumption|].
      cbv [wellformed state_invariant stage uvInstalled bunInstalled installing
           done failed error updatedAt implb xorb Bool.eqb].
      rewrite Huv. reflexivity.
    + cbv [state_invariant stage uvInstalled bunInstalled installing
           done failed error updatedAt implb xorb Bool.eqb].
      rewrite Huv. reflexivity.
Qed.

Lemma suspended_ok_rely p w w' :
  rely w w' -> suspended_ok p w -> suspended_ok p w'.
Proof.
  intros Hr. destruct p as [r|X c k]; cbn; auto.
  intros [Hc H]. split; [exact Hc|].
  intros w'' Hr' x. apply H. eapply rely_trans; eauto.
Qed.

Lemma stretch_ok h sender p w sett next :
  running w = Some h ->
  match p with
  | Concluded r => post r w
  | Awaiting c k => obs w /\ suspended_ok (Awaiting c k) w
  end ->
  forallb (fun e => fulfilled (snd e)) sett = true ->
  runtime_ok (after_stretch host h sender p w [] sett next).
Proof.
  intros Hr H Hs. destruct p as [r|X c k]; unfold after_stretch.
  - destruct (settle_post sender r w H) as (F & R' & W & I).
    destruct (settle host sender r w) as [r' w']. cbn [fst snd] in *.
    unfold runtime_ok. cbn. repeat split; auto.
    rewrite forallb_app, Hs. cbn. rewrite F. reflexivity.
  - destruct H as [(W & I & D) Hk].
    unfold runtime_ok. cbn. repeat split; auto; apply Hk.
Qed.

Lemma take_task_single h tk :
  take_task h [tk] = if task_handle tk =? h then Some (tk, []) else None.
Proof. cbn. destruct (task_handle tk =? h); reflexivity. Qed.

Lemma continue_ok tk next rt :
  runtime_ok rt -> pending rt = [tk] ->
  (forall p, next = Some p -> safe p (world rt)) ->
  runtime_ok (continue_task host tk [] next rt).
Proof.
  intros (W & I & S & P) E Hn. rewrite E in P. destruct P as (Hr & D & Hs).
  destruct next as [p|]; cbn [continue_task].
  - specialize (Hn p eq_refl). destruct (exec_safe p _ Hn) as [R' H'].
    destruct (exec p (world rt)) as [p' w']. cbn [fst snd] in *.
    apply stretch_ok; [congruence | exact H' | exact S].
  - unfold runtime_ok. rewrite E. repeat split; assumption.
Qed.

(** The synchronous opening of the third branch of [start]. *)
Lemma start_prologue sender w :
  wellformed (sent w) = true ->
  exists lg upd tr n,
    snd ((bind (resetTransient host)
            (fun _ => bind (setStage host sender Stage.start_check)
               (fun _ => info host sender (t host "mcp.envInit.messages.startCheck")
                           (Some system)))) w)
    = mkWorld (mkState Stage.start_check (uvInstalled (state w)) (bunInstalled (state w))
                       false false false None lg upd) (running w) tr n
    /\ wellformed tr = true.
Proof.
  intros W. destruct w as [[stg uvI bunI ins dn fl err lg upd] rn tr n]. cbn.
  do 4 eexists. split; [reflexivity|].
  norm_trace. apply wellformed_app; [exact W|]. compute_flags.
Qed.

Lemma launched_ok h sender (p : Async McpEnvInitState) w sett next :
  safe p w ->
  forallb (fun e => fulfilled (snd e)) sett = true ->
  runtime_ok
    (let (p', w2) := exec p w in
     let (_, w3) := set_running (Some h) w2 in
     after_stretch host h sender p' w3 [] sett next).
Proof.
  intros Hsafe Hs.
  destruct (exec_safe _ _ Hsafe) as [_ H'].
  destruct (exec p w) as [p' w2]. cbn [fst snd] in H'.
  cbn [set_running].
  apply stretch_ok; [reflexivity | | exact Hs].
  destruct p' as [r|X c k]; exact H'.
Qed.

Lemma begin_run_ok h sender rt :
  runtime_ok rt -> pending rt = [] -> runtime_ok (begin_run host h sender rt).
Proof.
  intros (W & I & S & P) E. unfold begin_run. rewrite E.
  destruct (start_prologue sender (world rt) W) as (lg & upd & tr & n & Ew & Wtr).
  match goal with
  | |- context [let (_, w1) := ?m (world rt) in _] =>
      destruct (m (world rt)) as [[] w1]
  end.
  cbn [snd] in Ew. subst w1.
  apply launched_ok; [|exact S].
  apply run_safe. exact Wtr.
Qed.

Lemma start_ok sender rt : runtime_ok rt -> runtime_ok (snd (start host sender rt)).
Proof.
  intros H. pose proof H as (W & I & S & P). unfold start.
  assert (W' : wellformed (sent (world rt) ++ [(sender, EvState (state (world rt)))]) = true).
  { apply wellformed_app; [exact W|]. unfold wellformed. rewrite I. reflexivity. }
  destruct (alreadyReady (state (world rt))) eqn:Ready.
  - cbn. unfold runtime_ok. cbn. repeat split; auto.
  - destruct (running (world rt)) as [h|] eqn:Run.
    + cbn. unfold runtime_ok. cbn.
      split; [exact W'|]. split; [exact I|]. split; [exact S|]. rewrite Run. exact P.
    + cbn [snd]. apply begin_run_ok; [exact H|].
      destruct (pending rt) as [|tk [|]]; [reflexivity | destruct P; discriminate | contradiction].
Qed.

Lemma step_ok i rt : runtime_ok rt -> runtime_ok (step host i rt).
Proof.
  intros H. destruct i as [sender|h found|h stream chunk|h r]; cbn [step].
  - apply start_ok; exact H.
  - pose proof H as (W & I & S & P).
    destruct (pending rt) as [|tk [|]] eqn:E; [exact H | | contradiction].
    rewrite take_task_single. destruct (task_handle tk =? h); [|exact H].
    apply continue_ok; auto.
    intros p Ep. destruct P as (Hr & D & Hs).
    destruct (task_paused tk) as [r0|X c k]; [contradiction|].
    destruct Hs as [Hc Hs]. cbn in Ep.
    destruct c; [|discriminate]. injection Ep as <-. apply Hs. apply rely_refl; exact W.
  - pose proof H as (W & I & S & P).
    destruct (pending rt) as [|tk [|]] eqn:E; [exact H | | contradiction].
    rewrite take_task_single. destruct (task_handle tk =? h); [|exact H].
    destruct P as (Hr & D & Hs).
    destruct (task_paused tk) as [r0|X c k] eqn:Ep; [contradiction|].
    destruct Hs as [Hc Hs]. cbn [chunk_callback].
    destruct c as [name|script options]; [exact H|].
    assert (Q : quiet (on_chunk options stream chunk))
      by (destruct stream; apply (Hc chunk)).
    destruct (Q (world rt)) as (F & R' & W').
    unfold runtime_ok. cbn [world pending settled]. rewrite ?E.
    split; [auto|]. split; [rewrite (state_invariant_flags _ _ F); exact I|].
    split; [exact S|]. split; [congruence|].
    split; [rewrite (done_flags _ _ F); exact D|].
    rewrite Ep. eapply suspended_ok_rely; [|split; [exact Hc | exact Hs]].
    split; auto.
  - pose proof H as (W & I & S & P).
    destruct (pending rt) as [|tk [|]] eqn:E; [exact H | | contradiction].
    rewrite take_task_single. destruct (task_handle tk =? h); [|exact H].
    apply continue_ok; auto.
    intros p Ep. destruct P as (Hr & D & Hs).
    destruct (task_paused tk) as [r0|X c k]; [contradiction|].
    destruct Hs as [Hc Hs]. cbn in Ep.
    destruct c; [discriminate|]. injection Ep as <-. apply Hs. apply rely_refl; exact W.
Qed.

Lemma boot_ok : runtime_ok (boot host).
Proof. unfold runtime_ok. cbn. repeat split. Qed.

Lemma steps_ok inputs : forall rt, runtime_ok rt -> runtime_ok (steps host inputs rt).
Proof.
  unfold steps. induction inputs as [|i rest IH]; cbn [fold_left]; intros rt H; auto.
  apply IH. apply step_ok. exact H.
Qed.

Lemma reachable_ok inputs : runtime_ok (steps host inputs (boot host)).
Proof. apply steps_ok. apply boot_ok. Qed.

End RunIsSafe.

(** ** Claims about the event loop *)

Lemma state_invariant_spec s : state_invariant s = true -> StateInvariant s.
Proof.
  unfold state_invariant, StateInvariant.
  destruct (done s), (failed s), (uvInstalled s), (bunInstalled s), (installing s),
    (error s); cbn; intros H; try discriminate;
  repeat split; intros; try congruence; try tauto;
  try (intros [? ?]; discriminate).
Qed.

Section Claims.
Variable host : Host.

(** C1 (single flight).  In every state the process can reach, at most one
    run is in flight; and while one is ([running] holds its promise [h]),
    a call of [start] changes nothing but the event stream, to which it
    adds exactly one snapshot of the current state for the new caller, and
    hands back that same promise [h] without launching anything. *)
Theorem start_single_flight (inputs : list Input) :
  let rt := steps host inputs (boot host) in
  List.length (pending rt) <= 1
  /\ forall sender h,
       running (world rt) = Some h ->
       (exists tk, pending rt = [tk] /\ task_handle tk = h)
       /\ start host sender rt =
            (ReturnsRunning h,
             mkRuntime
               (mkWorld (state (world rt)) (Some h)
                  (sent (world rt) ++ [(sender, EvState (state (world rt)))])
                  (ticks (world rt)))
               (pending rt) (settled rt) (next_handle rt)).
Proof.
  intros rt. destruct (reachable_ok host inputs) as (W & I & S & P). fold rt in W, I, S, P.
  split.
  - destruct (pending rt) as [|tk [|]]; cbn; try lia.
  - intros sender h Run.
    destruct (pending rt) as [|tk [|]] eqn:E; [congruence | | contradiction].
    destruct P as (Hr & D & Hs).
    split.
    + exists tk. split; [reflexivity | congruence].
    + unfold start, alreadyReady. rewrite D, Run. cbn. rewrite E, Run. reflexivity.
Qed.

(** C2 (already ready).  When the cached state is done, not failed and
    both tools are installed, [start] hands back that state and changes
    nothing but the event stream, which gets exactly one snapshot of it for
    the caller: no run is launched, the clock is not read, no field moves. *)
Theorem start_already_ready (sender : Sender) (rt : Runtime) :
  done (state (world rt)) = true ->
  failed (state (world rt)) = false ->
  uvInstalled (state (world rt)) = true ->
  bunInstalled (state (world rt)) = true ->
  start host sender rt =
    (ReturnsState (state (world rt)),
     mkRuntime
       (mkWorld (state (world rt)) (running (world rt))
          (sent (world rt) ++ [(sender, EvState (state (world rt)))])
          (ticks (world rt)))
       (pending rt) (settled rt) (next_handle rt)).
Proof.
  intros Hd Hf Hu Hb. unfold start, alreadyReady.
  rewrite Hd, Hf, Hu, Hb. reflexivity.
Qed.

(** C5 (state invariant).  In every state the process can reach, the state
    that [getState] returns satisfies
    [done => (failed xor (uvInstalled and bunInstalled))],
    [installing => not done] and [error present <=> failed], and so does
    every snapshot ever emitted. *)
Theorem state_invariant_always (inputs : list Input) :
  let rt := steps host inputs (boot host) in
  StateInvariant (getState (world rt))
  /\ forall sd s, In (sd, EvState s) (sent (world rt)) -> StateInvariant s.
Proof.
  intros rt. destruct (reachable_ok host inputs) as (W & I & _). fold rt in W, I.
  split.
  - apply state_invariant_spec. exact I.
  - intros sd s Hin. apply state_invariant_spec.
    eapply wellformed_snapshot; eauto.
Qed.

Lemma settle_fulfils sender r w :
  exists st,
    fst (settle host sender r w) = Fulfilled st
    /\ running (snd (settle host sender r w)) = None
    /\ match r with
       | Fulfilled st0 => st = st0 /\ state (snd (settle host sender r w)) = state w
       | Rejected e =>
           st = state (snd (settle host sender r w))
           /\ failed st = true /\ done st = true /\ stage st = Stage.failed
           /\ error st = Some (Err.mk (message_of e) None None None None None)
       end.
Proof.
  destruct w as [[stg uvI bunI ins dn fl err lg upd] rn tr n].
  destruct r as [st0|e]; cbn.
  - exists st0. repeat split.
  - eexists. repeat split.
Qed.

Lemma settle_after_launch o h sender (p : Async McpEnvInitState) w :
  exists st,
    fst (let (p', w2) := exec p w in
         let (_, w3) := set_running (Some h) w2 in
         let (r, w4) := drive_paused o p' w3 in
         settle host sender r w4) = Fulfilled st
    /\ running (snd (let (p', w2) := exec p w in
                     let (_, w3) := set_running (Some h) w2 in
                     let (r, w4) := drive_paused o p' w3 in
                     settle host sender r w4)) = None.
Proof.
  destruct (exec p w) as [p' w2]. cbn [set_running].
  destruct (drive_paused o p' _) as [r w4].
  destruct (settle_fulfils sender r w4) as (st & E & Hr & _).
  exists st. split; assumption.
Qed.

Lemma begin_run_awaits h sender rt :
  exists k w',
    begin_run host h sender rt
    = mkRuntime w' (pending rt ++ [mkTask h sender (Awaiting (isBinaryExists "uvx") k)])
                (settled rt) (S h)
    /\ running w' = Some h.
Proof.
  destruct rt as [[[stg uvI bunI ins dn fl err lg upd] rn tr n] pd st nx].
  unfold begin_run.
  cbn [world bind resetTransient setStage info pushLog now assign emit get_state
       state running sent ticks].
  unfold run, or_await, await_probe.
  cbn [abind sync exec bind setStage info pushLog now assign emit get_state
       state running sent ticks].
  cbn [set_running snd after_stretch].
  do 2 eexists. split; reflexivity.
Qed.

(** C7 (start never rejects).  Whichever way the run ends, the reactions
    chained in [start] fulfil the in-flight promise and clear [running]; a
    rejection [e] of the run becomes the failed terminal state carrying
    [e]'s message, which is what the promise is fulfilled with.  Driven to
    its end by any oracle, a launched run therefore fulfils.  No promise
    the process ever settled was rejected, and [running] is empty whenever
    no run is pending.  After a failure the next [start] launches a fresh
    run under a new promise. *)
Theorem start_never_rejects :
  (forall sender r w,
     exists st,
       fst (settle host sender r w) = Fulfilled st
       /\ running (snd (settle host sender r w)) = None
       /\ forall e, r = Rejected e ->
            st = state (snd (settle host sender r w))
            /\ failed st = true /\ done st = true /\ stage st = Stage.failed)
  /\ (forall o h sender w,
       exists st,
         fst (launch host o h sender w) = Fulfilled st
         /\ running (snd (launch host o h sender w)) = None)
  /\ (forall inputs,
       let rt := steps host inputs (boot host) in
       (forall h r, In (h, r) (settled rt) -> exists st, r = Fulfilled st)
       /\ (pending rt = [] -> running (world rt) = None)
       /\ forall sender,
            pending rt = [] -> failed (state (world rt)) = true ->
            exists k rt',
              start host sender rt = (ReturnsRunning (next_handle rt), rt')
              /\ running (world rt') = Some (next_handle rt)
              /\ pending rt' = [mkTask (next_handle rt) sender
                                      (Awaiting (isBinaryExists "uvx") k)]).
Proof.
  split; [|split].
  - intros sender r w. destruct (settle_fulfils sender r w) as (st & E & Hr & Hm).
    exists st. split; [exact E|]. split; [exact Hr|].
    intros e ->. tauto.
  - intros o h sender w. unfold launch.
    match goal with
    | |- context [let (_, w1) := ?m w in _] => destruct (m w) as [[] w1]
    end.
    apply settle_after_launch.
  - intros inputs rt.
    destruct (reachable_ok host inputs) as (W & I & S & P). fold rt in W, I, S, P.
    split; [|split].
    + intros h r Hin. rewrite forallb_forall in S. specialize (S _ Hin). cbn in S.
      destruct r as [st|e]; [eauto | discriminate].
    + intros E. rewrite E in P. exact P.
    + intros sender E Hf. rewrite E in P.
      destruct (begin_run_awaits (next_handle rt) sender rt) as (k & w' & Eb & Hr).
      exists k, (begin_run host (next_handle rt) sender rt).
      unfold start, alreadyReady. rewrite Hf, P, andb_false_r. cbn [negb andb].
      split; [reflexivity|]. rewrite Eb, E. cbn [world pending app]. auto.
Qed.

End Claims.

Section Claims2.
Variable host : Host.

Lemma setStage_events sender x w :
  snd (setStage host sender x w)
  = mkWorld (set_updatedAt (Date_now host (ticks w)) (set_stage x (state w)))
            (running w)
            (sent w ++ [(sender, EvStage x (Date_now host (ticks w)));
                        (sender, EvState (set_updatedAt (Date_now host (ticks w))
                                            (set_stage x (state w))))])
            (S (ticks w)).
Proof.
  destruct w as [s r tr n]. sync_cbn. rewrite <- app_assoc. reflexivity.
Qed.

Lemma fail_events sender err w :
  exists s rest,
    sent (snd (fail host sender err w)) = sent w ++ (sender, EvState s) :: rest
    /\ stage s = Stage.failed
    /\ stage (state (snd (fail host sender err w))) = Stage.failed
    /\ forall sd x a, ~ In (sd, EvStage x a) rest.
Proof.
  destruct w as [[stg uvI bunI ins dn fl er lg upd] r tr n].
  destruct err as [m c ec se so [sg|]]; sync_cbn; [destruct (truthy sg); sync_cbn|];
    norm_trace;
    do 2 eexists; (split; [reflexivity|]); (split; [reflexivity|]);
    (split; [reflexivity|]);
    intros sd x a H; cbn [In] in H; intuition discriminate.
Qed.

(** C4, as amended.  In every event stream the process can produce, each
    [stage] event is for a stage other than [failed] and is directly
    followed, for the same receiver, by a snapshot whose stage is that
    stage and whose time stamp is the event's.  [setStage] emits exactly
    such a pair.  The transition into [failed] is made by [fail], which
    emits a snapshot whose stage is [failed] and then only logs and
    snapshots. *)
Theorem stage_then_snapshot :
  (forall inputs pre sd x a post',
     sent (world (steps host inputs (boot host))) = pre ++ (sd, EvStage x a) :: post' ->
     x <> Stage.failed
     /\ exists s rest, post' = (sd, EvState s) :: rest /\ stage s = x /\ updatedAt s = a)
  /\ (forall sender x w,
        exists a s,
          sent (snd (setStage host sender x w))
          = sent w ++ [(sender, EvStage x a); (sender, EvState s)]
          /\ stage s = x /\ s = state (snd (setStage host sender x w)))
  /\ (forall sender err w,
        exists s rest,
          sent (snd (fail host sender err w)) = sent w ++ (sender, EvState s) :: rest
          /\ stage s = Stage.failed
          /\ stage (state (snd (fail host sender err w))) = Stage.failed
          /\ forall sd x a, ~ In (sd, EvStage x a) rest).
Proof.
  split; [|split].
  - intros inputs pre sd x a post' E.
    destruct (reachable_ok host inputs) as (W & _).
    eapply wellformed_stage; eauto.
  - intros sender x w. rewrite setStage_events. cbn [sent state].
    do 2 eexists. split; [reflexivity|]. split; reflexivity.
  - intros sender err w. apply fail_events.
Qed.

End Claims2.

Lemma no_stage_event x tr :
  forallb (fun e => negb (is_stage_event x e)) tr = true ->
  forall sd a, ~ In (sd, EvStage x a) tr.
Proof.
  intros H sd a Hin. rewrite forallb_forall in H. specialize (H _ Hin).
  unfold is_stage_event in H. cbn in H. destruct x; discriminate.
Qed.

Lemma stage_then_snapshot_witness :
  let tr := sent (world (steps posix_host both_present (boot posix_host))) in
  tr = [] ++ (7, EvStage Stage.start_check 2%Z) :: tl tr
  /\ Stage.start_check <> Stage.failed
  /\ exists s rest, tl tr = (7, EvState s) :: rest
                    /\ stage s = Stage.start_check /\ updatedAt s = 2%Z.
Proof.
  split; [vm_compute; reflexivity|].
  apply (proj1 (stage_then_snapshot posix_host) both_present []).
  vm_compute. reflexivity.
Defined.

(** C4 as stated fails: when the uv installer exits with code 1 the state
    moves to stage [failed] and a snapshot shows it, but no [stage] event
    for [failed] is ever emitted. *)
Lemma failed_stage_not_announced :
  let rt := steps posix_host uv_install_exits_1 (boot posix_host) in
  stage (getState (world rt)) = Stage.failed
  /\ existsb (is_snapshot_at Stage.failed) (sent (world rt)) = true
  /\ forall sd a, ~ In (sd, EvStage Stage.failed a) (sent (world rt)).
Proof.
  split; [vm_compute; reflexivity|]. split; [vm_compute; reflexivity|].
  apply no_stage_event. vm_compute. reflexivity.
Qed.

(** ** The log ring *)

Lemma slice_last_length {A : Type} (n : nat) (l : list A) :
  List.length (slice_last n l) = Nat.min n (List.length l).
Proof. unfold slice_last. rewrite length_skipn. lia. Qed.

Lemma slice_last_app {A : Type} (n : nat) (l l2 : list A) :
  slice_last n (slice_last n l ++ l2) = slice_last n (l ++ l2).
Proof.
  unfold slice_last. rewrite !length_app, length_skipn.
  rewrite !skipn_app, length_skipn, skipn_skipn.
  f_equal; f_equal; lia.
Qed.

Lemma slice_last_covered {A : Type} (n : nat) (l l2 : list A) :
  n <= List.length l2 -> slice_last n (l ++ l2) = slice_last n l2.
Proof.
  intros H. unfold slice_last. rewrite length_app, skipn_app.
  rewrite skipn_all2 by lia. cbn [app]. f_equal. lia.
Qed.

Lemma entries_from_length host n items :
  List.length (entries_from host n items) = List.length items.
Proof. revert n. induction items as [|it rest IH]; intros n; cbn; auto. Qed.

Section Ring.
Variable host : Host.

Lemma pushLog_logs sender lvl msg src w :
  logs (state (snd (pushLog host sender lvl msg src w)))
  = slice_last MAX_LOGS (logs (state w) ++ [Log.mk (Date_now host (ticks w)) lvl msg src])
  /\ ticks (snd (pushLog host sender lvl msg src w)) = S (S (ticks w)).
Proof. destruct w as [s r tr n]. sync_cbn. split; reflexivity. Qed.

Lemma pushLogs_logs sender items :
  forall w,
  logs (state (snd (pushLogs host sender items w)))
  = slice_last MAX_LOGS (logs (state w) ++ entries_from host (ticks w) items)
    \/ (items = [] /\ logs (state (snd (pushLogs host sender items w))) = logs (state w)).
Proof.
  unfold pushLogs.
  induction items as [|it rest IH]; intros w; cbn [for_each entries_from].
  - right. split; reflexivity.
  - left. unfold bind at 1.
    destruct (pushLog_logs sender (fst (fst it)) (snd (fst it)) (snd it) w) as [E T].
    destruct (pushLog host sender _ _ _ w) as [[] w1]. cbn [snd] in *.
    destruct (IH w1) as [H|[-> H]].
    + rewrite H, E, T, slice_last_app, <- app_assoc. reflexivity.
    + cbn [for_each ret snd entries_from] in *. rewrite E. reflexivity.
Qed.

(** C6 (log ring).  After any sequence of log appends, at least one, the
    buffer holds the last [MAX_LOGS = 500] entries of what it held before
    followed by the appended entries, in that order, hence at most 500
    entries; once 500 or more have been appended it holds exactly the last
    500 appended ones; after 600 appends these are the appended entries
    without the first 100. *)
Theorem log_ring_bound (sender : Sender) (it : LogItem) (items : list LogItem) (w : World) :
  let w' := snd (pushLogs host sender (it :: items) w) in
  let appended := entries_from host (ticks w) (it :: items) in
  logs (state w') = slice_last MAX_LOGS (logs (state w) ++ appended)
  /\ List.length (logs (state w')) <= MAX_LOGS
  /\ (MAX_LOGS <= List.length (it :: items) ->
      logs (state w') = slice_last MAX_LOGS appended
      /\ List.length (logs (state w')) = MAX_LOGS)
  /\ (List.length (it :: items) = 600 -> logs (state w') = skipn 100 appended).
Proof.
  intros w' appended.
  assert (E : logs (state w') = slice_last MAX_LOGS (logs (state w) ++ appended)).
  { destruct (pushLogs_logs sender (it :: items) w) as [H|[H _]]; [exact H | discriminate]. }
  assert (L : List.length appended = List.length (it :: items))
    by apply entries_from_length.
  split; [exact E|]. split; [|split].
  - rewrite E, slice_last_length. lia.
  - intros H. rewrite E, slice_last_covered by lia. split; [reflexivity|].
    rewrite slice_last_length. lia.
  - intros H. rewrite E, slice_last_covered by (unfold MAX_LOGS; lia).
    unfold slice_last, MAX_LOGS. rewrite L, H. reflexivity.
Qed.

End Ring.

Lemma log_ring_bound_witness :
  let items := numbered_items 600 in
  let w := mcpEnvInitService posix_host in
  let w' := snd (pushLogs posix_host 7 items w) in
  (MAX_LOGS <= List.length items /\ List.length items = 600)
  /\ List.length (logs (state w')) = MAX_LOGS
  /\ logs (state w') = skipn 100 (entries_from posix_host (ticks w) items).
Proof.
  split; [split; vm_compute; [repeat constructor | reflexivity]|].
  pose proof (log_ring_bound posix_host 7 (info_level, String (ascii_of_nat 0) "", Some system)
                (tl (numbered_items 600)) (mcpEnvInitService posix_host)) as H.
  destruct H as (_ & _ & H500 & H600).
  split.
  - apply H500. vm_compute. repeat constructor.
  - apply H600. vm_compute. reflexivity.
Defined.

(** ** The time stamp *)

Section Stamp.
Variable host : Host.

(** C9, as amended.  A stage transition, a log append, the [fail]
    transition and the reset in [start] each store a reading of the clock
    taken during the call, the last one they take, in [updatedAt]; the
    assignments of [uvInstalled], [bunInstalled] and [installing] read no
    clock and leave [updatedAt] as it was. *)
Theorem updatedAt_bumps (sender : Sender) (w : World) :
  (forall x,
     let w' := snd (setStage host sender x w) in
     updatedAt (state w') = Date_now host (ticks w) /\ ticks w' = S (ticks w))
  /\ (forall lvl msg src,
        let w' := snd (pushLog host sender lvl msg src w) in
        updatedAt (state w') = Date_now host (S (ticks w)) /\ ticks w' = S (S (ticks w)))
  /\ (forall err,
        let w' := snd (fail host sender err w) in
        updatedAt (state w') = Date_now host (pred (ticks w')) /\ ticks w < ticks w')
  /\ (let w' := snd (resetTransient host w) in
      updatedAt (state w') = Date_now host (ticks w) /\ ticks w' = S (ticks w))
  /\ (forall b,
        updatedAt (state (snd (assign (set_uvInstalled b) w))) = updatedAt (state w)
        /\ updatedAt (state (snd (assign (set_bunInstalled b) w))) = updatedAt (state w)
        /\ updatedAt (state (snd (assign (set_installing b) w))) = updatedAt (state w)
        /\ ticks (snd (assign (set_uvInstalled b) w)) = ticks w
        /\ ticks (snd (assign (set_bunInstalled b) w)) = ticks w
        /\ ticks (snd (assign (set_installing b) w)) = ticks w).
Proof.
  destruct w as [[stg uvI bunI ins dn fl er lg upd] r tr n].
  split; [|split; [|split; [|split]]].
  - intros x. sync_cbn. split; reflexivity.
  - intros lvl msg src. sync_cbn. split; reflexivity.
  - intros [m c ec se so [sg|]]; sync_cbn; [destruct (truthy sg); sync_cbn|];
      (split; [reflexivity | lia]).
  - sync_cbn. split; reflexivity.
  - intros b. sync_cbn. repeat split.
Qed.

End Stamp.

(** C9 as stated fails: with a clock that advances at every reading, the
    snapshot emitted right after [uvInstalled] turns true carries the same
    [updatedAt] as the snapshot before it. *)
Lemma probe_result_not_stamped :
  let rt := steps posix_host uvx_found (boot posix_host) in
  stale_stamp (snapshots (sent (world rt))) = true
  /\ forall n m, n < m -> (Date_now posix_host n < Date_now posix_host m)%Z.
Proof.
  split; [vm_compute; reflexivity|].
  intros n m H. cbn. lia.
Qed.

(** ** What the caller gets after an installer failure *)

(** C3 fails on the code.  Whatever detail [fail] stored before the run
    rejected, the reaction chained in [start] calls [fail] again with the
    bare message of the thrown error.  When the uv installer exits with
    code 1, the first failed snapshot carries the exit code, the command
    line and the output tails, but the state [start] resolves with has
    lost them. *)
Theorem exit_detail_overwritten :
  (forall host sender e w,
     error (state (snd (settle host sender (Rejected e) w)))
     = Some (Err.mk (message_of e) None None None None None))
  /\ let rt := steps posix_host uv_install_exits_1 (boot posix_host) in
     settled rt = [(0, Fulfilled (state (world rt)))]
     /\ failed (state (world rt)) = true
     /\ done (state (world rt)) = true
     /\ first_failure (sent (world rt))
        = Some (Err.mk "mcp.envInit.messages.uvInstallFailed"
                       (Some "/usr/bin/node /app/resources/scripts/install-uv.js")
                       (Some (Some 1%Z))
                       (Some "curl: (7) failed")
                       (Some "downloading uv")
                       None)
     /\ error (state (world rt))
        = Some (Err.mk "uv install failed" None None None None None).
Proof.
  split.
  - intros host sender e w.
    destruct w as [[stg uvI bunI ins dn fl er lg upd] r tr n].
    unfold settle, promise_catch, promise_finally, onRunRejected. sync_cbn. reflexivity.
  - vm_compute. repeat split.
Qed.

(** ** Failure to start an installer *)

Ltac drive_cbn :=
  repeat (progress (cbn [drive abind try_catch sync await_spawn answer fst snd negb];
                    sync_cbn)).

Section SpawnFailure.
Variable host : Host.

Lemma deliver_chunks_flags sender src chunks :
  forall w,
  flags_of (state (snd (deliver_chunks
                          (mkSpawnOptions
                             (log_lines (fun msg => info host sender msg src))
                             (log_lines (fun msg => warn host sender msg src)))
                          chunks w)))
  = flags_of (state w).
Proof.
  unfold deliver_chunks.
  induction chunks as [|[stream chunk] rest IH]; intros w; cbn [for_each].
  - reflexivity.
  - unfold bind at 1.
    assert (Q : quiet (on_chunk (mkSpawnOptions
                                   (log_lines (fun msg => info host sender msg src))
                                   (log_lines (fun msg => warn host sender msg src)))
                                stream chunk))
      by (destruct stream; cbn [on_chunk onStdoutChunk onStderrChunk];
          unfold info, warn; apply quiet_log_lines).
    destruct (Q w) as (F & _). cbn [fst snd] in *.
    destruct (on_chunk _ stream chunk w) as [[] w1]. cbn [snd] in F.
    rewrite IH. exact F.
Qed.

(** C8, as amended.  When the spawn of an installer rejects with [e] and
    the state is not yet marked failed, the installer stores a failure
    detail made of the thrown message and the command line and rethrows
    [e].  For uv the suggestion is the PowerShell/firewall text on Windows
    and the network/proxy text elsewhere.  For bun the suggestion is what
    the classifier makes of the thrown message and, when it makes
    nothing of it, the one network/permission/certificate text, whatever
    the platform. *)
Theorem spawn_failure_detail (o : Oracle) (sender : Sender) (e : Thrown) (w : World) :
  (forall n script, snd (spawn_answer o n script) = Rejected e) ->
  failed (state w) = false ->
  (fst (drive o (installUv host sender) w) = Rejected e
   /\ error (state (snd (drive o (installUv host sender) w)))
      = Some (Err.mk (t host "mcp.envInit.messages.uvInstallException" ++ message_of e)
                     (Some (command_of host "install-uv.js")) None None None
                     (Some (if isWin host
                            then t host "mcp.envInit.messages.checkPowerShellFirewall"
                            else t host "mcp.envInit.messages.checkNetworkProxy"))))
  /\ (fst (drive o (installBun host sender) w) = Rejected e
      /\ error (state (snd (drive o (installBun host sender) w)))
         = Some (Err.mk (t host "mcp.envInit.messages.bunInstallException" ++ message_of e)
                        (Some (command_of host "install-bun.js")) None None None
                        (Some (or_string (summarizeFailure host "" (message_of e))
                                 (t host "mcp.envInit.messages.checkNetworkPermissionCert"))))).
Proof.
  intros Ho Hf.
  destruct w as [[stg uvI bunI ins dn fl er lg upd] r tr n]. cbn in Hf. subst fl.
  split.
  - unfold installUv. drive_cbn. rewrite Ho.
    match goal with
    | |- context [deliver_chunks ?opts ?chunks ?w0] =>
        pose proof (deliver_chunks_flags sender (Some uv) chunks w0) as F;
        destruct (deliver_chunks opts chunks w0) as [[] [[? ? ? ? ? ? ? ? ?] ? ? ?]]
    end.
    cbn in F. injection F as ? ? ? ? ? ? ?. subst.
    drive_cbn.
    destruct (isWin host); sync_cbn;
      match goal with
      | |- context [truthy ?s] => destruct (truthy s)
      end; drive_cbn; split; reflexivity.
  - unfold installBun. drive_cbn. rewrite Ho.
    match goal with
    | |- context [deliver_chunks ?opts ?chunks ?w0] =>
        pose proof (deliver_chunks_flags sender (Some bun) chunks w0) as F;
        destruct (deliver_chunks opts chunks w0) as [[] [[? ? ? ? ? ? ? ? ?] ? ? ?]]
    end.
    cbn in F. injection F as ? ? ? ? ? ? ?. subst.
    drive_cbn.
    match goal with
    | |- context [truthy ?s] => destruct (truthy s)
    end; drive_cbn; split; reflexivity.
Qed.

End SpawnFailure.

Lemma spawn_failure_detail_witness :
  let o := spawn_fails false (ErrorObject "spawn ENOENT") in
  let w := mcpEnvInitService posix_host in
  failed (state w) = false
  /\ fst (drive o (installUv posix_host 7) w) = Rejected (ErrorObject "spawn ENOENT")
  /\ option_map Err.suggestion (error (state (snd (drive o (installUv posix_host 7) w))))
     = Some (Some "mcp.envInit.messages.checkNetworkProxy").
Proof.
  split; [reflexivity|].
  destruct (spawn_failure_detail posix_host (spawn_fails false (ErrorObject "spawn ENOENT")) 7
              (ErrorObject "spawn ENOENT") (mcpEnvInitService posix_host)
              (fun _ _ => eq_refl) eq_refl) as [[H1 H2] _].
  split; [exact H1|]. rewrite H2. reflexivity.
Defined.

(** C8 as stated fails for bun: on Windows, when the bun installer cannot
    be spawned, the suggestion stored is the general
    network/permission/certificate text, not the PowerShell/firewall one. *)
Lemma bun_spawn_failure_on_windows :
  let o := spawn_fails false (ErrorObject "spawn ENOENT") in
  let w' := snd (drive o (installBun windows_host 7) (mcpEnvInitService windows_host)) in
  option_map Err.suggestion (error (state w'))
  = Some (Some "mcp.envInit.messages.checkNetworkPermissionCert")
  /\ option_map Err.suggestion (error (state w'))
     <> Some (Some (t windows_host "mcp.envInit.messages.checkPowerShellFirewall")).
Proof.
  split; [vm_compute; reflexivity|].
  vm_compute. discriminate.
Qed.

(** ** The theorems at work on concrete runs *)

Lemma start_single_flight_witness :
  let rt := steps posix_host just_started (boot posix_host) in
  running (world rt) = Some 0
  /\ (exists tk, pending rt = [tk] /\ task_handle tk = 0)
  /\ start posix_host 8 rt
     = (ReturnsRunning 0,
        mkRuntime
          (mkWorld (state (world rt)) (Some 0)
             (sent (world rt) ++ [(8, EvState (state (world rt)))])
             (ticks (world rt)))
          (pending rt) (settled rt) (next_handle rt)).
Proof.
  assert (H : running (world (steps posix_host just_started (boot posix_host))) = Some 0)
    by (vm_compute; reflexivity).
  split; [exact H|].
  exact (proj2 (start_single_flight posix_host just_started) 8 0 H).
Defined.

Lemma start_already_ready_witness :
  let rt := steps posix_host both_present (boot posix_host) in
  (done (state (world rt)) = true /\ failed (state (world rt)) = false
   /\ uvInstalled (state (world rt)) = true /\ bunInstalled (state (world rt)) = true)
  /\ start posix_host 8 rt
     = (ReturnsState (state (world rt)),
        mkRuntime
          (mkWorld (state (world rt)) (running (world rt))
             (sent (world rt) ++ [(8, EvState (state (world rt)))])
             (ticks (world rt)))
          (pending rt) (settled rt) (next_handle rt)).
Proof.
  assert (H : let rt := steps posix_host both_present (boot posix_host) in
              done (state (world rt)) = true /\ failed (state (world rt)) = false
              /\ uvInstalled (state (world rt)) = true
              /\ bunInstalled (state (world rt)) = true)
    by (vm_compute; repeat split).
  split; [exact H|].
  destruct H as (H1 & H2 & H3 & H4).
  exact (start_already_ready posix_host 8 _ H1 H2 H3 H4).
Defined.

Lemma start_never_rejects_witness :
  let rt := steps posix_host uv_install_exits_1 (boot posix_host) in
  (pending rt = [] /\ failed (state (world rt)) = true)
  /\ exists k rt',
       start posix_host 8 rt = (ReturnsRunning (next_handle rt), rt')
       /\ running (world rt') = Some (next_handle rt)
       /\ pending rt' = [mkTask (next_handle rt) 8 (Awaiting (isBinaryExists "uvx") k)].
Proof.
  assert (H : let rt := steps posix_host uv_install_exits_1 (boot posix_host) in
              pending rt = [] /\ failed (state (world rt)) = true)
    by (vm_compute; split; reflexivity).
  split; [exact H|].
  destruct H as (H1 & H2).
  exact (proj2 (proj2 (proj2 (proj2 (start_never_rejects posix_host)) uv_install_exits_1))
           8 H1 H2).
Defined.

(** ** Where the first terminal snapshot stands in a run *)

Lemma underway_app evs more :
  underway evs -> undone more = true -> announced Stage.no_need_install more = false ->
  underway (evs ++ more).
Proof.
  unfold underway, undone, announced. intros [Hu Ha] Hu' Ha'.
  rewrite forallb_app, existsb_app, Hu, Ha. auto.
Qed.

Lemma terminal_shape_app sender evs : forall seen more,
  undone evs = true ->
  terminal_shape sender (seen || announced Stage.no_need_install evs) more ->
  terminal_shape sender seen (evs ++ more).
Proof.
  unfold undone, announced.
  induction evs as [|[sd [s|l|x a]] rest IH]; intros seen more Hu H; cbn in *.
  - rewrite orb_false_r in H. exact H.
  - apply andb_true_iff in Hu as [Hd Hu]. apply negb_true_iff in Hd. rewrite Hd.
    apply IH; auto.
  - apply IH; auto.
  - apply IH; auto. unfold is_stage_event in H. cbn in H.
    rewrite orb_assoc in H. exact H.
Qed.

Lemma terminal_shape_more sender evs : forall seen more,
  seen = false -> announced Stage.no_need_install evs = false ->
  terminal_shape sender seen evs -> terminal_shape sender seen (evs ++ more).
Proof.
  unfold announced.
  induction evs as [|[sd [s|l|x a]] rest IH]; intros seen more Hs Ha H; cbn in *.
  - contradiction.
  - destruct (done s).
    + subst seen. destruct H as [H1 H2]. split; [exact H1|].
      destruct rest as [|[sd1 [?|?|? ?]] [|[sd2 [?|?|? ?]] ?]]; try contradiction.
      exact H2.
    + apply IH; auto.
  - apply IH; auto.
  - unfold is_stage_event in Ha. cbn in Ha. apply orb_false_iff in Ha as [Hx Ha].
    subst seen. cbn [orb] in *. rewrite Hx in *. apply IH; auto.
Qed.

(** The shape, as a decomposition of the events. *)
Lemma terminal_shape_split sender evs : forall seen,
  terminal_shape sender seen evs ->
  exists pre s post,
    evs = pre ++ (sender, EvState s) :: post
    /\ undone pre = true /\ done s = true
    /\ if seen || announced Stage.no_need_install pre
       then post = []
       else exists e s' post', post = (sender, EvLog e) :: (sender, EvState s') :: post'.
Proof.
  unfold undone, announced.
  induction evs as [|[sd [s|l|x a]] rest IH]; intros seen H; cbn in H.
  - contradiction.
  - destruct (done s) eqn:Hd.
    + destruct H as [-> H]. exists [], s, rest. cbn. rewrite orb_false_r.
      split; [reflexivity|]. split; [reflexivity|]. split; [exact Hd|].
      destruct seen; [exact H|].
      destruct rest as [|[sd1 [?|l1|? ?]] [|[sd2 [s2|?|? ?]] post']]; try contradiction.
      destruct H as [-> ->]. eauto.
    + destruct (IH seen H) as (pre & s0 & post & -> & Hu & Hd0 & Hp).
      exists ((sd, EvState s) :: pre), s0, post. cbn. rewrite Hd. cbn.
      repeat split; auto.
  - destruct (IH seen H) as (pre & s0 & post & -> & Hu & Hd0 & Hp).
    exists ((sd, EvLog l) :: pre), s0, post. cbn. repeat split; auto.
  - destruct (IH _ H) as (pre & s0 & post & -> & Hu & Hd0 & Hp).
    exists ((sd, EvStage x a) :: pre), s0, post. cbn. unfold is_stage_event at 1. cbn.
    rewrite orb_assoc. repeat split; auto.
Qed.

#[local] Arguments obs_t : simpl never.
#[local] Arguments rely_t : simpl never.
#[local] Arguments post_t : simpl never.
#[local] Arguments chunk_calm : simpl never.
#[local] Arguments terminal_shape : simpl never.
#[local] Arguments underway : simpl never.

Section TracedRun.
Variable host : Host.
Variable base : list (Sender * McpEnvInitEvent).
Variable sender : Sender.

Lemma calm_pushLog lvl msg src : calm (pushLog host sender lvl msg src).
Proof.
  intros [[stg uvI bunI ins dn fl er lg upd] r tr n] Hd. cbn in Hd. subst dn.
  sync_cbn. split; [reflexivity|]. split; [reflexivity|].
  norm_trace. eexists. split; [reflexivity|]. split; [reflexivity|].
  intros x. reflexivity.
Qed.

Lemma calm_ret : calm (ret tt).
Proof.
  intros w Hd. cbn. split; [reflexivity|]. split; [reflexivity|].
  exists []. rewrite app_nil_r. repeat split.
Qed.

Lemma calm_bind (m k : M unit) : calm m -> calm k -> calm (bind m (fun _ => k)).
Proof.
  intros Hm Hk w Hd. unfold bind. specialize (Hm w Hd).
  destruct (m w) as [[] w1]. cbn [snd] in Hm. destruct Hm as (F1 & R1 & e1 & E1 & U1 & A1).
  assert (Hd1 : done (state w1) = false) by (rewrite (done_flags _ _ F1); exact Hd).
  specialize (Hk w1 Hd1). cbn [snd] in *. destruct Hk as (F2 & R2 & e2 & E2 & U2 & A2).
  split; [congruence|]. split; [congruence|].
  exists (e1 ++ e2). rewrite E2, E1, app_assoc. split; [reflexivity|].
  unfold undone, announced in *. rewrite forallb_app, U1, U2. split; [reflexivity|].
  intros x. rewrite existsb_app, A1, A2. reflexivity.
Qed.

Lemma calm_log_lines lvl src chunk :
  calm (log_lines (fun msg => pushLog host sender lvl msg src) chunk).
Proof.
  unfold log_lines. induction (split_lines chunk) as [|line rest IH]; cbn [for_each].
  - apply calm_ret.
  - apply calm_bind; auto. unfold when.
    destruct (truthy (trim line)); [apply calm_pushLog | apply calm_ret].
Qed.

Lemma obs_t_rely w w' : obs_t base w -> rely_t base w w' -> obs_t base w'.
Proof.
  intros [Hd _] [F H]. split; [|exact H]. rewrite (done_flags _ _ F). exact Hd.
Qed.

Lemma rely_t_trans w1 w2 w3 : rely_t base w1 w2 -> rely_t base w2 w3 -> rely_t base w1 w3.
Proof. intros [F1 _] [F2 H]. split; [congruence | exact H]. Qed.

Lemma or_await_traced {A : Type} (Q : Settled A -> World -> Prop) name1 name2
  (f : bool -> Async A) w :
  obs_t base w ->
  (forall w', rely_t base w w' -> forall b, traced base Q (f b) w') ->
  traced base Q (abind (or_await (await_probe (isBinaryExists name1))
                                 (await_probe (isBinaryExists name2))) f) w.
Proof.
  intros Ho H. apply safe_with_bind. unfold or_await, await_probe. cbn [abind safe_with].
  split; [exact Ho|]. split; [exact I|].
  intros w' Hr [|]; cbn [abind safe_with].
  - apply H; auto.
  - split; [eapply obs_t_rely; eauto|]. split; [exact I|].
    intros w'' Hr' b. apply H. eapply rely_t_trans; eauto.
Qed.

Ltac solve_underway :=
  first [ assumption
        | apply underway_app; [assumption | reflexivity | reflexivity] ].

Ltac solve_obs_t :=
  unfold obs_t; split;
  [ reflexivity
  | cbn [sent]; norm_trace; eexists; split; [reflexivity | solve_underway] ].

Ltac solve_shape :=
  match goal with
  | H : underway ?evs |- terminal_shape _ false (?evs ++ _) =>
      apply terminal_shape_app;
      [ exact (proj1 H)
      | rewrite (proj2 H);
        cbn [orb terminal_shape Stage.eqb done snd];
        repeat split; reflexivity ]
  end.

Ltac solve_post_t :=
  unfold post_t; cbn [sent]; norm_trace; eexists; split; [reflexivity|];
  split;
  [ solve_shape
  | cbn [fulfilled]; intros Hful;
    first [ discriminate Hful
          | match goal with
            | H : underway ?evs |- announced _ (?evs ++ _) = false =>
                unfold announced; rewrite existsb_app;
                fold (announced Stage.no_need_install evs); rewrite (proj2 H); reflexivity
            end ] ].

Ltac solve_chunk_t :=
  match goal with
  | |- chunk_calm (isBinaryExists _) => exact I
  | |- chunk_calm _ => intro; split; apply calm_log_lines
  end.

Ltac open_world_t w' Hr :=
  let Hf := fresh "Hf" in
  let evs := fresh "evs" in
  let Es := fresh "Es" in
  let Hu := fresh "Hu" in
  destruct Hr as (Hf & evs & Es & Hu);
  destruct w' as [[? ? ? ? ? ? ? ? ?] ? ? ?];
  cbn in Hf, Es; injection Hf as ? ? ? ? ? ? ?; subst.

Ltac enter_rely_t :=
  let w' := fresh "w" in
  let Hr := fresh "Hrely" in
  intros w' Hr; open_world_t w' Hr.

Ltac go_t leaf :=
  cbn; go_on_t leaf
with go_on_t leaf :=
  lazymatch goal with
  | |- ?a = ?a /\ _ => split; [reflexivity | go_on_t leaf]
  | |- obs_t _ _ /\ _ => split; [solve_obs_t | go_on_t leaf]
  | |- chunk_calm _ /\ _ => split; [solve_chunk_t | go_on_t leaf]
  | |- post_t _ _ _ _ => solve_post_t
  | |- forall w', rely_t _ _ w' -> _ =>
      enter_rely_t; let x := fresh "x" in intros x;
      lazymatch type of x with
      | bool => destruct x; go_t leaf
      | Settled _ => destruct x as [[? ? ?]|?]; go_t leaf
      end
  | |- safe_with _ _ _ _ (abind (or_await _ _) _) _ =>
      apply or_await_traced; [solve_obs_t | go_on_t leaf]
  | |- _ => first [case_stuck; go_t leaf | leaf]
  end.

Ltac install_leaf_t HQ :=
  idtac;
  lazymatch goal with
  | |- _ (Fulfilled tt) _ =>
      apply (proj1 HQ);
      [ reflexivity
      | cbn [sent]; norm_trace; eexists; split; [reflexivity | solve_underway] ]
  | |- _ (Rejected _) _ => apply (proj2 HQ); solve_post_t
  end.

Lemma installUv_traced (Q : Settled unit -> World -> Prop) stg bunI lg upd r evs n :
  underway evs ->
  installed_t base sender Stage.installing_uv false bunI Q ->
  traced base Q (installUv host sender)
    (mkWorld (mkState stg false bunI true false false None lg upd) r (base ++ evs) n).
Proof.
  intros Hu HQ. unfold installUv.
  go_t ltac:(install_leaf_t HQ).
Qed.

Lemma installBun_traced (Q : Settled unit -> World -> Prop) stg uvI lg upd r evs n :
  underway evs ->
  installed_t base sender Stage.installing_bun uvI false Q ->
  traced base Q (installBun host sender)
    (mkWorld (mkState stg uvI false true false false None lg upd) r (base ++ evs) n).
Proof.
  intros Hu HQ. unfold installBun.
  go_t ltac:(install_leaf_t HQ).
Qed.

Ltac after_install_t go_leaf :=
  split;
  [ let w' := fresh "w" in
    let Hf := fresh "Hf" in
    let Hs := fresh "Hs" in
    intros w' Hf Hs; open_world_t w' (conj Hf Hs); go_t go_leaf
  | let HP := fresh "HP" in intros ? ? HP; exact HP ].

Ltac run_leaf_t :=
  idtac;
  lazymatch goal with
  | |- safe_with _ _ _ _ (abind (installUv _ _) _) _ =>
      cbn [sent]; norm_trace;
      apply safe_with_bind; apply installUv_traced; [solve_underway | after_install_t run_leaf_t]
  | |- safe_with _ _ _ _ (abind (installBun _ _) _) _ =>
      cbn [sent]; norm_trace;
      apply safe_with_bind; apply installBun_traced; [solve_underway | after_install_t run_leaf_t]
  end.

(** From any world whose transient flags are cleared, the events of the
    run have the terminal shape. *)
Lemma run_traced stg uv0 bun0 lg upd r evs n :
  underway evs ->
  traced base (post_t base sender) (run host sender)
    (mkWorld (mkState stg uv0 bun0 false false false None lg upd) r (base ++ evs) n).
Proof.
  intros Hu. unfold run.
  go_t run_leaf_t.
Qed.

End TracedRun.

Section Driven.
Variable host : Host.
Variable o : Oracle.
Variable base : list (Sender * McpEnvInitEvent).
Variable sender : Sender.

Lemma deliver_chunks_calm options chunks :
  (forall chunk, calm (onStdoutChunk options chunk) /\ calm (onStderrChunk options chunk)) ->
  calm (deliver_chunks options chunks).
Proof.
  intros Hc. unfold deliver_chunks.
  induction chunks as [|[stream chunk] rest IH]; cbn [for_each].
  - apply calm_ret.
  - apply calm_bind; [|exact IH].
    destruct stream; cbn [on_chunk fst snd]; apply Hc.
Qed.

(** What an answered [await] leaves behind, seen from the world [w] in
    which the run was suspended; [running] may have been assigned since. *)
Lemma answer_traced {X : Type} (c : Call X) w r :
  obs_t base w -> chunk_calm c ->
  rely_t base w (snd (answer o c (mkWorld (state w) r (sent w) (ticks w)))).
Proof.
  intros [Hd (evs & Es & Hu)] Hc. destruct c as [name|script options]; cbn [answer snd].
  - split; [reflexivity|]. exists evs. split; assumption.
  - destruct (deliver_chunks_calm options (fst (spawn_answer o (ticks w) script)) Hc
                (mkWorld (state w) r (sent w) (ticks w)) Hd)
      as (F & _ & more & Em & Um & Am).
    cbn [ticks] in *. split; [exact F|].
    exists (evs ++ more). cbn [sent] in Em. rewrite Em, Es, app_assoc.
    split; [reflexivity|]. apply underway_app; auto.
Qed.

Lemma drive_traced {A : Type} (Q : Settled A -> World -> Prop) (p : Async A) :
  forall w, traced base Q p w -> Q (fst (drive o p w)) (snd (drive o p w)).
Proof.
  induction p as [a|e|X m k IH|X c k IH]; cbn [drive safe_with]; intros w H.
  - exact H.
  - exact H.
  - destruct H as [_ H]. destruct (m w) as [x w1]. cbn [fst snd] in H. apply IH. exact H.
  - destruct H as (Ho & Hc & H).
    pose proof (answer_traced c w (running w) Ho Hc) as Hr.
    destruct w as [s r tr n]. cbn [state running sent ticks] in Hr.
    destruct (answer o c (mkWorld s r tr n)) as [x w1]. cbn [snd] in Hr.
    apply IH. apply H. exact Hr.
Qed.

Lemma launched_traced h (p : Async McpEnvInitState) w :
  traced base (post_t base sender) p w ->
  post_t base sender
    (fst (let (p', w2) := exec p w in
          let (_, w3) := set_running (Some h) w2 in
          drive_paused o p' w3))
    (snd (let (p', w2) := exec p w in
          let (_, w3) := set_running (Some h) w2 in
          drive_paused o p' w3)).
Proof.
  revert w. induction p as [a|e|X m k IH|X c k IH]; cbn [exec safe_with]; intros w H.
  - exact H.
  - exact H.
  - destruct H as [_ H]. destruct (m w) as [x w1]. cbn [fst snd] in H. apply IH. exact H.
  - destruct H as (Ho & Hc & H). cbn [set_running drive_paused].
    pose proof (answer_traced c w (Some h) Ho Hc) as Hr.
    destruct (answer o c _) as [x w1]. cbn [snd] in Hr.
    apply drive_traced. apply H. exact Hr.
Qed.

Lemma settle_events r w :
  exists more,
    sent (snd (settle host sender r w)) = sent w ++ more
    /\ (fulfilled r = true -> more = []).
Proof.
  destruct w as [[stg uvI bunI ins dn fl er lg upd] rn tr n].
  destruct r as [st|e];
    unfold settle, promise_catch, promise_finally, onRunRejected; sync_cbn.
  - exists []. rewrite app_nil_r. split; reflexivity.
  - norm_trace. eexists. split; [reflexivity|]. intros H. discriminate H.
Qed.

Lemma settled_traced r w :
  post_t base sender r w ->
  exists evs,
    sent (snd (settle host sender r w)) = base ++ evs /\ terminal_shape sender false evs.
Proof.
  intros (evs & Es & Hs & Ha).
  destruct (settle_events r w) as (more & Em & Hm).
  destruct (fulfilled r) eqn:F.
  - rewrite (Hm eq_refl), app_nil_r in Em. exists evs. split; [congruence | exact Hs].
  - exists (evs ++ more). rewrite Em, Es, app_assoc. split; [reflexivity|].
    apply terminal_shape_more; auto.
Qed.

End Driven.

Section Terminal.
Variable host : Host.

Lemma prologue_traced sender w :
  exists lg upd evs n,
    snd ((bind (resetTransient host)
            (fun _ => bind (setStage host sender Stage.start_check)
               (fun _ => info host sender (t host "mcp.envInit.messages.startCheck")
                           (Some system)))) w)
    = mkWorld (mkState Stage.start_check (uvInstalled (state w)) (bunInstalled (state w))
                       false false false None lg upd) (running w) (sent w ++ evs) n
    /\ underway evs.
Proof.
  destruct w as [[stg uvI bunI ins dn fl err lg upd] rn tr n]. sync_cbn. norm_trace.
  do 4 eexists. split; [reflexivity|]. split; reflexivity.
Qed.

(** C10, as amended.  Launched from any world and driven to its end by any
    oracle, a run emits a first snapshot showing [done], for the caller.
    When the run went through [no-need-install] (both tools were found)
    that snapshot is the last event of the run; on every other path (the
    [fail] transition, success after installing) a log and then a snapshot
    for the caller follow it directly. *)
Theorem terminal_snapshot_position (o : Oracle) (h : Handle) (sender : Sender) (w : World) :
  exists pre s post,
    sent (snd (launch host o h sender w)) = sent w ++ pre ++ (sender, EvState s) :: post
    /\ undone pre = true /\ done s = true
    /\ if announced Stage.no_need_install pre
       then post = []
       else exists e s' post', post = (sender, EvLog e) :: (sender, EvState s') :: post'.
Proof.
  unfold launch.
  destruct (prologue_traced sender w) as (lg & upd & evs0 & n & Ew & Hu).
  match goal with
  | |- context [let (_, w1) := ?m w in _] => destruct (m w) as [[] w1]
  end.
  cbn [snd] in Ew. subst w1.
  pose proof (launched_traced o (sent w) sender h _ _
                (run_traced host (sent w) sender Stage.start_check
                   (uvInstalled (state w)) (bunInstalled (state w)) lg upd
                   (running w) evs0 n Hu)) as Hp.
  match goal with
  | |- context [let (p, w2) := exec ?q ?w1 in _] =>
      destruct (exec q w1) as [p w2]
  end.
  cbn [set_running] in *.
  destruct (drive_paused o p _) as [r w4]. cbn [fst snd] in Hp.
  destruct (settled_traced host (sent w) sender r w4 Hp) as (evs & Es & Hs).
  destruct (terminal_shape_split sender evs false Hs) as (pre & s & post & -> & Hpre & Hd & H).
  exists pre, s, post. cbn [orb] in H. auto.
Qed.

End Terminal.

(** C10 as stated fails: when both tools are found, the first snapshot
    showing [done] is the last event of the run. *)
Lemma terminal_snapshot_is_last :
  let tr := sent (world (steps posix_host both_present (boot posix_host))) in
  exists s,
    tr = removelast tr ++ [(7, EvState s)]
    /\ undone (removelast tr) = true /\ done s = true.
Proof.
  exists (state (world (steps posix_host both_present (boot posix_host)))).
  vm_compute. repeat split.
Qed.

(** * Further properties of the service *)

(** ** Strings *)

Lemma string_append_cons (c : ascii) (a b : string) :
  (String c a ++ b = String c (a ++ b))%string.
Proof. reflexivity. Qed.

Lemma string_append_nil_l (b : string) : ("" ++ b = b)%string.
Proof. reflexivity. Qed.

Lemma string_length_append (a b : string) :
  String.length (a ++ b) = String.length a + String.length b.
Proof.
  induction a as [|c a IH]; [reflexivity|].
  rewrite string_append_cons. cbn [String.length]. now rewrite IH.
Qed.

Lemma string_append_assoc (a b c : string) : ((a ++ b) ++ c = a ++ (b ++ c))%string.
Proof.
  induction a as [|x a IH]; [reflexivity|].
  rewrite !string_append_cons. now rewrite IH.
Qed.

Lemma string_append_nil_r (a : string) : (a ++ "" = a)%string.
Proof.
  induction a as [|x a IH]; [reflexivity|].
  rewrite string_append_cons. now rewrite IH.
Qed.

Lemma list_ascii_append (a b : string) :
  list_ascii_of_string (a ++ b) = list_ascii_of_string a ++ list_ascii_of_string b.
Proof.
  induction a as [|c a IH]; [reflexivity|].
  rewrite string_append_cons. cbn [list_ascii_of_string]. rewrite IH. reflexivity.
Qed.

Lemma slice_from_spec (n : nat) : forall s : string,
  exists pre : string,
    s = (pre ++ slice_from n s)%string /\ String.length pre = Nat.min n (String.length s).
Proof.
  induction n as [|n IH]; intros s.
  - exists "". split; [reflexivity|]. destruct s; reflexivity.
  - destruct s as [|c s].
    + exists "". split; reflexivity.
    + destruct (IH s) as (pre & E & L). exists (String c pre).
      rewrite string_append_cons. cbn [slice_from String.length].
      split; [congruence | lia].
Qed.

(** [tailText] keeps the end of the text: the result is a suffix of the
    text, it has [min max (length text)] code units, a text that is short
    enough is returned whole, and cutting twice cuts no more. *)
Theorem tailText_is_tail (text : string) (max : nat) :
  (exists dropped : string,
     text = (dropped ++ tailText text max)%string
     /\ String.length dropped = String.length text - max)
  /\ String.length (tailText text max) = Nat.min max (String.length text)
  /\ (String.length text <= max -> tailText text max = text)
  /\ tailText (tailText text max) max = tailText text max.
Proof.
  assert (Short : forall u : string, String.length u <= max -> tailText u max = u).
  { intros u H. unfold tailText. destruct u as [|c u]; [reflexivity|]. cbn [truthy negb].
    destruct (max <? String.length (String c u)) eqn:E; [|reflexivity].
    apply Nat.ltb_lt in E. lia. }
  assert (Len : String.length (tailText text max) = Nat.min max (String.length text)).
  { unfold tailText. destruct text as [|c text]; [cbn; lia|]. cbn [truthy negb].
    destruct (max <? String.length (String c text)) eqn:E.
    - apply Nat.ltb_lt in E.
      destruct (slice_from_spec (String.length (String c text) - max) (String c text))
        as (pre & Ep & Lp).
      apply (f_equal String.length) in Ep. rewrite string_length_append in Ep. lia.
    - apply Nat.ltb_ge in E. lia. }
  split; [|split; [exact Len|split; [exact (Short text)|]]].
  - unfold tailText. destruct text as [|c text]; [exists ""; auto|]. cbn [truthy negb].
    destruct (max <? String.length (String c text)) eqn:E.
    + apply Nat.ltb_lt in E.
      destruct (slice_from_spec (String.length (String c text) - max) (String c text))
        as (pre & Ep & Lp).
      exists pre. split; [exact Ep | lia].
    + apply Nat.ltb_ge in E. exists "". split; [reflexivity | cbn [String.length] in *; lia].
  - apply Short. rewrite Len. lia.
Qed.

Lemma tailText_is_tail_witness :
  String.length "abc" <= 4000 /\ tailText "abc" 4000 = "abc".
Proof.
  split; [cbn; lia|].
  apply (proj1 (proj2 (proj2 (tailText_is_tail "abc" 4000)))). cbn. lia.
Defined.

(** ** Classifying a failed installer run *)

Lemma toLowerCase_append (a b : string) :
  toLowerCase (a ++ b) = (toLowerCase a ++ toLowerCase b)%string.
Proof.
  induction a as [|c a IH]; [reflexivity|].
  rewrite string_append_cons. cbn [toLowerCase]. rewrite string_append_cons.
  now rewrite IH.
Qed.

Lemma prefix_before_break (p : string) : forall a b : string,
  forallb (fun c => negb (Ascii.eqb c LF)) (list_ascii_of_string p) = true ->
  String.prefix p (a ++ String LF b) = String.prefix p a.
Proof.
  induction p as [|c p IH]; intros a b H.
  - destruct a; reflexivity.
  - cbn [list_ascii_of_string forallb] in H. apply andb_true_iff in H.
    destruct H as [Hc Hp]. destruct a as [|x a].
    + rewrite string_append_nil_l. cbn [String.prefix].
      destruct (ascii_dec c LF) as [->|]; [|reflexivity].
      rewrite Ascii.eqb_refl in Hc. discriminate.
    + rewrite string_append_cons. cbn [String.prefix].
      destruct (ascii_dec c x); [apply IH; exact Hp | reflexivity].
Qed.

Lemma includes_empty (p : string) : truthy p = true -> includes p "" = false.
Proof. destruct p; [discriminate | reflexivity]. Qed.

(** A marker is found in two texts joined by a line feed exactly when it is
    found in one of them. *)
Lemma includes_across_break (p a b : string) :
  marker_ok p = true ->
  includes p (a ++ String LF b) = includes p a || includes p b.
Proof.
  unfold marker_ok. intros H. apply andb_true_iff in H. destruct H as [Hne Hlf].
  induction a as [|x a IH].
  - rewrite string_append_nil_l. rewrite (includes_empty p Hne). cbn [includes orb].
    replace (String LF b) with ("" ++ String LF b)%string at 1 by reflexivity.
    rewrite prefix_before_break by exact Hlf.
    destruct p; [discriminate | reflexivity].
  - rewrite string_append_cons. cbn [includes].
    replace (String x (a ++ String LF b)) with (String x a ++ String LF b)%string
      by reflexivity.
    rewrite prefix_before_break by exact Hlf. rewrite IH.
    now rewrite orb_assoc.
Qed.

Lemma mentions_across_break (markers : list string) (a b : string) :
  forallb marker_ok markers = true ->
  mentions markers (a ++ String LF b) = mentions markers a || mentions markers b.
Proof.
  unfold mentions. induction markers as [|p markers IH]; intros H; [reflexivity|].
  cbn [forallb] in H. apply andb_true_iff in H. destruct H as [Hp Hrest].
  cbn [existsb]. rewrite (includes_across_break p a b Hp), (IH Hrest).
  destruct (includes p a), (includes p b), (existsb (fun m => includes m a) markers),
    (existsb (fun m => includes m b) markers); reflexivity.
Qed.

Lemma summarizeFailure_mentions (host : Host) (a b : string) :
  summarizeFailure host a b
  = suggestion_for host (fun markers =>
      mentions markers (toLowerCase (a ++ String LF "" ++ b))).
Proof.
  unfold summarizeFailure, suggestion_for, mentions, network_markers,
    certificate_markers, permission_markers.
  cbn [existsb]. rewrite !orb_false_r, !orb_assoc. reflexivity.
Qed.

Lemma summarizeFailure_streams (host : Host) (a b : string) :
  summarizeFailure host a b
  = suggestion_for host (fun markers =>
      mentions markers (toLowerCase a) || mentions markers (toLowerCase b)).
Proof.
  rewrite summarizeFailure_mentions.
  replace (a ++ String LF "" ++ b)%string with (a ++ String LF b)%string by reflexivity.
  rewrite toLowerCase_append. cbn [toLowerCase].
  replace (lower_unit LF) with LF by reflexivity.
  unfold suggestion_for.
  rewrite !mentions_across_break by reflexivity. reflexivity.
Qed.

(** [summarizeFailure] judges each stream on its own: a marker counts when
    it occurs in the lower-cased standard error or in the lower-cased
    standard output, never when it only arises across the line break that
    joins them; so the two streams can be swapped, and no suggestion is
    given exactly when neither stream holds a marker of any class. *)
Theorem summarizeFailure_per_stream (host : Host) (stderr_text stdout_text : string) :
  let hit markers :=
    mentions markers (toLowerCase stderr_text)
    || mentions markers (toLowerCase stdout_text) in
  summarizeFailure host stderr_text stdout_text = suggestion_for host hit
  /\ summarizeFailure host stderr_text stdout_text
     = summarizeFailure host stdout_text stderr_text
  /\ (summarizeFailure host stderr_text stdout_text = None
      <-> hit network_markers = false /\ hit certificate_markers = false
          /\ hit permission_markers = false).
Proof.
  intros hit. split; [apply summarizeFailure_streams|]. split.
  - rewrite !summarizeFailure_streams. unfold suggestion_for.
    rewrite (orb_comm (mentions network_markers (toLowerCase stdout_text))),
      (orb_comm (mentions certificate_markers (toLowerCase stdout_text))),
      (orb_comm (mentions permission_markers (toLowerCase stdout_text))).
    reflexivity.
  - rewrite summarizeFailure_streams. fold hit. unfold suggestion_for.
    destruct (hit network_markers), (hit certificate_markers), (hit permission_markers);
      split; intros H; try discriminate; try reflexivity; auto;
      destruct H as (? & ? & ?); discriminate.
Qed.

(** The case of the letters in the installer's output does not matter to
    [summarizeFailure]: outputs that agree once lower-cased get the same
    suggestion. *)
Theorem summarizeFailure_ignores_case (host : Host) (a a' b b' : string) :
  toLowerCase a = toLowerCase a' ->
  toLowerCase b = toLowerCase b' ->
  summarizeFailure host a b = summarizeFailure host a' b'.
Proof.
  intros Ha Hb. rewrite !summarizeFailure_streams, Ha, Hb. reflexivity.
Qed.

Lemma summarizeFailure_ignores_case_witness :
  summarizeFailure posix_host "connect ETIMEDOUT" "Done"
  = summarizeFailure posix_host "Connect etimedout" "DONE".
Proof.
  apply summarizeFailure_ignores_case; reflexivity.
Defined.

(** ** The chunk callbacks *)

Lemma trimStart_units (s : string) :
  list_ascii_of_string (trimStart s) = drop_spaces (list_ascii_of_string s).
Proof.
  induction s as [|c s IH]; [reflexivity|].
  cbn [trimStart list_ascii_of_string drop_spaces]. destruct (is_space c); auto.
Qed.

Lemma reverse_units (s : string) :
  list_ascii_of_string (reverse s) = rev (list_ascii_of_string s).
Proof. unfold reverse. apply list_ascii_of_string_of_list_ascii. Qed.

Lemma trim_units (s : string) :
  list_ascii_of_string (trim s)
  = rev (drop_spaces (rev (drop_spaces (list_ascii_of_string s)))).
Proof.
  unfold trim. now rewrite reverse_units, trimStart_units, reverse_units, trimStart_units.
Qed.

Lemma drop_spaces_head (l : list ascii) :
  drop_spaces l = [] \/ exists c rest, drop_spaces l = c :: rest /\ is_space c = false.
Proof.
  induction l as [|c l IH]; [now left|].
  cbn [drop_spaces]. destruct (is_space c) eqn:E; [exact IH|].
  right. now exists c, l.
Qed.

Lemma drop_spaces_all (l : list ascii) :
  forallb is_space l = true -> drop_spaces l = [].
Proof.
  induction l as [|c l IH]; [reflexivity|].
  cbn [forallb drop_spaces]. intros H. apply andb_true_iff in H. destruct H as [-> H].
  auto.
Qed.

Lemma drop_spaces_snoc (l : list ascii) (c : ascii) :
  is_space c = false -> drop_spaces (l ++ [c]) = drop_spaces l ++ [c].
Proof.
  intros H. induction l as [|x l IH].
  - cbn [app drop_spaces]. now rewrite H.
  - cbn [app drop_spaces]. destruct (is_space x); [exact IH | reflexivity].
Qed.

Lemma drop_spaces_incl (l : list ascii) (x : ascii) :
  In x (drop_spaces l) -> In x l.
Proof.
  induction l as [|c l IH]; [auto|].
  cbn [drop_spaces]. destruct (is_space c); [|auto]. intros H. right. auto.
Qed.

Lemma string_of_units_nil (s : string) : list_ascii_of_string s = [] -> s = "".
Proof. destruct s; [reflexivity | discriminate]. Qed.

Lemma trim_blank (s : string) : all_space s = true -> trim s = "".
Proof.
  unfold all_space. intros H. apply string_of_units_nil.
  rewrite trim_units, (drop_spaces_all _ H). reflexivity.
Qed.

Lemma trim_trimmed (s : string) : truthy (trim s) = true -> trimmed (trim s) = true.
Proof.
  unfold trimmed. rewrite trim_units.
  destruct (drop_spaces_head (list_ascii_of_string s)) as [E|(c & u & E & Hc)].
  - intros H.
    assert (T : trim s = "").
    { apply string_of_units_nil. rewrite trim_units, E. reflexivity. }
    rewrite T in H. discriminate.
  - intros _. rewrite E. cbn [rev]. rewrite (drop_spaces_snoc _ _ Hc), rev_app_distr.
    cbn [rev app]. rewrite Hc. cbn [negb andb].
    destruct (drop_spaces_head (rev u)) as [F|(d & v & F & Hd)]; rewrite F.
    + cbn [rev last]. now rewrite Hc.
    + cbn [rev]. rewrite last_last. now rewrite Hd.
Qed.

Lemma all_space_snoc (cur : string) (c : ascii) :
  all_space cur = true -> is_space c = true -> all_space (cur ++ String c "") = true.
Proof.
  intros Hcur Hc. unfold all_space in *. rewrite list_ascii_append, forallb_app, Hcur.
  cbn [list_ascii_of_string forallb]. now rewrite Hc.
Qed.

Lemma split_lines_from_blank (n : nat) : forall (s cur : string),
  String.length s <= n ->
  all_space cur = true -> all_space s = true ->
  Forall (fun line => all_space line = true) (split_lines_from cur s).
Proof.
  induction n as [|n IH]; intros s cur Hn Hcur Hs.
  - destruct s; [|cbn [String.length] in Hn; lia]. constructor; auto.
  - destruct s as [|c s]; [constructor; auto|].
    cbn [String.length] in Hn.
    unfold all_space in Hs. cbn [list_ascii_of_string forallb] in Hs.
    apply andb_true_iff in Hs. destruct Hs as [Hc Hs].
    cbn [split_lines_from]. destruct (Ascii.eqb c LF).
    + constructor; [exact Hcur | apply IH; auto; lia].
    + assert (Keep : Forall (fun line => all_space line = true)
                       (split_lines_from (cur ++ String c "") s)).
      { apply IH; [lia | apply all_space_snoc; auto | exact Hs]. }
      destruct (Ascii.eqb c CR); [|exact Keep].
      destruct s as [|c' s']; [exact Keep|].
      destruct (Ascii.eqb c' LF); [|exact Keep].
      cbn [list_ascii_of_string forallb] in Hs. apply andb_true_iff in Hs.
      destruct Hs as [_ Hs]. cbn [String.length] in Hn.
      constructor; [exact Hcur | apply IH; auto; lia].
Qed.

Lemma for_each_blank (log : string -> M unit) (lines : list string) (w : World) :
  Forall (fun line => all_space line = true) lines ->
  for_each lines (fun line => let msg := trim line in when (truthy msg) (log msg)) w
  = (tt, w).
Proof.
  induction 1 as [|line lines Hl _ IH]; [reflexivity|].
  cbn [for_each]. unfold bind at 1. cbv zeta. rewrite (trim_blank line Hl).
  cbn [truthy when ret]. exact IH.
Qed.

(** A chunk of nothing but white space and line breaks (the empty chunk
    among them) is dropped by the chunk callbacks: nothing is logged, no
    event is sent and the clock is not read. *)
Theorem blank_chunk_is_dropped (log : string -> M unit) (chunk : string) (w : World) :
  all_space chunk = true -> log_lines log chunk w = (tt, w).
Proof.
  intros H. unfold log_lines, split_lines. apply for_each_blank.
  apply (split_lines_from_blank (String.length chunk)); auto.
Qed.

Lemma blank_chunk_is_dropped_witness :
  log_lines (fun msg => info posix_host 7 msg (Some uv)) (String " " (String CR (String LF (String LF " "))))
    (mcpEnvInitService posix_host)
  = (tt, mcpEnvInitService posix_host).
Proof.
  apply blank_chunk_is_dropped. reflexivity.
Defined.

Lemma no_break_snoc (cur : string) (c : ascii) :
  ~ In LF (list_ascii_of_string cur) -> Ascii.eqb c LF = false ->
  ~ In LF (list_ascii_of_string (cur ++ String c "")).
Proof.
  intros Hcur Hc. rewrite list_ascii_append. cbn [list_ascii_of_string].
  intros H. apply in_app_or in H. destruct H as [H|[H|[]]]; [auto|].
  subst c. rewrite Ascii.eqb_refl in Hc. discriminate.
Qed.

Lemma split_lines_from_no_break (n : nat) : forall (s cur : string),
  String.length s <= n ->
  ~ In LF (list_ascii_of_string cur) ->
  Forall (fun line => ~ In LF (list_ascii_of_string line)) (split_lines_from cur s).
Proof.
  induction n as [|n IH]; intros s cur Hn Hcur.
  - destruct s; [|cbn [String.length] in Hn; lia]. constructor; auto.
  - destruct s as [|c s]; [constructor; auto|].
    cbn [String.length] in Hn.
    cbn [split_lines_from]. destruct (Ascii.eqb c LF) eqn:Ec.
    + constructor; [exact Hcur | apply IH; [lia | intros []]].
    + assert (Keep : Forall (fun line => ~ In LF (list_ascii_of_string line))
                       (split_lines_from (cur ++ String c "") s)).
      { apply IH; [lia | apply no_break_snoc; auto]. }
      destruct (Ascii.eqb c CR); [|exact Keep].
      destruct s as [|c' s']; [exact Keep|].
      destruct (Ascii.eqb c' LF); [|exact Keep].
      cbn [String.length] in Hn.
      constructor; [exact Hcur | apply IH; [lia | intros []]].
Qed.

Lemma log_lines_for_each (log : string -> M unit) (lines : list string) (w : World) :
  for_each lines (fun line => let msg := trim line in when (truthy msg) (log msg)) w
  = for_each (filter truthy (map trim lines)) log w.
Proof.
  revert w. induction lines as [|line lines IH]; intros w; [reflexivity|].
  cbn [for_each map filter]. cbv zeta. destruct (truthy (trim line)).
  - cbn [when for_each]. unfold bind. destruct (log (trim line) w). apply IH.
  - cbn [when]. unfold bind at 1. cbn [ret]. apply IH.
Qed.

(** What the chunk callbacks log: one call of the logger per line of the
    chunk that is not blank, in order; every message logged is not empty,
    starts and ends with a code unit that is not white space, and holds no
    line feed. *)
Theorem logged_lines_are_trimmed (log : string -> M unit) (chunk : string) (w : World) :
  log_lines log chunk w = for_each (lines_logged chunk) log w
  /\ Forall (fun msg => trimmed msg = true /\ ~ In LF (list_ascii_of_string msg))
       (lines_logged chunk).
Proof.
  split; [apply log_lines_for_each|].
  unfold lines_logged, split_lines.
  pose proof (split_lines_from_no_break (String.length chunk) chunk "" (le_n _)
                (fun H => H)) as Hb.
  induction Hb as [|line lines Hl _ IH]; [constructor|].
  cbn [map filter]. destruct (truthy (trim line)) eqn:T; [|exact IH].
  constructor; [|exact IH]. split; [apply trim_trimmed; exact T|].
  intros H. apply Hl. rewrite trim_units in H.
  apply in_rev in H. apply drop_spaces_incl in H. apply in_rev in H.
  apply drop_spaces_incl in H. exact H.
Qed.

(** ** The protocol of the event stream *)

Lemma track_app evs : forall cur more,
  track cur (evs ++ more)
  = match track cur evs with
    | Some c => track c more
    | None => None
    end.
Proof.
  induction evs as [|[sd [s|l|x a]] rest IH]; intros cur more; cbn [app track].
  - reflexivity.
  - destruct (snapshot_ok s && _); [apply IH | reflexivity].
  - apply IH.
  - destruct (allowed cur x); [apply IH | reflexivity].
Qed.

Lemma track_latest evs : forall cur c, track cur evs = Some c -> c = latest cur evs.
Proof.
  unfold latest.
  induction evs as [|[sd [s|l|x a]] rest IH]; intros cur c; cbn [track fold_left snd].
  - congruence.
  - destruct (snapshot_ok s && _); [apply IH | discriminate].
  - apply IH.
  - destruct (allowed cur x); [apply IH | discriminate].
Qed.

Lemma newest_snoc {A : Type} (l : list A) (x : A) : newest (l ++ [x]) = Some x.
Proof. unfold newest. rewrite rev_app_distr. reflexivity. Qed.

Lemma newest_ring {A : Type} (n : nat) (l : list A) (x : A) :
  newest (slice_last (S n) (l ++ [x])) = Some x.
Proof.
  unfold slice_last. rewrite length_app, skipn_app. cbn [List.length].
  replace (List.length l + 1 - S n - List.length l) with 0 by lia.
  cbn [skipn]. apply newest_snoc.
Qed.

Lemma logs_paired_app tr more :
  logs_paired tr -> rests tr -> logs_paired more -> logs_paired (tr ++ more).
Proof.
  intros Hp Hr Hm. destruct Hr as [->|(pre & sd & s & ->)]; [exact Hm|].
  rewrite <- app_assoc. cbn [app].
  induction pre as [|[sd' [s'|l|x a]] rest IH]; cbn [app logs_paired] in *.
  - exact Hm.
  - auto.
  - destruct Hp as [Hnext Hp]. split; [|auto].
    destruct rest as [|[sd2 [s2|l2|x2 a2]] rest2]; cbn [app] in *; auto.
  - auto.
Qed.

Lemma synced_rests w : synced w -> rests (sent w).
Proof. intros (pre & sd & E). right. eauto. Qed.

#[local] Arguments obs_p : simpl never.
#[local] Arguments rely_p : simpl never.
#[local] Arguments post_p : simpl never.
#[local] Arguments chunk_steady : simpl never.
#[local] Arguments protocol : simpl never.
#[local] Arguments synced : simpl never.

Lemma stage_flags_flags s s' :
  flags_of s' = flags_of s -> stage_flags s' = stage_flags s.
Proof.
  destruct s, s'. unfold flags_of, stage_flags. cbn.
  intros H. injection H as ? ? ? ? ? ? ?. subst. reflexivity.
Qed.

Lemma track_snapshot cur pre sd s c :
  track cur (pre ++ [(sd, EvState s)]) = Some c -> snapshot_ok s = true /\ c = stage s.
Proof.
  rewrite track_app. destruct (track cur pre) as [c0|]; [|discriminate].
  cbn [track]. destruct (snapshot_ok s); [|discriminate].
  destruct (_ || _); [|discriminate]. intros H. injection H as <-. auto.
Qed.

Ltac solve_flags := reflexivity.

Ltac solve_track :=
  cbn [sent state stage]; norm_trace;
  lazymatch goal with
  | H : track ?c ?tr = Some _ |- track ?c (?tr ++ _) = Some _ =>
      rewrite track_app, H; reflexivity
  | H : track ?c ?tr = Some _ |- track ?c ?tr = Some _ => exact H
  end.

Ltac solve_paired :=
  cbn [sent]; norm_trace;
  lazymatch goal with
  | H : logs_paired ?tr |- logs_paired (?tr ++ _) =>
      apply logs_paired_app;
      [ exact H
      | assumption
      | cbn [logs_paired logs]; repeat split; apply newest_ring ]
  | H : logs_paired ?tr |- logs_paired ?tr => exact H
  end.

Ltac solve_addressed :=
  cbn [sent]; norm_trace;
  lazymatch goal with
  | H : forallb _ ?tr = true |- forallb _ (?tr ++ _) = true =>
      rewrite forallb_app, H; cbn [forallb fst andb];
      repeat match goal with
             | Hc : ?f ?x = true |- context [?f ?x] => rewrite Hc
             end;
      reflexivity
  | H : forallb _ ?tr = true |- forallb _ ?tr = true => exact H
  end.

Ltac solve_synced :=
  unfold synced; cbn [sent state];
  first [ assumption | do 2 eexists; reflexivity ].

Ltac solve_protocol :=
  unfold protocol;
  split; [solve_flags | split; [solve_track | split; [solve_paired | solve_addressed]]].

Ltac solve_obs_p := unfold obs_p; split; [solve_protocol | solve_synced].

Ltac solve_post_p :=
  unfold post_p; split; [solve_obs_p | split; reflexivity].

Ltac forget_trace :=
  repeat match goal with
         | H : track _ _ = Some _ |- _ => clear H
         | H : logs_paired _ |- _ => clear H
         | H : forallb _ _ = true |- _ => clear H
         | H : rests _ |- _ => clear H
         | H : exists pre sd, _ = pre ++ [(sd, EvState _)] |- _ => clear H
         end.

Ltac open_world_p w' Hf Ho :=
  let Hfl := fresh "Hfl" in
  let Ht := fresh "Ht" in
  let Hp := fresh "Hp" in
  let Ha := fresh "Ha" in
  let Hs := fresh "Hs" in
  let Hr := fresh "Hr" in
  forget_trace;
  pose proof (synced_rests _ (proj2 Ho)) as Hr;
  destruct Ho as [(Hfl & Ht & Hp & Ha) Hs];
  destruct w' as [[? ? ? ? ? ? ? ? ?] ? ? ?];
  unfold synced in Hs; cbn [sent state stage] in Hf, Ht, Hp, Ha, Hs, Hr; clear Hfl;
  cbn in Hf; injection Hf as ? ? ? ? ? ? ?; subst.

Ltac enter_rely_p :=
  let w' := fresh "w" in
  let Hrely := fresh "Hrely" in
  let Hf := fresh "Hf" in
  let Ho := fresh "Ho" in
  intros w' Hrely; destruct Hrely as [Hf Ho]; open_world_p w' Hf Ho.

Section OrderlyRun.
Variable host : Host.
Variable who : Sender -> bool.
Variable sender : Sender.
Hypothesis caller : who sender = true.

Lemma steady_pushLog lvl msg src : steady who (pushLog host sender lvl msg src).
Proof.
  intros [[stg uvI bunI ins dn fl er lg upd] r tr n] [(Hf & Ht & Hp & Ha) Hs].
  pose proof (synced_rests _ Hs) as Hr.
  unfold synced in Hs. cbn [sent state stage] in *.
  destruct Hs as (pre & sd & Es).
  assert (Hok : snapshot_ok (mkState stg uvI bunI ins dn fl er lg upd) = true)
    by (rewrite Es in Ht; apply (track_snapshot _ _ _ _ _ Ht)).
  sync_cbn. split; [reflexivity|]. split; [reflexivity|].
  split; [|unfold synced; cbn [sent state]; do 2 eexists; reflexivity].
  unfold protocol. cbn [sent state stage]. norm_trace.
  split; [exact Hf|]. split; [|split].
  - rewrite track_app, Ht. cbn [track].
    replace (snapshot_ok _) with true by (rewrite <- Hok; reflexivity).
    cbn [stage]. replace (Stage.eqb stg stg) with true by (destruct stg; reflexivity).
    reflexivity.
  - apply logs_paired_app; auto. cbn [logs_paired logs].
    repeat split. apply newest_ring.
  - rewrite forallb_app, Ha. cbn [forallb fst]. rewrite caller. reflexivity.
Qed.

Lemma steady_ret : steady who (ret tt).
Proof. intros w H. cbn. auto. Qed.

Lemma steady_bind (m k : M unit) :
  steady who m -> steady who k -> steady who (bind m (fun _ => k)).
Proof.
  intros Hm Hk w H. unfold bind. specialize (Hm w H).
  destruct (m w) as [[] w1]. cbn [snd] in Hm. destruct Hm as (F1 & R1 & H1).
  specialize (Hk w1 H1). cbn [snd] in *. destruct Hk as (F2 & R2 & H2).
  split; [congruence|]. split; [congruence | exact H2].
Qed.

Lemma steady_log_lines lvl src chunk :
  steady who (log_lines (fun msg => pushLog host sender lvl msg src) chunk).
Proof.
  unfold log_lines. induction (split_lines chunk) as [|line rest IH]; cbn [for_each].
  - apply steady_ret.
  - apply steady_bind; auto. unfold when.
    destruct (truthy (trim line)); [apply steady_pushLog | apply steady_ret].
Qed.

Lemma obs_p_rely w w' : obs_p who w -> rely_p who w w' -> obs_p who w'.
Proof. intros _ [_ H]. exact H. Qed.

Lemma rely_p_trans w1 w2 w3 : rely_p who w1 w2 -> rely_p who w2 w3 -> rely_p who w1 w3.
Proof. intros [F1 _] [F2 H]. split; [congruence | exact H]. Qed.

Lemma or_await_orderly {A : Type} (Q : Settled A -> World -> Prop) name1 name2
  (f : bool -> Async A) w :
  obs_p who w ->
  (forall w', rely_p who w w' -> forall b, orderly who Q (f b) w') ->
  orderly who Q (abind (or_await (await_probe (isBinaryExists name1))
                                 (await_probe (isBinaryExists name2))) f) w.
Proof.
  intros Ho H. apply safe_with_bind. unfold or_await, await_probe. cbn [abind safe_with].
  split; [exact Ho|]. split; [exact I|].
  intros w' Hr [|]; cbn [abind safe_with].
  - apply H; auto.
  - split; [eapply obs_p_rely; eauto|]. split; [exact I|].
    intros w'' Hr' b. apply H. eapply rely_p_trans; eauto.
Qed.

Ltac solve_chunk_p :=
  match goal with
  | |- chunk_steady _ (isBinaryExists _) => exact I
  | |- chunk_steady _ _ => intro; split; apply steady_log_lines
  end.

Ltac go_p leaf :=
  cbn; go_on_p leaf
with go_on_p leaf :=
  lazymatch goal with
  | |- ?a = ?a /\ _ => split; [reflexivity | go_on_p leaf]
  | |- obs_p _ _ /\ _ => split; [solve_obs_p | go_on_p leaf]
  | |- chunk_steady _ _ /\ _ => split; [solve_chunk_p | go_on_p leaf]
  | |- post_p _ _ _ => solve_post_p
  | |- forall w', rely_p _ _ w' -> _ =>
      enter_rely_p; let x := fresh "x" in intros x;
      lazymatch type of x with
      | bool => destruct x; go_p leaf
      | Settled _ => destruct x as [[? ? ?]|?]; go_p leaf
      end
  | |- safe_with _ _ _ _ (abind (or_await _ _) _) _ =>
      apply or_await_orderly; [solve_obs_p | go_on_p leaf]
  | |- _ => first [case_stuck; go_p leaf | leaf]
  end.

Ltac install_leaf_p HQ :=
  idtac;
  lazymatch goal with
  | |- _ (Fulfilled tt) _ => apply (proj1 HQ); [reflexivity | solve_obs_p]
  | |- _ (Rejected _) _ => apply (proj2 HQ); solve_post_p
  end.

Lemma installUv_orderly (Q : Settled unit -> World -> Prop) bunI lg upd r tr n :
  obs_p who (mkWorld (mkState Stage.need_install false bunI true false false None lg upd)
                     r tr n) ->
  installed_p who Stage.installing_uv false bunI Q ->
  orderly who Q (installUv host sender)
    (mkWorld (mkState Stage.need_install false bunI true false false None lg upd) r tr n).
Proof.
  intros Ho HQ.
  pose proof (synced_rests _ (proj2 Ho)) as Hr.
  destruct Ho as [(Hfl & Ht & Hp & Ha) Hs].
  unfold synced in Hs. cbn [sent state stage] in Ht, Hp, Ha, Hs, Hr. clear Hfl.
  unfold installUv.
  go_p ltac:(install_leaf_p HQ).
Qed.

Lemma installBun_orderly (Q : Settled unit -> World -> Prop) stg uvI lg upd r tr n :
  allowed stg Stage.start_install_bun = true ->
  obs_p who (mkWorld (mkState stg uvI false true false false None lg upd) r tr n) ->
  installed_p who Stage.installing_bun uvI false Q ->
  orderly who Q (installBun host sender)
    (mkWorld (mkState stg uvI false true false false None lg upd) r tr n).
Proof.
  intros Hedge Ho HQ.
  pose proof (synced_rests _ (proj2 Ho)) as Hr.
  destruct Ho as [(Hfl & Ht & Hp & Ha) Hs].
  unfold synced in Hs. cbn [sent state stage] in Ht, Hp, Ha, Hs, Hr. clear Hfl.
  unfold installBun.
  destruct stg; try discriminate Hedge; clear Hedge;
    go_p ltac:(install_leaf_p HQ).
Qed.

Ltac after_install_p go_leaf :=
  split;
  [ let w' := fresh "w" in
    let Hf := fresh "Hf" in
    let Ho := fresh "Ho" in
    intros w' Hf Ho; open_world_p w' Hf Ho; go_p go_leaf
  | let HP := fresh "HP" in intros ? ? HP; exact HP ].

Ltac run_leaf_p :=
  idtac;
  lazymatch goal with
  | |- safe_with _ _ _ _ (abind (installUv _ _) _) _ =>
      apply safe_with_bind; apply installUv_orderly;
      [solve_obs_p | after_install_p run_leaf_p]
  | |- safe_with _ _ _ _ (abind (installBun _ _) _) _ =>
      apply safe_with_bind; apply installBun_orderly;
      [reflexivity | solve_obs_p | after_install_p run_leaf_p]
  end.

(** From the world the opening of [start] leaves, the run keeps the
    protocol. *)
Lemma run_orderly uv0 bun0 lg upd r tr n :
  obs_p who (mkWorld (mkState Stage.start_check uv0 bun0 false false false None lg upd)
                     r tr n) ->
  orderly who (post_p who) (run host sender)
    (mkWorld (mkState Stage.start_check uv0 bun0 false false false None lg upd) r tr n).
Proof.
  intros Ho.
  pose proof (synced_rests _ (proj2 Ho)) as Hr.
  destruct Ho as [(Hfl & Ht & Hp & Ha) Hs].
  unfold synced in Hs. cbn [sent state stage] in Ht, Hp, Ha, Hs, Hr. clear Hfl.
  unfold run.
  go_p run_leaf_p.
Qed.

End OrderlyRun.

(** ** The event loop keeps the protocol *)

Lemma exec_with (O : World -> Prop) (R : World -> World -> Prop)
  (C : forall X : Type, Call X -> Prop) {A : Type} (Q : Settled A -> World -> Prop)
  (p : Async A) :
  forall w, safe_with O R C Q p w ->
  match fst (exec p w) with
  | Concluded r => Q r (snd (exec p w))
  | Awaiting c k =>
      O (snd (exec p w)) /\ C _ c
      /\ forall w', R (snd (exec p w)) w' -> forall x, safe_with O R C Q (k x) w'
  end.
Proof.
  induction p as [a|e|X m k IH|X c k IH]; cbn [exec safe_with]; intros w H.
  - exact H.
  - exact H.
  - destruct H as [_ H]. destruct (m w) as [x w1]. cbn [fst snd] in H. apply IH. exact H.
  - exact H.
Qed.

Section OrderlyLoop.
Variable host : Host.
Variable who : Sender -> bool.

Lemma obs_p_running w r :
  obs_p who w -> obs_p who (mkWorld (state w) r (sent w) (ticks w)).
Proof. destruct w. intros H. exact H. Qed.

Lemma suspended_p_rely p w w' :
  rely_p who w w' -> suspended_p who p w -> suspended_p who p w'.
Proof.
  intros Hr. destruct p as [r|X c k]; cbn [suspended_p]; auto.
  intros [Hc H]. split; [exact Hc|].
  intros w'' Hr' x. apply H. eapply rely_p_trans; eauto.
Qed.

Lemma failed_stage s : stage_flags s = true -> failed s = true -> stage s = Stage.failed.
Proof.
  unfold stage_flags. intros H F. rewrite F in H.
  destruct (stage s); cbn in H; rewrite ?andb_false_r in H; cbn in H;
    try discriminate H; reflexivity.
Qed.

Lemma ready_stage s :
  stage_flags s = true -> alreadyReady s = true -> stage s = Stage.env_ready.
Proof.
  unfold stage_flags, alreadyReady. intros H R.
  destruct (done s), (failed s); cbn in R; try discriminate R.
  destruct (stage s); cbn in H; rewrite ?andb_false_r in H; cbn in H;
    try discriminate H; reflexivity.
Qed.

Lemma settle_orderly sender r w :
  who sender = true -> post_p who r w ->
  obs_p who (snd (settle host sender r w))
  /\ at_rest (state (snd (settle host sender r w))) = true.
Proof.
  intros caller (Ho & Hrest & Hr).
  destruct r as [st|e]; unfold settle, promise_catch, promise_finally, onRunRejected.
  - destruct w as [s rn tr n]. sync_cbn. split; [exact Ho | exact Hrest].
  - pose proof (synced_rests _ (proj2 Ho)) as Hq.
    destruct Ho as [(Hfl & Ht & Hp & Ha) Hs].
    pose proof (failed_stage _ Hfl Hr) as Hstage.
    destruct w as [[stg uvI bunI ins dn fl er lg upd] rn tr n].
    unfold synced in Hs. cbn [sent state stage failed] in *. subst stg fl.
    sync_cbn. split; [solve_obs_p | reflexivity].
Qed.

Lemma stretch_orderly h sender p w sett next :
  who sender = true ->
  match p with
  | Concluded r => post_p who r w
  | Awaiting c k => obs_p who w /\ suspended_p who (Awaiting c k) w
  end ->
  runtime_protocol who (after_stretch host h sender p w [] sett next).
Proof.
  intros caller H. destruct p as [r|X c k]; unfold after_stretch.
  - destruct (settle_orderly sender r w caller H) as [[Hp Hs] Hrest].
    destruct (settle host sender r w) as [r' w']. cbn [fst snd] in *.
    unfold runtime_protocol. cbn [world pending].
    split; [exact Hp|]. split; [apply synced_rests; exact Hs|]. split; [right; exact Hs|].
    exact Hrest.
  - destruct H as [[Hp Hs] Hk].
    unfold runtime_protocol. cbn [world pending app task_sender task_paused].
    split; [exact Hp|]. split; [exact caller|]. split; [exact Hs | exact Hk].
Qed.

Lemma launched_orderly h sender (p : Async McpEnvInitState) w sett next :
  who sender = true ->
  orderly who (post_p who) p w ->
  runtime_protocol who
    (let (p', w2) := exec p w in
     let (_, w3) := set_running (Some h) w2 in
     after_stretch host h sender p' w3 [] sett next).
Proof.
  intros caller Hsafe.
  pose proof (exec_with _ _ _ _ _ _ Hsafe) as H'.
  destruct (exec p w) as [p' w2]. cbn [fst snd] in H'.
  cbn [set_running].
  apply stretch_orderly; [exact caller|].
  destruct p' as [r|X c k].
  - destruct w2. exact H'.
  - destruct w2. exact H'.
Qed.

Lemma continue_orderly tk next rt :
  runtime_protocol who rt -> pending rt = [tk] ->
  (forall p, next = Some p -> orderly who (post_p who) p (world rt)) ->
  runtime_protocol who (continue_task host tk [] next rt).
Proof.
  intros [Hp P] E Hn. rewrite E in P. destruct P as (caller & Hs & Hk).
  destruct next as [p|]; cbn [continue_task].
  - specialize (Hn p eq_refl). pose proof (exec_with _ _ _ _ _ _ Hn) as H'.
    destruct (exec p (world rt)) as [p' w']. cbn [fst snd] in H'.
    apply stretch_orderly; [exact caller|].
    destruct p' as [r|X c k]; [exact H'|].
    destruct H' as (Ho & Hc & H'). split; [exact Ho|]. split; [exact Hc | exact H'].
  - unfold runtime_protocol. rewrite E. split; [exact Hp|]. auto.
Qed.

(** The synchronous opening of the third branch of [start], from a world
    at rest in which the service is not ready. *)
Lemma prologue_orderly sender w :
  who sender = true ->
  protocol who w -> rests (sent w) -> at_rest (state w) = true ->
  alreadyReady (state w) = false ->
  exists lg upd tr n,
    snd ((bind (resetTransient host)
            (fun _ => bind (setStage host sender Stage.start_check)
               (fun _ => info host sender (t host "mcp.envInit.messages.startCheck")
                           (Some system)))) w)
    = mkWorld (mkState Stage.start_check (uvInstalled (state w)) (bunInstalled (state w))
                       false false false None lg upd) (running w) tr n
    /\ obs_p who (mkWorld (mkState Stage.start_check (uvInstalled (state w))
                             (bunInstalled (state w)) false false false None lg upd)
                          (running w) tr n).
Proof.
  intros caller (Hfl & Ht & Hp & Ha) Hr Hrest Hready.
  destruct w as [[stg uvI bunI ins dn fl err lg upd] rn tr n].
  cbn [sent state stage uvInstalled bunInstalled running] in *.
  assert (Hstg : stg = Stage.idle \/ stg = Stage.failed).
  { unfold at_rest in Hrest. cbn [stage] in Hrest.
    destruct stg; try discriminate Hrest; auto. congruence. }
  sync_cbn. do 4 eexists. split; [reflexivity|].
  destruct Hstg; subst stg; solve_obs_p.
Qed.

Lemma begin_run_orderly h sender rt :
  who sender = true ->
  runtime_protocol who rt -> pending rt = [] ->
  alreadyReady (state (world rt)) = false ->
  runtime_protocol who (begin_run host h sender rt).
Proof.
  intros caller [Hp P] E Hready. unfold begin_run. rewrite E in *.
  destruct P as (Hr & _ & Hrest).
  destruct (prologue_orderly sender (world rt) caller Hp Hr Hrest Hready)
    as (lg & upd & tr & n & Ew & Ho).
  match goal with
  | |- context [let (_, w1) := ?m (world rt) in _] =>
      destruct (m (world rt)) as [[] w1]
  end.
  cbn [snd] in Ew. subst w1.
  apply launched_orderly; [exact caller|].
  apply run_orderly; [exact caller | exact Ho].
Qed.

(** [start] answering with a snapshot of the state as it is. *)
Lemma emit_state_orderly sender w :
  who sender = true ->
  protocol who w -> rests (sent w) ->
  snapshot_ok (state w) = true ->
  obs_p who (snd (emit sender (EvState (state w)) w))
  /\ flags_of (state (snd (emit sender (EvState (state w)) w))) = flags_of (state w).
Proof.
  intros caller (Hfl & Ht & Hp & Ha) Hr Hok.
  destruct w as [s rn tr n]. cbn [emit snd sent state] in *.
  split; [|reflexivity]. split.
  - unfold protocol. cbn [sent state].
    split; [exact Hfl|]. split; [|split].
    + rewrite track_app, Ht. cbn [track]. rewrite Hok.
      replace (Stage.eqb (stage s) (stage s)) with true by (destruct (stage s); reflexivity).
      reflexivity.
    + apply logs_paired_app; auto. exact I.
    + rewrite forallb_app, Ha. cbn [forallb fst]. rewrite caller. reflexivity.
  - unfold synced. cbn [sent state]. do 2 eexists. reflexivity.
Qed.

Lemma synced_snapshot_ok w : protocol who w -> synced w -> snapshot_ok (state w) = true.
Proof.
  intros (_ & Ht & _) (pre & sd & E). rewrite E in Ht.
  apply (track_snapshot _ _ _ _ _ Ht).
Qed.

Lemma start_orderly sender rt :
  who sender = true ->
  runtime_ok rt -> runtime_protocol who rt ->
  runtime_protocol who (snd (start host sender rt)).
Proof.
  intros caller (W & I & S & P) H. pose proof H as [Hp P']. unfold start.
  destruct (alreadyReady (state (world rt))) eqn:Ready.
  - destruct (pending rt) as [|tk [|]] eqn:E; [| |contradiction].
    + destruct P' as (Hr & Hs & Hrest).
      assert (Hok : snapshot_ok (state (world rt)) = true).
      { unfold snapshot_ok. rewrite (proj1 Hp), (ready_stage _ (proj1 Hp) Ready).
        reflexivity. }
      destruct (emit_state_orderly sender (world rt) caller Hp Hr Hok) as [[Hp' Hs'] Hf].
      destruct (emit sender _ (world rt)) as [[] w1] eqn:Ew.
      cbn [fst snd] in *. unfold runtime_protocol. cbn [world pending]. rewrite ?E.
      split; [exact Hp'|]. split; [apply synced_rests; exact Hs'|].
      split; [right; exact Hs'|].
      assert (Es : state w1 = state (world rt))
        by (apply (f_equal snd) in Ew; cbn in Ew; subst w1; reflexivity).
      rewrite Es. exact Hrest.
    + destruct P as (_ & D & _). unfold alreadyReady in Ready. rewrite D in Ready.
      discriminate Ready.
  - destruct (running (world rt)) as [h|] eqn:Run.
    + destruct (pending rt) as [|tk [|]] eqn:E; [congruence | | contradiction].
      destruct P' as (Hc & Hs & Hk).
      pose proof (synced_snapshot_ok _ Hp Hs) as Hok.
      destruct (emit_state_orderly sender (world rt) caller Hp (synced_rests _ Hs) Hok)
        as [[Hp' Hs'] Hf].
      destruct (emit sender _ (world rt)) as [[] w1].
      cbn [fst snd] in *. unfold runtime_protocol. cbn [world pending]. rewrite ?E.
      split; [exact Hp'|]. split; [exact Hc|]. split; [exact Hs'|].
      eapply suspended_p_rely; [|exact Hk]. split; [exact Hf|]. split; assumption.
    + cbn [snd]. apply begin_run_orderly; auto.
      destruct (pending rt) as [|tk [|]]; [reflexivity | destruct P; congruence | contradiction].
Qed.

Lemma rely_p_refl w : obs_p who w -> rely_p who w w.
Proof. intros H. split; [reflexivity | exact H]. Qed.

Lemma step_orderly i rt :
  match i with StartCalled sender => who sender = true | _ => True end ->
  runtime_ok rt -> runtime_protocol who rt ->
  runtime_protocol who (step host i rt).
Proof.
  intros Hi Hok H. destruct i as [sender|h found|h stream chunk|h r]; cbn [step].
  - apply start_orderly; assumption.
  - pose proof H as [Hp P].
    destruct (pending rt) as [|tk [|]] eqn:E; [exact H | | contradiction].
    rewrite take_task_single. destruct (task_handle tk =? h); [|exact H].
    apply continue_orderly; auto.
    intros p Ep. destruct P as (Hc & Hs & Hk).
    destruct (task_paused tk) as [r0|X c k]; [contradiction|].
    destruct Hk as [_ Hk]. cbn in Ep.
    destruct c; [|discriminate]. injection Ep as <-. apply Hk.
    apply rely_p_refl. split; assumption.
  - pose proof H as [Hp P].
    destruct (pending rt) as [|tk [|]] eqn:E; [exact H | | contradiction].
    rewrite take_task_single. destruct (task_handle tk =? h); [|exact H].
    destruct P as (Hc & Hs & Hk).
    destruct (task_paused tk) as [r0|X c k] eqn:Ep; [contradiction|].
    pose proof Hk as [Hcb _]. cbn [chunk_callback].
    destruct c as [name|script options]; [exact H|].
    assert (Q : steady who (on_chunk options stream chunk))
      by (destruct stream; apply (Hcb chunk)).
    destruct (Q (world rt) (conj Hp Hs)) as (F & _ & [Hp' Hs']).
    unfold runtime_protocol. cbn [world pending]. rewrite ?E.
    split; [exact Hp'|]. split; [exact Hc|]. split; [exact Hs'|].
    rewrite Ep. eapply suspended_p_rely; [|exact Hk].
    split; [exact F|]. split; assumption.
  - pose proof H as [Hp P].
    destruct (pending rt) as [|tk [|]] eqn:E; [exact H | | contradiction].
    rewrite take_task_single. destruct (task_handle tk =? h); [|exact H].
    apply continue_orderly; auto.
    intros p Ep. destruct P as (Hc & Hs & Hk).
    destruct (task_paused tk) as [r0|X c k]; [contradiction|].
    destruct Hk as [_ Hk]. cbn in Ep.
    destruct c; [discriminate|]. injection Ep as <-. apply Hk.
    apply rely_p_refl. split; assumption.
Qed.

Lemma boot_orderly : runtime_protocol who (boot host).
Proof.
  unfold runtime_protocol, protocol, rests. cbn. repeat split; auto.
Qed.

Lemma steps_orderly inputs : forall rt,
  (forall sender, In (StartCalled sender) inputs -> who sender = true) ->
  runtime_ok rt -> runtime_protocol who rt ->
  runtime_ok (steps host inputs rt) /\ runtime_protocol who (steps host inputs rt).
Proof.
  unfold steps. induction inputs as [|i rest IH]; cbn [fold_left]; intros rt Hw Hok H; auto.
  apply IH.
  - intros sender Hin. apply Hw. right. exact Hin.
  - apply step_ok. exact Hok.
  - apply step_orderly; auto. destruct i; auto. apply Hw. left. reflexivity.
Qed.

Lemma reachable_orderly inputs :
  (forall sender, In (StartCalled sender) inputs -> who sender = true) ->
  runtime_ok (steps host inputs (boot host))
  /\ runtime_protocol who (steps host inputs (boot host)).
Proof.
  intros Hw. apply steps_orderly; [exact Hw | apply boot_ok | apply boot_orderly].
Qed.

End OrderlyLoop.

(** ** What every event stream of the service satisfies *)

Lemma stage_flags_spec s : stage_flags s = true -> StageFlags s.
Proof.
  unfold stage_flags, StageFlags.
  destruct (stage s), (failed s), (done s), (installing s), (uvInstalled s),
    (bunInstalled s); cbn; intros H; try discriminate H; repeat split; auto;
    intros; discriminate.
Qed.

Lemma track_split cur pre e post c :
  track cur (pre ++ e :: post) = Some c ->
  track cur pre = Some (latest cur pre) /\ track (latest cur pre) (e :: post) = Some c.
Proof.
  rewrite track_app. destruct (track cur pre) as [c1|] eqn:E; [|discriminate].
  rewrite <- (track_latest _ _ _ E). auto.
Qed.

Lemma logs_paired_split pre sd e post :
  logs_paired (pre ++ (sd, EvLog e) :: post) ->
  exists s rest, post = (sd, EvState s) :: rest /\ newest (logs s) = Some e.
Proof.
  induction pre as [|[sd' [s'|l|x a]] rest IH]; cbn [app logs_paired].
  - intros [H _]. destruct post as [|[sd2 [s2|l2|x2 a2]] rest2]; try contradiction.
    destruct H as [-> H]. eauto.
  - exact IH.
  - intros [_ H]. auto.
  - exact IH.
Qed.

Section Streams.
Variable host : Host.

Lemma reachable_protocol inputs :
  runtime_ok (steps host inputs (boot host))
  /\ runtime_protocol (called inputs) (steps host inputs (boot host)).
Proof.
  apply reachable_orderly. intros sender Hin. unfold called.
  apply existsb_exists. exists (StartCalled sender). split; [exact Hin|].
  apply Nat.eqb_refl.
Qed.

(** The last event sent is always a snapshot of the state as it is: in
    every state the process can reach, either nothing was sent yet or the
    event stream ends with a snapshot equal to what [getState] returns. *)
Theorem last_event_is_current_state (inputs : list Input) :
  let w := world (steps host inputs (boot host)) in
  sent w = [] \/ exists pre sd, sent w = pre ++ [(sd, EvState (getState w))].
Proof.
  intros w. destruct (reachable_protocol inputs) as [_ [_ P]]. fold w in P.
  destruct (pending (steps host inputs (boot host))) as [|tk [|]]; [| |contradiction].
  - destruct P as (_ & H & _). exact H.
  - destruct P as (_ & H & _). right. exact H.
Qed.

(** The stage events follow the stage graph.  In every event stream the
    process can produce, a [stage] event announces a successor, in the
    graph [allowed], of the stage named by the latest stage event or
    snapshot before it ([idle] when there is none); and a snapshot shows
    the stage so named, or [failed] when a run can be failed there. *)
Theorem stream_follows_stage_graph (inputs : list Input) :
  let tr := sent (world (steps host inputs (boot host))) in
  (forall pre sd x a post,
     tr = pre ++ (sd, EvStage x a) :: post ->
     allowed (latest Stage.idle pre) x = true)
  /\ (forall pre sd s post,
        tr = pre ++ (sd, EvState s) :: post ->
        stage s = latest Stage.idle pre
        \/ (stage s = Stage.failed /\ may_fail (latest Stage.idle pre) = true)).
Proof.
  intros tr. destruct (reachable_protocol inputs) as [_ [(_ & Ht & _) _]]. fold tr in Ht.
  split.
  - intros pre sd x a post E. rewrite E in Ht.
    destruct (track_split _ _ _ _ _ Ht) as [_ H]. cbn [track] in H.
    destruct (allowed (latest Stage.idle pre) x); [reflexivity | discriminate].
  - intros pre sd s post E. rewrite E in Ht.
    destruct (track_split _ _ _ _ _ Ht) as [_ H]. cbn [track] in H.
    destruct (snapshot_ok s); [|discriminate]. cbn [andb] in H.
    destruct (Stage.eqb (stage s) (latest Stage.idle pre)) eqn:E1.
    + left. destruct (stage s), (latest Stage.idle pre); try discriminate E1; reflexivity.
    + right. cbn [orb] in H.
      destruct (Stage.eqb (stage s) Stage.failed) eqn:E2; [|discriminate].
      destruct (may_fail (latest Stage.idle pre)); [|discriminate].
      split; [|reflexivity]. destruct (stage s); try discriminate E2; reflexivity.
Qed.

Lemma track_snapshot_in cur tr sd s c :
  track cur tr = Some c -> In (sd, EvState s) tr -> snapshot_ok s = true.
Proof.
  intros Ht Hin. apply in_split in Hin. destruct Hin as (pre & post & ->).
  destruct (track_split _ _ _ _ _ Ht) as [_ H]. cbn [track] in H.
  destruct (snapshot_ok s); [reflexivity | discriminate].
Qed.

(** The flags go with the stage.  In the state [getState] returns and in
    every snapshot sent, the stage fixes the flags: nothing is installing,
    done or failed at [idle], [check-uv], [check-bun] and
    [no-need-install], where moreover both tools are shown; a tool is
    shown missing at [need-install]; [installing] holds and the tool is
    shown missing from [start-install-*] to [installing-*]; [failed] holds
    exactly at stage [failed], together with [done]; [done] without
    [failed] is only shown at [env-ready], with both tools and without
    [installing].  No snapshot shows stage [idle]. *)
Theorem flags_agree_with_stage (inputs : list Input) :
  let w := world (steps host inputs (boot host)) in
  StageFlags (getState w)
  /\ forall sd s, In (sd, EvState s) (sent w) -> StageFlags s /\ stage s <> Stage.idle.
Proof.
  intros w. destruct (reachable_protocol inputs) as [_ [(Hf & Ht & _) _]]. fold w in Hf, Ht.
  split; [apply stage_flags_spec; exact Hf|].
  intros sd s Hin. pose proof (track_snapshot_in _ _ _ _ _ Ht Hin) as Hok.
  unfold snapshot_ok in Hok. apply andb_true_iff in Hok. destruct Hok as [H1 H2].
  split; [apply stage_flags_spec; exact H1|].
  intros E. rewrite E in H2. discriminate H2.
Qed.

(** Every [log] event is directly followed, for the same receiver, by a
    snapshot whose newest log entry is the entry of the event. *)
Theorem log_then_snapshot (inputs : list Input) (pre post : list (Sender * McpEnvInitEvent))
  (sd : Sender) (e : McpEnvInitLog) :
  sent (world (steps host inputs (boot host))) = pre ++ (sd, EvLog e) :: post ->
  exists s rest, post = (sd, EvState s) :: rest /\ newest (logs s) = Some e.
Proof.
  intros E. destruct (reachable_protocol inputs) as [_ [(_ & _ & Hp & _) _]].
  rewrite E in Hp. apply (logs_paired_split _ _ _ _ Hp).
Qed.

(** Events are only sent to callers: whoever receives an event has called
    [start] before. *)
Theorem events_go_to_callers (inputs : list Input) (sd : Sender) (ev : McpEnvInitEvent) :
  In (sd, ev) (sent (world (steps host inputs (boot host)))) ->
  In (StartCalled sd) inputs.
Proof.
  intros Hin. destruct (reachable_protocol inputs) as [_ [(_ & _ & _ & Ha) _]].
  rewrite forallb_forall in Ha. specialize (Ha _ Hin). cbn [fst] in Ha.
  unfold called in Ha. apply existsb_exists in Ha. destruct Ha as (i & Hi & E).
  destruct i as [s| | |]; try discriminate E.
  apply Nat.eqb_eq in E. subst s. exact Hi.
Qed.

(** Between two runs the service is at rest, and a run in flight is not
    done.  Whenever no run is in flight, nothing was started yet (stage
    [idle], not done), or the last run failed (stage [failed], done and
    failed), or the service is ready (stage [env-ready], done, not failed,
    both tools shown), so that [start] answers at once.  Whenever a run
    is in flight the state is not done. *)
Theorem at_rest_between_runs (inputs : list Input) :
  let w := world (steps host inputs (boot host)) in
  (running w = None ->
   (stage (getState w) = Stage.idle /\ done (getState w) = false)
   \/ (stage (getState w) = Stage.failed
       /\ done (getState w) = true /\ failed (getState w) = true)
   \/ (stage (getState w) = Stage.env_ready /\ alreadyReady (getState w) = true))
  /\ (running w <> None -> done (getState w) = false).
Proof.
  intros w.
  destruct (reachable_protocol inputs) as [(_ & _ & _ & P) [_ P']]. fold w in P, P'.
  destruct (pending (steps host inputs (boot host))) as [|tk [|]]; [| |contradiction].
  - split; [|intros H; contradiction].
    intros _. destruct P' as (_ & _ & H). unfold at_rest in H. unfold getState.
    destruct (stage (state w)); try discriminate H.
    + left. split; [reflexivity|]. destruct (done (state w)); [discriminate H | reflexivity].
    + right. right. auto.
    + right. left. apply andb_true_iff in H. destruct H. auto.
  - destruct P as (Hr & D & _). split; [intros H; congruence | intros _; exact D].
Qed.

End Streams.

Lemma stream_follows_stage_graph_witness :
  let tr := sent (world (steps posix_host uv_install_exits_1 (boot posix_host))) in
  tr = [] ++ (7, EvStage Stage.start_check 2%Z) :: tl tr
  /\ allowed (latest Stage.idle []) Stage.start_check = true.
Proof.
  split; [vm_compute; reflexivity|].
  apply (proj1 (stream_follows_stage_graph posix_host uv_install_exits_1)
           [] 7 Stage.start_check 2%Z
           (tl (sent (world (steps posix_host uv_install_exits_1 (boot posix_host)))))).
  vm_compute. reflexivity.
Defined.

Lemma flags_agree_with_stage_witness :
  let w := world (steps posix_host uv_install_exits_1 (boot posix_host)) in
  let s := mkState Stage.start_check false false false false false None [] 2%Z in
  In (7, EvState s) (sent w)
  /\ StageFlags s /\ stage s <> Stage.idle.
Proof.
  assert (H : In (7, EvState (mkState Stage.start_check false false false false false
                                None [] 2%Z))
                 (sent (world (steps posix_host uv_install_exits_1 (boot posix_host)))))
    by (vm_compute; right; left; reflexivity).
  split; [exact H|].
  apply (proj2 (flags_agree_with_stage posix_host uv_install_exits_1) 7 _ H).
Defined.

Lemma log_then_snapshot_witness :
  let tr := sent (world (steps posix_host both_present (boot posix_host))) in
  let e := Log.mk 3%Z info_level "mcp.envInit.messages.startCheck" (Some system) in
  tr = firstn 2 tr ++ (7, EvLog e) :: skipn 3 tr
  /\ exists s rest, skipn 3 tr = (7, EvState s) :: rest /\ newest (logs s) = Some e.
Proof.
  split; [vm_compute; reflexivity|].
  apply (log_then_snapshot posix_host both_present
           (firstn 2 (sent (world (steps posix_host both_present (boot posix_host)))))).
  vm_compute. reflexivity.
Defined.

Lemma events_go_to_callers_witness :
  In (7, EvStage Stage.start_check 2%Z)
     (sent (world (steps posix_host both_present (boot posix_host))))
  /\ In (StartCalled 7) both_present.
Proof.
  assert (H : In (7, EvStage Stage.start_check 2%Z)
                 (sent (world (steps posix_host both_present (boot posix_host)))))
    by (vm_compute; left; reflexivity).
  split; [exact H|].
  apply (events_go_to_callers posix_host both_present 7 _ H).
Defined.

Lemma at_rest_between_runs_witness :
  let w := world (steps posix_host both_present (boot posix_host)) in
  running w = None
  /\ stage (getState w) = Stage.env_ready /\ alreadyReady (getState w) = true.
Proof.
  assert (H : running (world (steps posix_host both_present (boot posix_host))) = None)
    by (vm_compute; reflexivity).
  split; [exact H|].
  destruct (proj1 (at_rest_between_runs posix_host both_present) H) as [[E _]|[[E _]|E]];
    [vm_compute in E; discriminate E | vm_compute in E; discriminate E | exact E].
Defined.

(** ** The panel *)

Lemma step_band (stage : McpEnvInitStage) (a : ActivationStage) :
  match stageToStepIndex stage a with
  | 0 => stageToPercent stage a <= 5
  | 1 => stageToPercent stage a = 20
  | 2 => stageToPercent stage a = 35
  | 3 => 45 <= stageToPercent stage a <= 70
  | 4 => 85 <= stageToPercent stage a <= 90
  | 5 => stageToPercent stage a = 100
  | _ => False
  end.
Proof. destruct a, stage; cbn; lia. Qed.

(** The step indicator and the progress bar of the panel agree: a stage
    shown at a later step is shown with a strictly higher percentage;
    there are six steps, and the percentage never exceeds 100. *)
Theorem later_step_higher_percent (s1 s2 : McpEnvInitStage) (a1 a2 : ActivationStage) :
  (stageToStepIndex s1 a1 < stageToStepIndex s2 a2 ->
   stageToPercent s1 a1 < stageToPercent s2 a2)
  /\ stageToStepIndex s1 a1 <= 5 /\ stageToPercent s1 a1 <= 100.
Proof.
  pose proof (step_band s1 a1) as H1. pose proof (step_band s2 a2) as H2.
  destruct (stageToStepIndex s1 a1) as [|[|[|[|[|[|]]]]]];
    destruct (stageToStepIndex s2 a2) as [|[|[|[|[|[|]]]]]];
    try contradiction; repeat split; try lia.
Qed.

Lemma later_step_higher_percent_witness :
  stageToStepIndex Stage.check_bun Activation.idle
  < stageToStepIndex Stage.installing_uv Activation.idle
  /\ stageToPercent Stage.check_bun Activation.idle
     < stageToPercent Stage.installing_uv Activation.idle.
Proof.
  assert (H : stageToStepIndex Stage.check_bun Activation.idle
              < stageToStepIndex Stage.installing_uv Activation.idle) by (cbn; lia).
  split; [exact H|].
  apply (proj1 (later_step_higher_percent Stage.check_bun Stage.installing_uv
                  Activation.idle Activation.idle)).
  exact H.
Defined.





Section PanelFollows.
Variable host : Host.


(** The fallback of the panel keeps the window of the service.  When the
    panel holds the state of the service and the service appends a log,
    the [log] event alone already gives the panel the buffer the service
    has, cut to the same 500 entries; the snapshot that follows gives it
    the whole state. *)
Theorem panel_fallback_matches_ring (sender : Sender) (level : McpEnvInitLogLevel)
  (message : string) (source : option LogSource) (w : World)
  (at1 at2 : Z) (p : Panel) :
  let w' := snd (pushLog host sender level message source w) in
  envState p = Some (state w) ->
  exists entry,
    sent w' = sent w ++ [(sender, EvLog entry); (sender, EvState (state w'))]
    /\ option_map logs (envState (applyEvent at1 (EvLog entry) p)) = Some (logs (state w'))
    /\ envState (applyEvent at2 (EvState (state w')) (applyEvent at1 (EvLog entry) p))
       = Some (state w').
Proof.
  intros w' E. destruct w as [s r tr n]. unfold w'. sync_cbn. norm_trace.
  eexists. split; [reflexivity|]. cbn [applyEvent]. cbn [state] in E. rewrite E.
  cbn [envState option_map]. split; reflexivity.
Qed.

End PanelFollows.


Lemma panel_fallback_matches_ring_witness :
  let w := mcpEnvInitService posix_host in
  let p := mkPanel (Some (state w)) Activation.idle None false [] in
  let w' := snd (pushLog posix_host 7 info_level "ready" (Some system) w) in
  envState p = Some (state w)
  /\ exists entry,
       sent w' = sent w ++ [(7, EvLog entry); (7, EvState (state w'))]
       /\ option_map logs (envState (applyEvent 0 (EvLog entry) p)) = Some (logs (state w'))
       /\ envState (applyEvent 0 (EvState (state w')) (applyEvent 0 (EvLog entry) p))
          = Some (state w').
Proof.
  split; [reflexivity|].
  apply (panel_fallback_matches_ring posix_host 7 info_level "ready" (Some system)
           (mcpEnvInitService posix_host) 0%Z 0%Z
           (mkPanel (Some (state (mcpEnvInitService posix_host))) Activation.idle None false [])).
  reflexivity.
Defined.

(** ** A run in which nothing is missing *)

Lemma drive_Sync {A X : Type} (o : Oracle) (m : M X) (k : X -> Async A) (w : World) :
  drive o (Sync m k) w = drive o (k (fst (m w))) (snd (m w)).
Proof. cbn [drive]. destruct (m w). reflexivity. Qed.

Lemma exec_Sync {A X : Type} (m : M X) (k : X -> Async A) (w : World) :
  exec (Sync m k) w = exec (k (fst (m w))) (snd (m w)).
Proof. cbn [exec]. destruct (m w). reflexivity. Qed.

Lemma drive_probe {A : Type} (o : Oracle) (name : string) (k : bool -> Async A) (w : World) :
  drive o (Await (isBinaryExists name) k) w = drive o (k (probe_answer o (ticks w) name)) w.
Proof. reflexivity. Qed.

Lemma drive_paused_probe {A : Type} (o : Oracle) (name : string) (k : bool -> Async A)
  (w : World) :
  drive_paused o (Awaiting (isBinaryExists name) k) w
  = drive o (k (probe_answer o (ticks w) name)) w.
Proof. reflexivity. Qed.

Ltac sync_eval t :=
  eval cbn [fail error_ warn info pushLog setStage emit assign now get_state bind ret when
            resetTransient set_running state running sent ticks fst snd
            set_stage set_uvInstalled set_bunInstalled set_installing set_done set_failed
            set_error set_logs set_updatedAt
            stage uvInstalled bunInstalled installing done failed error logs updatedAt
            Err.suggestion Err.message] in t.


Section QuietStart.
Variable host : Host.



End QuietStart.


(** ** Starting again *)

Section Restart.
Variable host : Host.

(** A new run keeps the context.  When the service is not ready and no
    run is in flight, [start] launches a run under the next promise; the
    first events of that run are the [stage] event for [start-check] and a
    snapshot in which the failure is cleared ([failed], [done] and
    [installing] false, no [error]) while the logs and the two tool flags
    are those the service had before. *)
Theorem restart_keeps_context (sender : Sender) (rt : Runtime) :
  alreadyReady (state (world rt)) = false ->
  running (world rt) = None ->
  fst (start host sender rt) = ReturnsRunning (next_handle rt)
  /\ exists at_ rest,
       sent (world (snd (start host sender rt)))
       = sent (world rt)
         ++ (sender, EvStage Stage.start_check at_)
            :: (sender, EvState (mkState Stage.start_check
                                   (uvInstalled (state (world rt)))
                                   (bunInstalled (state (world rt)))
                                   false false false None
                                   (logs (state (world rt))) at_))
            :: rest.
Proof.
  intros Hready Hrun. unfold start. rewrite Hready, Hrun. cbn [fst snd].
  split; [reflexivity|].
  destruct rt as [[[stg uvI bunI ins dn fl err lg upd] rn tr n] pd st nx].
  unfold begin_run.
  cbn [world bind resetTransient setStage info pushLog now assign emit get_state
       state running sent ticks next_handle pending settled
       set_stage set_updatedAt set_logs
       stage uvInstalled bunInstalled installing done failed error logs updatedAt].
  unfold run, or_await, await_probe.
  cbn [abind sync exec bind setStage info pushLog now assign emit get_state
       state running sent ticks
       set_stage set_updatedAt set_logs
       stage uvInstalled bunInstalled installing done failed error logs updatedAt].
  cbn [set_running snd after_stretch world sent].
  norm_trace. do 2 eexists. reflexivity.
Qed.

End Restart.

Lemma restart_keeps_context_witness :
  let rt := steps posix_host uv_install_exits_1 (boot posix_host) in
  alreadyReady (state (world rt)) = false
  /\ running (world rt) = None
  /\ fst (start posix_host 7 rt) = ReturnsRunning (next_handle rt)
  /\ exists at_ rest,
       sent (world (snd (start posix_host 7 rt)))
       = sent (world rt)
         ++ (7, EvStage Stage.start_check at_)
            :: (7, EvState (mkState Stage.start_check
                              (uvInstalled (state (world rt)))
                              (bunInstalled (state (world rt)))
                              false false false None
                              (logs (state (world rt))) at_))
            :: rest.
Proof.
  assert (H1 : alreadyReady (state (world (steps posix_host uv_install_exits_1
                                             (boot posix_host)))) = false)
    by (vm_compute; reflexivity).
  assert (H2 : running (world (steps posix_host uv_install_exits_1 (boot posix_host)))
               = None)
    by (vm_compute; reflexivity).
  split; [exact H1|]. split; [exact H2|].
  apply (restart_keeps_context posix_host 7
           (steps posix_host uv_install_exits_1 (boot posix_host)) H1 H2).
Defined.

(** ** An installer that exits *)

Section InstallerExit.
Variable host : Host.

Ltac past_chunks sender src :=
  match goal with
  | |- context [deliver_chunks ?opts ?chunks ?w0] =>
      let F := fresh "F" in
      pose proof (deliver_chunks_flags host sender src chunks w0) as F;
      destruct (deliver_chunks opts chunks w0) as [[] [[? ? ? ? ? ? ? ? ?] ? ? ?]];
      cbn in F; injection F as ? ? ? ? ? ? ?; subst
  end.

Lemma installUv_exit (o : Oracle) (sender : Sender) (code : option Z) (err out : string)
  (w : World) :
  (forall n script, snd (spawn_answer o n script) = Fulfilled (mkSpawnResult code err out)) ->
  failed (state w) = false ->
  let w' := snd (drive o (installUv host sender) w) in
  if exit_nonzero code then
    fst (drive o (installUv host sender) w) = Rejected (ErrorObject "uv install failed")
    /\ error (state w')
       = Some (Err.mk (t host "mcp.envInit.messages.uvInstallFailed")
                      (Some (command_of host "install-uv.js")) (Some code)
                      (Some (tailText err TAIL_MAX)) (Some (tailText out TAIL_MAX))
                      (summarizeFailure host err out))
    /\ failed (state w') = true /\ done (state w') = true
    /\ installing (state w') = false /\ stage (state w') = Stage.failed
  else
    fst (drive o (installUv host sender) w) = Fulfilled tt
    /\ failed (state w') = false /\ error (state w') = error (state w)
    /\ stage (state w') = Stage.installing_uv.
Proof.
  intros Ho Hf w'. unfold w'. clear w'.
  destruct w as [[stg uvI bunI ins dn fl er lg upd] r tr n]. cbn in Hf. subst fl.
  unfold installUv. drive_cbn. rewrite Ho.
  past_chunks sender (Some uv).
  drive_cbn. cbn [spawn_exitCode spawn_stderr spawn_stdout].
  destruct (exit_nonzero code); drive_cbn.
  - remember (summarizeFailure host err out) as sg eqn:Esg.
    destruct sg as [s|]; sync_cbn; [destruct (truthy s); sync_cbn|];
      drive_cbn; repeat split; reflexivity.
  - repeat split; reflexivity.
Qed.

Lemma installBun_exit (o : Oracle) (sender : Sender) (code : option Z) (err out : string)
  (w : World) :
  (forall n script, snd (spawn_answer o n script) = Fulfilled (mkSpawnResult code err out)) ->
  failed (state w) = false ->
  let w' := snd (drive o (installBun host sender) w) in
  if exit_nonzero code then
    fst (drive o (installBun host sender) w) = Rejected (ErrorObject "bun install failed")
    /\ error (state w')
       = Some (Err.mk (t host "mcp.envInit.messages.bunInstallFailed")
                      (Some (command_of host "install-bun.js")) (Some code)
                      (Some (tailText err TAIL_MAX)) (Some (tailText out TAIL_MAX))
                      (summarizeFailure host err out))
    /\ failed (state w') = true /\ done (state w') = true
    /\ installing (state w') = false /\ stage (state w') = Stage.failed
  else
    fst (drive o (installBun host sender) w) = Fulfilled tt
    /\ failed (state w') = false /\ error (state w') = error (state w)
    /\ stage (state w') = Stage.installing_bun.
Proof.
  intros Ho Hf w'. unfold w'. clear w'.
  destruct w as [[stg uvI bunI ins dn fl er lg upd] r tr n]. cbn in Hf. subst fl.
  unfold installBun. drive_cbn. rewrite Ho.
  past_chunks sender (Some bun).
  drive_cbn. cbn [spawn_exitCode spawn_stderr spawn_stdout].
  destruct (exit_nonzero code); drive_cbn.
  - remember (summarizeFailure host err out) as sg eqn:Esg.
    destruct sg as [s|]; sync_cbn; [destruct (truthy s); sync_cbn|];
      drive_cbn; repeat split; reflexivity.
  - repeat split; reflexivity.
Qed.

Lemma exit_nonzero_spec (code : option Z) :
  exit_nonzero code = false <-> code = Some 0%Z.
Proof.
  destruct code as [z|]; cbn [exit_nonzero]; [|split; discriminate].
  destruct (Z.eqb_spec z 0) as [->|Hz]; cbn [negb].
  - split; reflexivity.
  - split; [discriminate|]. intros H. injection H as H. contradiction.
Qed.

(** What an installer makes of the exit of its script.  When the script
    ends with exit code 0 the installer returns and nothing is marked
    failed.  With any other exit code, and also when there is none (the
    process gave [null]), the installer throws its [install failed] error
    after storing the failure: the command line, the exit code, the ends
    of both outputs as [tailText] cuts them, and the suggestion
    [summarizeFailure] draws from the whole outputs; the state is then
    failed, done, not installing, at stage [failed]. *)
Theorem installer_exit_detail (o : Oracle) (sender : Sender) (code : option Z)
  (err out : string) (w : World) :
  (forall n script, snd (spawn_answer o n script) = Fulfilled (mkSpawnResult code err out)) ->
  failed (state w) = false ->
  let uv_end := drive o (installUv host sender) w in
  let bun_end := drive o (installBun host sender) w in
  (code = Some 0%Z ->
   fst uv_end = Fulfilled tt /\ failed (state (snd uv_end)) = false
   /\ fst bun_end = Fulfilled tt /\ failed (state (snd bun_end)) = false)
  /\ (code <> Some 0%Z ->
      fst uv_end = Rejected (ErrorObject "uv install failed")
      /\ error (state (snd uv_end))
         = Some (Err.mk (t host "mcp.envInit.messages.uvInstallFailed")
                        (Some (command_of host "install-uv.js")) (Some code)
                        (Some (tailText err TAIL_MAX)) (Some (tailText out TAIL_MAX))
                        (summarizeFailure host err out))
      /\ fst bun_end = Rejected (ErrorObject "bun install failed")
      /\ error (state (snd bun_end))
         = Some (Err.mk (t host "mcp.envInit.messages.bunInstallFailed")
                        (Some (command_of host "install-bun.js")) (Some code)
                        (Some (tailText err TAIL_MAX)) (Some (tailText out TAIL_MAX))
                        (summarizeFailure host err out))
      /\ (forall st, st = state (snd uv_end) \/ st = state (snd bun_end) ->
          failed st = true /\ done st = true /\ installing st = false
          /\ stage st = Stage.failed)).
Proof.
  intros Ho Hf uv_end bun_end.
  pose proof (installUv_exit o sender code err out w Ho Hf) as Hu.
  pose proof (installBun_exit o sender code err out w Ho Hf) as Hb.
  cbv zeta in Hu, Hb. fold uv_end in Hu. fold bun_end in Hb.
  destruct (exit_nonzero code) eqn:E.
  - split.
    + intros Hc. apply exit_nonzero_spec in Hc. congruence.
    + intros _. destruct Hu as (U1 & U2 & U3), Hb as (B1 & B2 & B3).
      split; [exact U1|]. split; [exact U2|]. split; [exact B1|]. split; [exact B2|].
      intros st [->| ->]; assumption.
  - split.
    + intros _. destruct Hu as (U1 & U2 & _), Hb as (B1 & B2 & _). auto.
    + intros Hc. apply exit_nonzero_spec in E. contradiction.
Qed.

End InstallerExit.

Lemma installer_exit_detail_witness :
  let o := mkOracle (fun _ _ => false)
             (fun _ _ => ([(stderr, "killed")], Fulfilled (mkSpawnResult None "killed" ""))) in
  let w := mcpEnvInitService posix_host in
  (forall n script, snd (spawn_answer o n script) = Fulfilled (mkSpawnResult None "killed" ""))
  /\ failed (state w) = false
  /\ fst (drive o (installUv posix_host 7) w) = Rejected (ErrorObject "uv install failed")
  /\ error (state (snd (drive o (installUv posix_host 7) w)))
     = Some (Err.mk (t posix_host "mcp.envInit.messages.uvInstallFailed")
                    (Some (command_of posix_host "install-uv.js")) (Some None)
                    (Some (tailText "killed" TAIL_MAX)) (Some (tailText "" TAIL_MAX))
                    (summarizeFailure posix_host "killed" "")).
Proof.
  split; [reflexivity|]. split; [reflexivity|].
  assert (Hc : @None Z <> Some 0%Z) by discriminate.
  pose proof (proj2 (installer_exit_detail posix_host
           (mkOracle (fun _ _ => false)
              (fun _ _ => ([(stderr, "killed")], Fulfilled (mkSpawnResult None "killed" ""))))
           7 None "killed" "" (mcpEnvInitService posix_host)
           (fun _ _ => eq_refl) eq_refl) Hc) as H.
  split; [exact (proj1 H) | exact (proj1 (proj2 H))].
Defined.

(** ** Choosing the locale *)

Lemma truthy_found (o : option string) :
  truthy_opt o = true -> o = Some (or_string o "") /\ or_string o "" <> "".
Proof.
  destruct o as [s|]; cbn [truthy_opt or_string]; [|discriminate].
  intros H. rewrite H. split; [reflexivity|]. intros ->. discriminate H.
Qed.

(** [findBestLocale] answers with a locale there is, but for two
    defaults: the result is a key of the table, or it is [zh-CN] for a
    Chinese tag, or [en-US] for a tag of another language.  A missing tag
    gives [en-US]. *)
Theorem findBestLocale_available (keys : list string) (locale : string) :
  (In (findBestLocale keys locale) keys
   \/ (findBestLocale keys locale = "zh-CN" /\ language_of locale = "zh")
   \/ (findBestLocale keys locale = "en-US" /\ language_of locale <> "zh"))
  /\ findBestLocale keys "" = "en-US".
Proof.
  split; [|reflexivity].
  unfold findBestLocale, language_of, find_lowered.
  destruct locale as [|c rest]; [right; right; split; [reflexivity | discriminate]|].
  cbn [truthy negb]. cbv zeta.
  set (cleaned := replace_first "_" "-" (String c rest)).
  destruct (truthy_opt (find _ keys)) eqn:E1.
  - left. apply truthy_found in E1. destruct E1 as [E1 _].
    apply find_some in E1. apply E1.
  - clear E1.
    destruct (String.eqb (toLowerCase (hd "" (split "-" cleaned))) "zh") eqn:Ez.
    + apply String.eqb_eq in Ez.
      destruct (includes "tw" _ || includes "hant" _ || includes "hk" _).
      * destruct (find _ keys) as [l|] eqn:F; [left; apply (find_some _ _ F) | auto].
      * destruct (find _ keys) as [l|] eqn:F; [left; apply (find_some _ _ F) | auto].
    + apply String.eqb_neq in Ez.
      destruct (truthy_opt (find _ keys)) eqn:E2.
      * left. apply truthy_found in E2. destruct E2 as [E2 _].
        apply find_some in E2. apply E2.
      * clear E2. destruct (truthy_opt (find _ keys)) eqn:E3.
        -- left. apply truthy_found in E3. destruct E3 as [E3 _].
           apply find_some in E3. apply E3.
        -- auto.
Qed.

Lemma toLowerCase_empty (s : string) : toLowerCase s = "" -> s = "".
Proof. destruct s; [reflexivity | discriminate]. Qed.

Lemma replace_first_empty (a b : ascii) (s : string) : replace_first a b s = "" -> s = "".
Proof.
  destruct s as [|c rest]; [reflexivity|]. cbn [replace_first].
  destruct (Ascii.eqb c a); discriminate.
Qed.

(** A locale there is wins, whatever the case of its letters and with [_]
    for [-]: when some key equals the tag once both are lower-cased and
    the first [_] of the tag is read as [-], the result is such a key, the
    first one of the table. *)
Theorem findBestLocale_exact (keys : list string) (locale key : string) :
  locale <> "" ->
  In key keys ->
  toLowerCase key = toLowerCase (replace_first "_" "-" locale) ->
  In (findBestLocale keys locale) keys
  /\ toLowerCase (findBestLocale keys locale) = toLowerCase key
  /\ find_lowered keys (toLowerCase key) = Some (findBestLocale keys locale).
Proof.
  intros Hne Hin Hk. unfold findBestLocale.
  destruct locale as [|c rest]; [contradiction|]. cbn [truthy negb]. cbv zeta.
  rewrite <- Hk.
  destruct (find_lowered keys (toLowerCase key)) as [e|] eqn:F.
  - unfold find_lowered in F. pose proof (find_some _ _ F) as [He Hl].
    apply String.eqb_eq in Hl.
    assert (Ht : truthy e = true).
    { destruct e; [|reflexivity]. cbn in Hl. symmetry in Hl.
      rewrite Hk in Hl. apply toLowerCase_empty, replace_first_empty in Hl.
      discriminate Hl. }
    cbn [truthy_opt or_string]. rewrite Ht. auto.
  - unfold find_lowered in F.
    pose proof (find_none _ _ F _ Hin) as H. cbn in H.
    rewrite String.eqb_refl in H. discriminate H.
Qed.

Lemma findBestLocale_exact_witness :
  let keys := ["en-US"; "zh-CN"; "zh-TW"] in
  "zh_tw" <> ""
  /\ In "zh-TW" keys
  /\ toLowerCase "zh-TW" = toLowerCase (replace_first "_" "-" "zh_tw")
  /\ In (findBestLocale keys "zh_tw") keys
  /\ toLowerCase (findBestLocale keys "zh_tw") = toLowerCase "zh-TW"
  /\ find_lowered keys (toLowerCase "zh-TW") = Some (findBestLocale keys "zh_tw").
Proof.
  assert (H1 : "zh_tw" <> "") by discriminate.
  assert (H2 : In "zh-TW" ["en-US"; "zh-CN"; "zh-TW"]) by (cbn; auto).
  assert (H3 : toLowerCase "zh-TW" = toLowerCase (replace_first "_" "-" "zh_tw"))
    by reflexivity.
  split; [exact H1|]. split; [exact H2|]. split; [exact H3|].
  apply (findBestLocale_exact ["en-US"; "zh-CN"; "zh-TW"] "zh_tw" "zh-TW" H1 H2 H3).
Defined.

(** ** A run whose install scripts exit with code 0 *)

Lemma drive_spawn {A : Type} (o : Oracle) (script : string) (options : SpawnOptions)
  (k : Settled SpawnResult -> Async A) (w : World) :
  drive o (Await (spawnNodeScriptStreaming script options) k) w
  = drive o (k (snd (spawn_answer o (ticks w) script)))
      (snd (deliver_chunks options (fst (spawn_answer o (ticks w) script)) w)).
Proof. reflexivity. Qed.

Section Recheck.
Variable host : Host.

Ltac reduce_head :=
  cbn [abind sync try_catch negb andb orb failed
       spawn_exitCode spawn_stderr spawn_stdout exit_nonzero Z.eqb];
  try unfold sync.

(** What was sent and logged does not matter to the outcome. *)
Ltac forget_history :=
  lazymatch goal with
  | |- context [@drive _ _ _ (mkWorld (mkState _ _ _ _ _ _ _ ?lg _) _ ?tr _)] =>
      tryif is_var tr then idtac else (generalize tr; intro);
      tryif is_var lg then idtac else (generalize lg; intro)
  | |- _ => idtac
  end.

Ltac sync_case :=
  lazymatch goal with
  | |- context [@drive ?A ?o (Sync ?m ?k) ?w] =>
      let x := sync_eval (fst (m w)) in
      let w' := sync_eval (snd (m w)) in
      rewrite (drive_Sync o m k w);
      change (fst (m w)) with x; change (snd (m w)) with w';
      forget_history
  | |- context [@exec ?A (Sync ?m ?k) ?w] =>
      let x := sync_eval (fst (m w)) in
      let w' := sync_eval (snd (m w)) in
      rewrite (exec_Sync m k w);
      change (fst (m w)) with x; change (snd (m w)) with w'
  end.

Ltac probe_case :=
  rewrite drive_probe; cbn [ticks];
  match goal with
  | |- context [probe_answer ?o ?n ?name] => destruct (probe_answer o n name)
  end.

Ltac spawn_case Ho sender :=
  rewrite drive_spawn; cbn [ticks];
  match goal with
  | |- context [spawn_answer ?o ?n ?script] =>
      let r := fresh "r" in
      let E := fresh "E" in
      let C := fresh "C" in
      destruct (Ho n script) as (r & E & C); rewrite E;
      destruct r as [? ? ?]; cbn [spawn_exitCode] in C; subst
  end;
  match goal with
  | |- context [deliver_chunks
                  (mkSpawnOptions (log_lines (fun msg => info _ _ msg ?src)) _)
                  ?chunks ?w0] =>
      let F := fresh "F" in
      pose proof (deliver_chunks_flags host sender src chunks w0) as F;
      destruct (deliver_chunks _ chunks w0) as [[] [[? ? ? ? ? ? ? ? ?] ? ? ?]];
      cbn in F; injection F as ? ? ? ? ? ? ?; subst
  end.

Ltac run_on Ho sender :=
  repeat (reduce_head; first [sync_case | probe_case | spawn_case Ho sender]).

Lemma launch_after_clean_installs (o : Oracle) (h : Handle) (sender : Sender) (w : World) :
  (forall n script, exists r,
     snd (spawn_answer o n script) = Fulfilled r /\ spawn_exitCode r = Some 0%Z) ->
  exists st w',
    launch host o h sender w = (Fulfilled st, w') /\ state w' = st /\ running w' = None
    /\ ((stage st = Stage.env_ready /\ alreadyReady st = true /\ error st = None)
        \/ (stage st = Stage.failed /\ done st = true /\ failed st = true
            /\ installing st = false
            /\ uvInstalled st && bunInstalled st = false
            /\ error st
               = Some (Err.mk
                         (t host "mcp.envInit.messages.installScriptCompletedButRecheckFailed")
                         None None None None
                         (Some (t host "mcp.envInit.messages.checkSecuritySoftware"))))).
Proof.
  intros Ho.
  destruct w as [[stg uvI bunI ins dn fl er lg upd] r tr n].
  unfold launch. sync_cbn.
  unfold run, or_await, await_probe, installUv, installBun, await_spawn.
  repeat (reduce_head; sync_case).
  reduce_head. cbn [exec set_running state running sent ticks].
  rewrite drive_paused_probe. cbn [ticks].
  match goal with
  | |- context [probe_answer ?o ?n ?name] => destruct (probe_answer o n name)
  end.
  all: run_on Ho sender.
  all: reduce_head; cbn [drive]; unfold settle, promise_catch, promise_finally; sync_cbn.
  all: repeat match goal with
              | |- context [truthy ?s] => destruct (truthy s); sync_cbn
              end.
  all: do 2 eexists; (split; [reflexivity|]); (split; [reflexivity|]);
    (split; [reflexivity|]).
  all: first [ left; repeat split; reflexivity | right; repeat split; reflexivity ].
Qed.

(** When the install scripts exit with code 0, the re-check alone decides.
    Whatever the probes answer and whatever the scripts print, a run whose
    installers (if any are started) exit with code 0 fulfils the promise
    with the final state and clears [running]; that state is either ready
    at [env-ready] without an error, or failed at [failed] with a tool
    still missing and the error of the re-check: its message, the
    security-software suggestion, and no command, exit code or output. *)
Theorem recheck_decides_outcome (o : Oracle) (h : Handle) (sender : Sender) (w : World) :
  (forall n script, exists r,
     snd (spawn_answer o n script) = Fulfilled r /\ spawn_exitCode r = Some 0%Z) ->
  let final := state (snd (launch host o h sender w)) in
  fst (launch host o h sender w) = Fulfilled final
  /\ running (snd (launch host o h sender w)) = None
  /\ ((stage final = Stage.env_ready /\ alreadyReady final = true /\ error final = None)
      \/ (stage final = Stage.failed /\ done final = true /\ failed final = true
          /\ installing final = false
          /\ uvInstalled final && bunInstalled final = false
          /\ error final
             = Some (Err.mk
                       (t host "mcp.envInit.messages.installScriptCompletedButRecheckFailed")
                       None None None None
                       (Some (t host "mcp.envInit.messages.checkSecuritySoftware"))))).
Proof.
  intros Ho final. unfold final. clear final.
  destruct (launch_after_clean_installs o h sender w Ho) as (st & w' & E & Es & Hr & H).
  rewrite E. cbn [fst snd]. rewrite Es. auto.
Qed.

End Recheck.

Lemma recheck_decides_outcome_witness :
  let o := mkOracle (fun _ _ => false)
             (fun _ _ => ([], Fulfilled (mkSpawnResult (Some 0%Z) "" "installed"))) in
  let w := mcpEnvInitService posix_host in
  let final := state (snd (launch posix_host o 0 7 w)) in
  (forall n script, exists r,
     snd (spawn_answer o n script) = Fulfilled r /\ spawn_exitCode r = Some 0%Z)
  /\ fst (launch posix_host o 0 7 w) = Fulfilled final
  /\ running (snd (launch posix_host o 0 7 w)) = None
  /\ ((stage final = Stage.env_ready /\ alreadyReady final = true /\ error final = None)
      \/ (stage final = Stage.failed /\ done final = true /\ failed final = true
          /\ installing final = false
          /\ uvInstalled final && bunInstalled final = false
          /\ error final
             = Some (Err.mk
                       (t posix_host
                          "mcp.envInit.messages.installScriptCompletedButRecheckFailed")
                       None None None None
                       (Some (t posix_host "mcp.envInit.messages.checkSecuritySoftware"))))).
Proof.
  assert (H : forall (n : nat) (script : string), exists r,
            snd (spawn_answer
                   (mkOracle (fun _ _ => false)
                      (fun _ _ => ([], Fulfilled (mkSpawnResult (Some 0%Z) "" "installed"))))
                   n script) = Fulfilled r
            /\ spawn_exitCode r = Some 0%Z)
    by (intros n script; eexists; split; reflexivity).
  split; [exact H|].
  apply (recheck_decides_outcome posix_host
           (mkOracle (fun _ _ => false)
              (fun _ _ => ([], Fulfilled (mkSpawnResult (Some 0%Z) "" "installed"))))
           0 7 (mcpEnvInitService posix_host) H).
Defined.

(** ** Activating the server *)

Section Activation.
Variable Others : Type.
Variable created : Others.
Variable cannotConnect : string.
Variable activateFailed : string -> string.

Abbreviation activate_with :=
  (activateMaaMcp Others created cannotConnect activateFailed).

(** How an activation ends.  A call made while another one is running
    changes nothing.  Otherwise the call releases the flag and ends at
    [done] or [failed]; at [failed] the panel is visible and holds an
    error text; at [done] it holds none and its visibility is as before;
    the actions dispatched before are kept. *)
Theorem activation_ends_done_or_failed (servers : list (MCPServer Others))
  (first second : Settled bool) (p : Activating Others) :
  let p' := activate_with servers first second p in
  (act_running p = true -> p' = p)
  /\ (act_running p = false ->
      act_running p' = false
      /\ (act_stage p' = Activation.done \/ act_stage p' = Activation.failed)
      /\ (act_stage p' = Activation.failed ->
          act_visible p' = true /\ act_error p' <> None)
      /\ (act_stage p' = Activation.done ->
          act_error p' = None /\ act_visible p' = act_visible p)
      /\ exists more, act_dispatched p' = act_dispatched p ++ more).
Proof.
  intros p'. unfold p', activateMaaMcp, ensureMaaServer, onActivateError. clear p'.
  split; [intros ->; reflexivity|]. intros ->.
  destruct (findMaa Others servers) as [server|]; cbn [fst snd].
  1: destruct (isActive server); [destruct first as [[|]|e1]|].
  all: destruct second as [[|]|e2].
  all: cbn [release dispatch act_stage act_error act_visible act_running act_dispatched
            createMaaMcpServer isActive name others].
  all: try destruct (isActive server).
  all: cbn [release dispatch act_stage act_error act_visible act_running act_dispatched].
  all: split; [reflexivity|].
  all: split; [auto|].
  all: split; [intros H; first [discriminate H | split; [reflexivity | discriminate]]|].
  all: split; [intros H; first [discriminate H | split; reflexivity]|].
  all: rewrite <- ?app_assoc; eexists; first [reflexivity | rewrite app_nil_r; reflexivity].
Qed.

(** The roll-back after a failed activation depends on how it failed.
    For a server that the component's list shows inactive, or does not
    show at all: when the check after activation answers false, the last
    action dispatched marks the server inactive again; when that check
    rejects, as it does on a timeout, no roll-back is dispatched, and the
    last action dispatched is the one that marked the server active,
    although the activation ended at [failed]. *)
Theorem activation_rollback_missing_on_reject (servers : list (MCPServer Others))
  (first : Settled bool) (err : Thrown) (p : Activating Others) :
  act_running p = false ->
  match findMaa Others servers with
  | Some server => isActive server = false
  | None => True
  end ->
  let server := match findMaa Others servers with
                | Some server => server
                | None => createMaaMcpServer Others created
                end in
  let rejected := activate_with servers first (Rejected err) p in
  let refused := activate_with servers first (Fulfilled false) p in
  act_stage rejected = Activation.failed
  /\ act_stage refused = Activation.failed
  /\ (exists before,
        act_dispatched rejected
        = before ++ [updateMCPServer (mkServer (name server) true (others server))])
  /\ (exists before,
        act_dispatched refused
        = before ++ [updateMCPServer (mkServer (name server) true (others server));
                     updateMCPServer (mkServer (name server) false (others server))]).
Proof.
  intros Hrun Hinactive server rejected refused.
  unfold rejected, refused, server, activateMaaMcp, ensureMaaServer, onActivateError.
  clear rejected refused server. rewrite Hrun.
  destruct (findMaa Others servers) as [server|]; cbn [fst snd].
  - rewrite Hinactive.
    cbn [release dispatch act_stage act_error act_visible act_running act_dispatched].
    split; [reflexivity|]. split; [reflexivity|].
    split; [eexists; reflexivity|].
    rewrite <- app_assoc. eexists. reflexivity.
  - cbn [release dispatch act_stage act_error act_visible act_running act_dispatched
         createMaaMcpServer isActive name others].
    split; [reflexivity|]. split; [reflexivity|].
    split; [eexists; reflexivity|].
    rewrite <- app_assoc. eexists. reflexivity.
Qed.

End Activation.

Lemma activation_ends_done_or_failed_witness :
  let p := mkActivating Activation.idle None false false (@nil (ServerAction unit)) in
  let p' := activateMaaMcp unit tt "cannot connect" (fun m => m) []
              (Fulfilled true) (Rejected (ErrorObject "timeout")) p in
  act_running p = false
  /\ act_running p' = false
  /\ (act_stage p' = Activation.done \/ act_stage p' = Activation.failed)
  /\ (act_stage p' = Activation.failed -> act_visible p' = true /\ act_error p' <> None)
  /\ (act_stage p' = Activation.done -> act_error p' = None /\ act_visible p' = act_visible p)
  /\ exists more, act_dispatched p' = act_dispatched p ++ more.
Proof.
  split; [reflexivity|].
  apply (proj2 (activation_ends_done_or_failed unit tt "cannot connect" (fun m => m) []
                  (Fulfilled true) (Rejected (ErrorObject "timeout"))
                  (mkActivating Activation.idle None false false [])));
    reflexivity.
Defined.

Lemma activation_rollback_missing_on_reject_witness :
  let p := mkActivating Activation.idle None false false (@nil (ServerAction unit)) in
  let servers := [mkServer "maa-mcp" false tt] in
  let rejected := activateMaaMcp unit tt "cannot connect" (fun m => m) servers
                    (Fulfilled true) (Rejected (ErrorObject "timeout")) p in
  act_running p = false
  /\ isActive (mkServer "maa-mcp" false tt) = false
  /\ act_stage rejected = Activation.failed
  /\ exists before,
       act_dispatched rejected = before ++ [updateMCPServer (mkServer "maa-mcp" true tt)].
Proof.
  split; [reflexivity|]. split; [reflexivity|].
  pose proof (activation_rollback_missing_on_reject unit tt "cannot connect" (fun m => m)
                [mkServer "maa-mcp" false tt] (Fulfilled true) (ErrorObject "timeout")
                (mkActivating Activation.idle None false false [])
                eq_refl eq_refl) as H.
  split; [exact (proj1 H) | exact (proj1 (proj2 (proj2 H)))].
Defined.
